(** * anomaly_alao: mod discovery, script extraction and chunk splitting

    A shallow embedding of [discovery.py], [tools/script_extractor.py] and
    [tools/split_test.py].  The programs only talk to the file system, so the
    file system is an explicit value: a tree of nodes that the functions read
    (discovery) or thread through as state (extractor, splitter). *)

From Stdlib Require Import String Ascii List ZArith Lia Sorting.Sorted
  Sorting.Permutation.
From stdpp Require Import base option list strings gmap pretty.

Open Scope string_scope.
Open Scope list_scope.

(** ** Exceptions and the error monad *)

(** The exceptions the modelled calls raise.  The first six are subclasses
    of Python's [OSError]; [SystemExit] is what [sys.exit] raises. *)
Inductive exn : Type :=
| FileNotFoundError
| NotADirectoryError
| IsADirectoryError
| FileExistsError
| PermissionError
| SameFileError
| IndexError
| ValueError
| ZeroDivisionError
| EOFError
| SystemExit (code : Z).

Definition is_OSError (e : exn) : bool :=
  match e with
  | FileNotFoundError | NotADirectoryError | IsADirectoryError
  | FileExistsError | PermissionError | SameFileError => true
  | _ => false
  end.

Inductive result (A : Type) : Type :=
| Ok (a : A)
| Raise (e : exn).
Arguments Ok {A} a.
Arguments Raise {A} e.

Definition bind {A B} (r : result A) (k : A -> result B) : result B :=
  match r with
  | Ok a => k a
  | Raise e => Raise e
  end.

Notation "'do' x <- r ; k" := (bind r (fun x => k))
  (at level 10, x pattern, r at level 100, k at level 200,
   format "'[v' 'do'  x  <-  r ; '/' k ']'").

(** [try: body except (OSError, IOError): pass], where [unchanged] is the
    value of the variables the body assigns, as they were before it. *)
Definition try_except_OSError {A} (body : result A) (unchanged : A) : result A :=
  match body with
  | Ok a => Ok a
  | Raise e => if is_OSError e then Ok unchanged else Raise e
  end.

(** The computation returns; no exception leaves it. *)
Definition returns {A} (r : result A) : Prop := exists a, r = Ok a.

(** [for x in l: acc = body acc x], stopping at the first exception. *)
Fixpoint for_each {A S} (body : S -> A -> result S) (l : list A) (acc : S)
  : result S :=
  match l with
  | [] => Ok acc
  | x :: l' => do acc' <- body acc x; for_each body l' acc'
  end.

(** State that survives an exception: the file system, the standard
    output, a dictionary being filled.  A computation returns its result or
    the exception raised, and the state as it was left. *)
Definition io (S A : Type) : Type := S -> result A * S.

Definition io_ret {S A} (a : A) : io S A := fun s => (Ok a, s).

Definition io_raise {S A} (e : exn) : io S A := fun s => (Raise e, s).

Definition io_bind {S A B} (m : io S A) (k : A -> io S B) : io S B :=
  fun s =>
    match m s with
    | (Ok a, s') => k a s'
    | (Raise e, s') => (Raise e, s')
    end.

Notation "'run' x <- m ; k" := (io_bind m (fun x => k))
  (at level 10, x pattern, m at level 100, k at level 200,
   format "'[v' 'run'  x  <-  m ; '/' k ']'").
Notation "m ;; k" := (io_bind m (fun _ => k))
  (at level 100, k at level 200, right associativity).

(** [except Exception], which [SystemExit] passes through. *)
Definition is_Exception (e : exn) : bool :=
  match e with SystemExit _ => false | _ => true end.

(** [try: m except Exception as e: handler e] *)
Definition try_except {S A} (m : io S A) (handler : exn -> io S A) : io S A :=
  fun s =>
    match m s with
    | (Raise e, s') => if is_Exception e then handler e s' else (Raise e, s')
    | r => r
    end.

(** [for x in l: body x] *)
Fixpoint io_for {S A} (l : list A) (body : A -> io S unit) : io S unit :=
  match l with
  | [] => io_ret tt
  | x :: l' => body x ;; io_for l' body
  end.

(** ** Strings *)

(** [s.startswith(p)] *)
Fixpoint startswith (s p : string) {struct p} : bool :=
  match p with
  | EmptyString => true
  | String b p' =>
      match s with
      | String a s' => Ascii.eqb a b && startswith s' p'
      | EmptyString => false
      end
  end.

(** [s.endswith(suffix)] *)
Definition endswith (s suffix : string) : bool :=
  startswith (String.rev s) (String.rev suffix).

(** Text is a [string] whose characters stand for the code points of the
    decoded text (those below 256). *)

(** The line boundaries of [str.splitlines]: LF, VT, FF, CR, FS, GS, RS, NEL. *)
Definition is_linebreak (a : ascii) : bool :=
  let n := nat_of_ascii a in
  bool_decide (n ∈ [10; 11; 12; 13; 28; 29; 30; 133]).

(** The characters [str.strip] removes: those for which [isspace] holds. *)
Definition is_space (a : ascii) : bool :=
  let n := nat_of_ascii a in
  bool_decide (n ∈ [9; 10; 11; 12; 13; 28; 29; 30; 31; 32; 133; 160]).

(** [s.splitlines()]: [cur] is the current line, reversed.  A CR directly
    followed by LF is one boundary; a final line without boundary counts
    when it is not empty. *)
Fixpoint splitlines_go (cur : string) (s : string) : list string :=
  match s with
  | EmptyString =>
      match cur with EmptyString => [] | _ => [String.rev cur] end
  | String a s' =>
      if is_linebreak a then
        String.rev cur ::
        match a, s' with
        | "013"%char, String "010"%char s'' => splitlines_go "" s''
        | _, _ => splitlines_go "" s'
        end
      else splitlines_go (String a cur) s'
  end.

Definition splitlines (s : string) : list string := splitlines_go "" s.

Fixpoint lstrip (s : string) : string :=
  match s with
  | String a s' => if is_space a then lstrip s' else s
  | EmptyString => EmptyString
  end.

(** [s.strip()] *)
Definition strip (s : string) : string :=
  String.rev (lstrip (String.rev (lstrip s))).

(** [s.split(sep, 1)[1]] for a one-character [sep]: what follows the first
    [sep]; [IndexError] when there is none. *)
Fixpoint split1_snd (sep : ascii) (s : string) : result string :=
  match s with
  | EmptyString => Raise IndexError
  | String a s' => if Ascii.eqb a sep then Ok s' else split1_snd sep s'
  end.

(** [l[a:b]] for integers [a] and [b]: a negative index counts from the
    end, and both are clamped to the list. *)
Definition slice_index (len i : Z) : Z :=
  let i := if (i <? 0)%Z then (i + len)%Z else i in
  Z.max 0 (Z.min len i).

Definition slice {A} (l : list A) (a b : Z) : list A :=
  let len := Z.of_nat (length l) in
  let a := slice_index len a in
  let b := slice_index len b in
  firstn (Z.to_nat (b - a)) (skipn (Z.to_nat a) l).

(** [f"{n:02d}"] for a natural number *)
Definition pad2 (n : nat) : string :=
  if (n <? 10)%nat then ("0" ++ pretty n)%string else pretty n.

(** [f"{b / (1024 * 1024):.1f}"] for a size in bytes: the quotient is exact
    in binary floating point, and formatting rounds it to the nearest tenth,
    a tie to the even one. *)
Definition fmt_mb (b : nat) : string :=
  let n := (N.of_nat b * 10)%N in
  let q := (n / 1048576)%N in
  let r := (n mod 1048576)%N in
  let t := if (524288 <? r)%N || ((r =? 524288)%N && N.odd q)
           then (q + 1)%N else q in
  (pretty (t / 10)%N ++ "." ++ pretty (t mod 10)%N)%string.

(** [math.ceil(n / c)] for integers, [c] not zero, as the exact ceiling of
    the quotient.  The code takes the quotient in binary floating point:
    for [n] and [c] below 2^53 in absolute value its ceiling is the exact
    one; for a larger [c] the floating-point quotient can underflow to zero,
    which this definition does not follow. *)
Definition ceil_div (n c : Z) : Z := (- ((- n) / c))%Z.

(** The line feed. *)
Definition LF : string := String "010" "".

(** The truth value of a list: non-empty. *)
Definition truthy {A} (l : list A) : bool :=
  match l with [] => false | _ => true end.

(** ** Paths

    A [pathlib.Path] is its sequence of components; [p / "x"] appends one. *)
Definition Path : Type := list string.

(** [p.name]: the final component, [""] for the empty path. *)
Definition name (p : Path) : string := List.last p "".

(** [p.parent] *)
Definition parent (p : Path) : Path := removelast p.

(** [str(p)] *)
Definition path_str (p : Path) : string :=
  match p with [] => "." | _ => String.concat "/" p end.

(** [Path(s)]: the components between separators; empty components and
    ["."] are dropped. *)
Fixpoint split_sep (cur : string) (s : string) : list string :=
  match s with
  | EmptyString => [String.rev cur]
  | String a s' =>
      if Ascii.eqb a "/" then String.rev cur :: split_sep "" s'
      else split_sep (String a cur) s'
  end.

Definition Path_of_string (s : string) : Path :=
  List.filter (fun c => negb (String.eqb c "") && negb (String.eqb c "."))
              (split_sep "" s).

(** [p.relative_to(base)] *)
Fixpoint relative_to (p base : Path) : result Path :=
  match base with
  | [] => Ok p
  | b :: base' =>
      match p with
      | c :: p' => if String.eqb c b then relative_to p' base' else Raise ValueError
      | [] => Raise ValueError
      end
  end.

(** Paths compare component by component, each component as a string
    (pathlib compares the lists of parts). *)
Definition path_cmp (p q : Path) : comparison := list_compare String.compare p q.

Definition path_ltb (p q : Path) : bool :=
  match path_cmp p q with Lt => true | _ => false end.

Definition path_le (p q : Path) : Prop := path_cmp p q <> Gt.

(** [sorted(l)]: a stable sort by [<]; each element is inserted after the
    elements that are not greater. *)
Fixpoint insert_sorted (x : Path) (l : list Path) : list Path :=
  match l with
  | [] => [x]
  | y :: l' => if path_ltb x y then x :: y :: l' else y :: insert_sorted x l'
  end.

Definition sorted (l : list Path) : list Path :=
  fold_left (fun acc x => insert_sorted x acc) l [].

(** ** The file system *)

(** A regular file has contents and may be unreadable; a directory has an
    ordered listing (the order in which the operating system enumerates it)
    and may be unlistable (no read permission).  Lookup by name is always
    permitted: every directory can be searched, so [exists()], [is_dir()]
    and the globs do not raise here.  [Access], further down, adds the
    search permission where a claim turns on it. *)
Inductive node : Type :=
| File (readable : bool) (data : string)
| Dir (listable : bool) (entries : list (string * node)).

Fixpoint entry_lookup (c : string) (es : list (string * node)) : option node :=
  match es with
  | [] => None
  | (c', n) :: es' => if String.eqb c c' then Some n else entry_lookup c es'
  end.

Fixpoint resolve (fs : node) (p : Path) : option node :=
  match p with
  | [] => Some fs
  | c :: p' =>
      match fs with
      | Dir _ es =>
          match entry_lookup c es with
          | Some ch => resolve ch p'
          | None => None
          end
      | File _ _ => None
      end
  end.

(** [p.exists()] *)
Definition path_exists (fs : node) (p : Path) : bool :=
  match resolve fs p with Some _ => true | None => false end.

(** [p.is_dir()] *)
Definition is_dir (fs : node) (p : Path) : bool :=
  match resolve fs p with Some (Dir _ _) => true | _ => false end.

(** [p.iterdir()]: the children of a directory, in listing order. *)
Definition iterdir (fs : node) (p : Path) : result (list Path) :=
  match resolve fs p with
  | None => Raise FileNotFoundError
  | Some (File _ _) => Raise NotADirectoryError
  | Some (Dir false _) => Raise PermissionError
  | Some (Dir true es) => Ok (map (fun e => p ++ [fst e]) es)
  end.

(** [p.read_text(encoding='utf-8', errors='ignore')] *)
Definition read_text (fs : node) (p : Path) : result string :=
  match resolve fs p with
  | None => Raise FileNotFoundError
  | Some (Dir _ _) => Raise IsADirectoryError
  | Some (File false _) => Raise PermissionError
  | Some (File true data) => Ok data
  end.

(** [p.stat().st_size]: the length of a file; for a directory a size the
    platform chooses. *)
Definition dir_st_size : nat := 4096.

Definition st_size (fs : node) (p : Path) : result nat :=
  match resolve fs p with
  | None => Raise FileNotFoundError
  | Some (Dir _ _) => Ok dir_st_size
  | Some (File _ data) => Ok (String.length data)
  end.

Fixpoint entry_update (c : string) (n : node) (es : list (string * node))
  : list (string * node) :=
  match es with
  | [] => []
  | (c', n') :: es' =>
      if String.eqb c c' then (c', n) :: es' else (c', n') :: entry_update c n es'
  end.

(** [p.mkdir(parents=True, exist_ok=True)]: directories that are missing
    along [p] are created at the end of their parent's listing; a regular
    file on the way is an error. *)
Fixpoint mkdir_parents (fs : node) (p : Path) : result node :=
  match p with
  | [] =>
      match fs with
      | Dir _ _ => Ok fs
      | File _ _ => Raise FileExistsError
      end
  | c :: p' =>
      match fs with
      | File _ _ => Raise NotADirectoryError
      | Dir l es =>
          match entry_lookup c es with
          | Some ch =>
              do ch' <- mkdir_parents ch p';
              Ok (Dir l (entry_update c ch' es))
          | None =>
              do ch' <- mkdir_parents (Dir true []) p';
              Ok (Dir l (es ++ [(c, ch')]))
          end
      end
  end.

(** Opening [p] for writing and storing [data]: the file is created in an
    existing directory, or replaces a regular file of that name. *)
Fixpoint write_file (fs : node) (p : Path) (data : string) : result node :=
  match p with
  | [] =>
      match fs with
      | File _ _ => Ok (File true data)
      | Dir _ _ => Raise IsADirectoryError
      end
  | c :: p' =>
      match fs with
      | File _ _ => Raise NotADirectoryError
      | Dir l es =>
          match entry_lookup c es with
          | Some ch =>
              do ch' <- write_file ch p' data;
              Ok (Dir l (entry_update c ch' es))
          | None =>
              match p' with
              | [] => Ok (Dir l (es ++ [(c, File true data)]))
              | _ => Raise FileNotFoundError
              end
          end
      end
  end.

(** [shutil.copy2(src, dst)]: a destination that is a directory stands for
    the file of the source's name inside it; copying a file onto itself is
    refused; the source is opened for reading, then the destination for
    writing.  The copy carries the source's permissions. *)
Definition copy2 (fs : node) (src dst : Path) : result node :=
  let dst := if is_dir fs dst then dst ++ [name src] else dst in
  if path_exists fs src && bool_decide (src = dst) then Raise SameFileError
  else
    do data <- read_text fs src;
    write_file fs dst data.

(** The entries a glob sees in [n]: none unless [n] is a directory that can
    be listed ([glob] swallows the permission error). *)
Definition scan (n : node) : list (string * node) :=
  match n with
  | Dir true es => es
  | _ => []
  end.

Definition matching (suffix : string) (here : Path) (es : list (string * node))
  : list Path :=
  map (fun e => here ++ [fst e])
      (List.filter (fun e => endswith (fst e) suffix) es).

(** [dir.glob("*" + suffix)]: the entries of [dir] whose name ends in
    [suffix]; files of any kind, directories included. *)
Definition glob_here (fs : node) (dir : Path) (suffix : string) : list Path :=
  match resolve fs dir with
  | Some n => matching suffix dir (scan n)
  | None => []
  end.

(** The walk behind [glob("**/*" + suffix)] and [rglob("*" + suffix)]:
    the matches of a directory first, then those of its subdirectories in
    listing order. *)
Fixpoint walk (suffix : string) (here : Path) (n : node) : list Path :=
  match n with
  | Dir true es =>
      matching suffix here es ++
      (fix sub (es : list (string * node)) : list Path :=
         match es with
         | [] => []
         | (c, ch) :: es' => walk suffix (here ++ [c]) ch ++ sub es'
         end) es
  | _ => []
  end.

Definition glob_rec (fs : node) (dir : Path) (suffix : string) : list Path :=
  match resolve fs dir with
  | Some n => walk suffix dir n
  | None => []
  end.

(** Every directory of the tree lists each name once. *)
Fixpoint wf (n : node) : Prop :=
  match n with
  | File _ _ => True
  | Dir _ es =>
      List.NoDup (map fst es) /\
      (fix all (es : list (string * node)) : Prop :=
         match es with
         | [] => True
         | (_, ch) :: es' => wf ch /\ all es'
         end) es
  end.

(** The same, as a check that computes. *)
Fixpoint wfb (n : node) : bool :=
  match n with
  | File _ _ => true
  | Dir _ es =>
      bool_decide (NoDup (map fst es)) &&
      (fix all (es : list (string * node)) : bool :=
         match es with
         | [] => true
         | (_, ch) :: es' => wfb ch && all es'
         end) es
  end.

(** A tree whose directories are those of [fs], with at least their names. *)
Definition grows (fs fs' : node) : Prop :=
  forall dir l es, resolve fs dir = Some (Dir l es) ->
    exists es', resolve fs' dir = Some (Dir l es') /\ incl (map fst es) (map fst es').

(** Whatever a glob finds in [fs], it finds in [fs'] too. *)
Definition keeps_listing (fs fs' : node) : Prop :=
  forall dir suffix q,
    In q (glob_here fs dir suffix) -> In q (glob_here fs' dir suffix).

(** [visible n rel]: the entry at [rel] below the directory [n] can be
    found by listing directories, [n] and every directory on the way. *)
Inductive visible : node -> Path -> Prop :=
| visible_entry es c ch :
    In (c, ch) es -> visible (Dir true es) [c]
| visible_below es c ch rel :
    In (c, ch) es -> visible ch rel -> visible (Dir true es) (c :: rel).

(** ** discovery.py *)

Module Discovery.

(** [find_scripts] *)
Definition find_scripts (fs : node) (scripts_dir : Path) : list Path :=
  let scripts := [] in
  let scripts :=
    fold_left (fun scripts ext => scripts ++ glob_here fs scripts_dir ext)
              [".lua"; ".script"] scripts in
  let scripts :=
    fold_left
      (fun scripts ext =>
         fold_left (fun scripts f =>
                      if bool_decide (f ∈ scripts) then scripts
                      else scripts ++ [f])
                   (glob_rec fs scripts_dir ext) scripts)
      [".lua"; ".script"] scripts in
  sorted scripts.

(** The body of the loop over [root_path.iterdir()]. *)
Definition scan_item (fs : node) (mods : gmap string (list Path)) (item : Path)
  : result (gmap string (list Path)) :=
  if negb (is_dir fs item) then Ok mods
  else if startswith (name item) "."
          || bool_decide (name item ∈ ["__pycache__"; "backup"; "backups"])
  then Ok mods
  else
    let scripts_dir := item ++ ["gamedata"; "scripts"] in
    if path_exists fs scripts_dir then
      let scripts := find_scripts fs scripts_dir in
      if truthy scripts then Ok (<[name item := scripts]> mods) else Ok mods
    else
      do subitems <- iterdir fs item;
      Ok (fold_left
            (fun mods subitem =>
               if is_dir fs subitem then
                 let nested_scripts := subitem ++ ["gamedata"; "scripts"] in
                 if path_exists fs nested_scripts then
                   let scripts := find_scripts fs nested_scripts in
                   if truthy scripts then
                     let mod_name := (name item ++ "/" ++ name subitem)%string in
                     <[mod_name := scripts]> mods
                   else mods
                 else mods
               else mods)
            subitems mods).

(** [discover_mods] *)
Definition discover_mods (fs : node) (root_path : Path)
  : result (gmap string (list Path)) :=
  let mods : gmap string (list Path) := ∅ in
  if String.eqb (name root_path) "gamedata" then
    let scripts_dir := root_path ++ ["scripts"] in
    let mods :=
      if path_exists fs scripts_dir then
        let scripts := find_scripts fs scripts_dir in
        if truthy scripts then <["(root)" := scripts]> mods else mods
      else mods in
    Ok mods
  else
    let direct_gamedata := root_path ++ ["gamedata"; "scripts"] in
    let mods :=
      if path_exists fs direct_gamedata then
        let scripts := find_scripts fs direct_gamedata in
        if truthy scripts then <[name root_path := scripts]> mods else mods
      else mods in
    do items <- iterdir fs root_path;
    for_each (scan_item fs) items mods.

(** The loop over the lines of [meta.ini]. *)
Definition meta_line (info : gmap string string) (line : string)
  : result (gmap string string) :=
  if startswith line "name=" then
    do v <- split1_snd "=" line; Ok (<["name" := strip v]> info)
  else if startswith line "version=" then
    do v <- split1_snd "=" line; Ok (<["version" := strip v]> info)
  else if startswith line "author=" then
    do v <- split1_snd "=" line; Ok (<["author" := strip v]> info)
  else Ok info.

(** [get_mod_info] *)
Definition get_mod_info (fs : node) (mod_path : Path)
  : result (gmap string string) :=
  let info : gmap string string := {["name" := name mod_path]} in
  let meta_ini := mod_path ++ ["meta.ini"] in
  do info <-
    (if path_exists fs meta_ini then
       try_except_OSError
         (do content <- read_text fs meta_ini;
          for_each meta_line (splitlines content) info)
         info
     else Ok info);
  let modinfo := mod_path ++ ["modinfo.txt"] in
  do info <-
    (if path_exists fs modinfo then
       try_except_OSError
         (do content <- read_text fs modinfo;
          let lines := splitlines content in
          match lines with
          | line0 :: _ => Ok (<["name" := strip line0]> info)
          | [] => Ok info
          end)
         info
     else Ok info);
  Ok info.

(** A script file of [scripts_dir]: an entry of any kind, at any depth
    below it, that listing directories finds and whose name carries one of
    the two extensions. *)
Definition recognized (c : string) : Prop :=
  endswith c ".lua" = true \/ endswith c ".script" = true.

Definition is_script (fs : node) (scripts_dir p : Path) : Prop :=
  exists n rel,
    resolve fs scripts_dir = Some n /\ visible n rel /\
    p = scripts_dir ++ rel /\ recognized (name rel).

End Discovery.


(** ** tools/script_extractor.py *)

Module ScriptExtractor.

(** [find_script_files] *)
Definition find_script_files (fs : node) (mods_path : Path)
  : result (list (string * Path * Path)) :=
  let scripts := [] in
  do mod_dirs <- iterdir fs mods_path;
  for_each
    (fun scripts mod_dir =>
       if negb (is_dir fs mod_dir) then Ok scripts
       else
         let scripts_dir := mod_dir ++ ["gamedata"; "scripts"] in
         if negb (path_exists fs scripts_dir) then Ok scripts
         else
           for_each
             (fun scripts script_file =>
                do rel_path <- relative_to script_file mods_path;
                Ok (scripts ++ [(name mod_dir, script_file, rel_path)]))
             (glob_rec fs scripts_dir ".script") scripts)
    mod_dirs scripts.

(** The [stats] dictionary. *)
Record stats : Type := mk_stats {
  mods : gset string;
  files : nat;
  total_size : nat;
  errors : list (Path * exn)
}.

(** What the copy loop works on: the [stats] dictionary and the file
    system. *)
Definition state : Type := stats * node.

Definition on_fs (f : node -> result node) : io state unit :=
  fun '(st, fs) =>
    match f fs with
    | Ok fs' => (Ok tt, (st, fs'))
    | Raise e => (Raise e, (st, fs))
    end.

Definition read_fs {A} (f : node -> result A) : io state A :=
  fun '(st, fs) => (f fs, (st, fs)).

Definition on_stats (f : stats -> stats) : io state unit :=
  fun '(st, fs) => (Ok tt, (f st, fs)).

(** The body of the copy loop.  Messages printed under [verbose] are not
    part of the model. *)
Definition copy_one (output_path : Path) (verbose : bool)
    (script : string * Path * Path) : io state unit :=
  let '(mod_name, src_path, rel_path) := script in
  let dst_path := output_path ++ rel_path in
  try_except
    (on_fs (fun fs => mkdir_parents fs (parent dst_path)) ;;
     on_fs (fun fs => copy2 fs src_path dst_path) ;;
     on_stats (fun st => mk_stats ({[mod_name]} ∪ mods st) (files st)
                                  (total_size st) (errors st)) ;;
     on_stats (fun st => mk_stats (mods st) (files st + 1)
                                  (total_size st) (errors st)) ;;
     run size <- read_fs (fun fs => st_size fs src_path);
     on_stats (fun st => mk_stats (mods st) (files st)
                                  (total_size st + size) (errors st)))
    (fun e =>
       on_stats (fun st => mk_stats (mods st) (files st) (total_size st)
                                    (errors st ++ [(rel_path, e)]))).

(** [extract_scripts]: the returned dictionary, and the file system as the
    run leaves it. *)
Definition extract_scripts (mods_path output_path : Path) (verbose : bool)
  : io node stats :=
  fun fs =>
    let stats0 := mk_stats ∅ 0 0 [] in
    match find_script_files fs mods_path with
    | Raise e => (Raise e, fs)
    | Ok scripts =>
        if negb (truthy scripts) then (Ok stats0, fs)
        else
          match mkdir_parents fs output_path with
          | Raise e => (Raise e, fs)
          | Ok fs1 =>
              match io_for scripts (copy_one output_path verbose) (stats0, fs1) with
              | (Ok _, (st, fs2)) => (Ok st, fs2)
              | (Raise e, (_, fs2)) => (Raise e, fs2)
              end
          end
    end.

(** The size a found script has in the tree [fs]. *)
Definition size_found (fs : node) (script : string * Path * Path) : nat :=
  match st_size fs (snd (fst script)) with
  | Ok n => n
  | Raise _ => 0
  end.

End ScriptExtractor.

(** ** tools/split_test.py *)

Module SplitTest.

(** [get_mods] *)
Definition get_mods (fs : node) (mods_path : Path) : result (list (Path * nat)) :=
  let mods := [] in
  do items <- iterdir fs mods_path;
  Ok (fold_left
        (fun mods item =>
           if is_dir fs item then
             let scripts_dir := item ++ ["gamedata"; "scripts"] in
             if path_exists fs scripts_dir then
               let script_count := length (glob_here fs scripts_dir ".script") in
               if (0 <? script_count)%nat then mods ++ [(item, script_count)]
               else mods
             else mods
           else mods)
        (sorted items) mods).

(** The process state: the file system and what was written to standard
    output, one string per call of [print]. *)
Record world : Type := mk_world {
  fs : node;
  stdout : list string
}.

(** [print(s, end=e)] *)
Definition print_end (s e : string) : io world unit :=
  fun w => (Ok tt, mk_world (fs w) (stdout w ++ [(s ++ e)%string])).

(** [print(s)] *)
Definition print (s : string) : io world unit := print_end s LF.

Definition sys_exit {A} (code : Z) : io world A := io_raise (SystemExit code).

Definition update_fs (f : node -> result node) : io world unit :=
  fun w =>
    match f (fs w) with
    | Ok fs' => (Ok tt, mk_world fs' (stdout w))
    | Raise e => (Raise e, w)
    end.

Definition query_fs {A} (f : node -> result A) : io world A :=
  fun w => (f (fs w), w).

(** [input(prompt)]: the prompt is written without a line end; [answer] is
    the line read from standard input, [None] at its end. *)
Definition input (answer : option string) (prompt : string) : io world string :=
  print_end prompt "" ;;
  match answer with
  | Some line => io_ret line
  | None => io_raise EOFError
  end.

(** [sum(count for _, count in mods)] *)
Definition sum_counts (mods : list (Path * nat)) : nat :=
  fold_left (fun acc m => (acc + snd m)%nat) mods 0%nat.

Section Zip.

(** The bytes of a zip archive with the given members (name and contents),
    which the model leaves open. *)
Variable zip_encode : list (string * string) -> string.

(** [zf.write(file, arc_path)] on the archive being written: a directory
    becomes a member without contents, named with a final separator. *)
Definition zf_write (fs : node) (file : Path) (arc_path : string)
  : io (list (string * string)) unit :=
  fun members =>
    match resolve fs file with
    | None => (Raise FileNotFoundError, members)
    | Some (Dir _ _) => (Ok tt, members ++ [((arc_path ++ "/")%string, "")])
    | Some (File false _) => (Raise PermissionError, members)
    | Some (File true data) => (Ok tt, members ++ [(arc_path, data)])
    end.

(** The body of the [with] block of [create_chunk_zip]. *)
Definition zip_mods (fs : node) (mods : list (Path * nat))
  : io (list (string * string)) unit :=
  io_for mods (fun '(mod_path, _) =>
    let scripts_dir := mod_path ++ ["gamedata"; "scripts"] in
    io_for (glob_here fs scripts_dir ".script") (fun script_file =>
      let arc_path :=
        (name mod_path ++ "/gamedata/scripts/" ++ name script_file)%string in
      zf_write fs script_file arc_path) ;;
    io_for (glob_here fs scripts_dir ".bak") (fun bak_file =>
      let arc_path :=
        (name mod_path ++ "/gamedata/scripts/" ++ name bak_file)%string in
      zf_write fs bak_file arc_path)).

(** [create_chunk_zip]: the archive is opened (created or emptied), filled,
    and closed on every way out of the [with] block. *)
Definition create_chunk_zip (mods : list (Path * nat)) (chunk_num : nat)
    (output_dir : Path) : io world Path :=
  let zip_path := output_dir ++ [("mods_chunk_" ++ pad2 chunk_num ++ ".zip")%string] in
  update_fs (fun fs => write_file fs zip_path (zip_encode [])) ;;
  fun w =>
    let '(r, members) := zip_mods (fs w) mods [] in
    match write_file (fs w) zip_path (zip_encode members) with
    | Raise e => (Raise e, w)
    | Ok fs' =>
        (match r with Ok _ => Ok zip_path | Raise e => Raise e end,
         mk_world fs' (stdout w))
    end.

(** The command line after [parser.parse_args()]. *)
Record args : Type := mk_args {
  arg_path : option string;
  arg_chunks : Z;
  arg_output : option string;
  arg_list : bool
}.

Definition str_truthy (o : option string) : option string :=
  match o with
  | Some s => if String.eqb s "" then None else Some s
  | None => None
  end.

(** The body of the loop over [range(num_chunks)]. *)
Definition write_chunk (mods : list (Path * nat)) (chunk_size num_chunks : Z)
    (output_dir : Path) (i : nat) : io world unit :=
  let start_idx := (Z.of_nat i * chunk_size)%Z in
  let end_idx := Z.min ((Z.of_nat i + 1) * chunk_size) (Z.of_nat (length mods)) in
  let chunk_mods := slice mods start_idx end_idx in
  let chunk_scripts := sum_counts chunk_mods in
  print_end ("  Chunk " ++ pretty (i + 1)%nat ++ "/" ++ pretty num_chunks ++ ": "
             ++ pretty (length chunk_mods) ++ " mods, "
             ++ pretty chunk_scripts ++ " scripts...") " " ;;
  run zip_path <- create_chunk_zip chunk_mods (i + 1) output_dir;
  run zip_bytes <- query_fs (fun fs => st_size fs zip_path);
  print ("-> " ++ name zip_path ++ " (" ++ fmt_mb zip_bytes ++ " MB)").

(** [main], the part under [# get path]: [answer] is the line standard
    input holds. *)
Definition get_path (a : args) (answer : option string) : io world Path :=
  match str_truthy (arg_path a) with
  | Some s => io_ret (Path_of_string s)
  | None =>
      run user_input <- input answer "Enter path to mods directory: ";
      let user_input := strip user_input in
      if String.eqb user_input "" then
        print "No path provided." ;; sys_exit 1
      else io_ret (Path_of_string user_input)
  end.

(** [main], the part from [# calculate chunks] on: [cwd] is the current
    directory. *)
Definition split_mods (a : args) (cwd : Path) (mods : list (Path * nat))
  : io world unit :=
  let chunk_size := arg_chunks a in
  run num_chunks <-
    (if (chunk_size =? 0)%Z then io_raise ZeroDivisionError
     else io_ret (ceil_div (Z.of_nat (length mods)) chunk_size));
  print (LF ++ "Splitting into " ++ pretty num_chunks ++ " chunks of ~"
         ++ pretty chunk_size ++ " mods each") ;;
  let output_dir :=
    match str_truthy (arg_output a) with
    | Some s => Path_of_string s
    | None => cwd
    end in
  update_fs (fun fs => mkdir_parents fs output_dir) ;;
  io_for (seq 0 (Z.to_nat num_chunks))
         (write_chunk mods chunk_size num_chunks output_dir) ;;
  print (LF ++ "Done! Created " ++ pretty num_chunks ++ " archives in "
         ++ path_str output_dir).

(** [main] *)
Definition main (a : args) (answer : option string) (cwd : Path) : io world unit :=
  run mods_path <- get_path a answer;
  run found <- query_fs (fun fs => Ok (path_exists fs mods_path));
  if negb found then
    print ("Path does not exist: " ++ path_str mods_path) ;; sys_exit 1
  else
    print ("Scanning: " ++ path_str mods_path) ;;
    run mods <- query_fs (fun fs => get_mods fs mods_path);
    let total_scripts := sum_counts mods in
    print ("Found " ++ pretty (length mods) ++ " mods with "
           ++ pretty total_scripts ++ " script files") ;;
    if negb (truthy mods) then
      print "No mods found." ;; sys_exit 1
    else if arg_list a then
      print (LF ++ "Mods:") ;;
      io_for mods (fun '(mod_path, count) =>
        print ("  " ++ name mod_path ++ ": " ++ pretty count ++ " scripts")) ;;
      sys_exit 0
    else split_mods a cwd mods.

End Zip.

(** The exit status of the process for the way [main] ended: 0 when it
    returns, the argument of [sys.exit], 1 for any other exception. *)
Definition exit_code (r : result unit) : Z :=
  match r with
  | Ok _ => 0
  | Raise (SystemExit code) => code
  | Raise _ => 1
  end.

(** The path the splitter is given, on the command line or at the prompt. *)
Definition given_path (a : args) (answer : option string) : option Path :=
  match str_truthy (arg_path a) with
  | Some s => Some (Path_of_string s)
  | None =>
      match answer with
      | Some line =>
          if String.eqb (strip line) "" then None
          else Some (Path_of_string (strip line))
      | None => None
      end
  end.

(** What is written to standard output before the path is known. *)
Definition prompted (a : args) : list string :=
  match str_truthy (arg_path a) with
  | Some _ => []
  | None => ["Enter path to mods directory: "]
  end.

(** The directory the archives go to. *)
Definition output_dir (a : args) (cwd : Path) : Path :=
  match str_truthy (arg_output a) with
  | Some s => Path_of_string s
  | None => cwd
  end.

(** The name of archive number [chunk_num]. *)
Definition chunk_name (chunk_num : nat) : string :=
  ("mods_chunk_" ++ pad2 chunk_num ++ ".zip")%string.

(** The mods of the loop's turn [i]. *)
Definition chunk_of (mods : list (Path * nat)) (chunk_size : Z) (i : nat)
  : list (Path * nat) :=
  slice mods (Z.of_nat i * chunk_size)
        (Z.min ((Z.of_nat i + 1) * chunk_size) (Z.of_nat (length mods))).

(** What is printed once the mods are found. *)
Definition found_lines (p : Path) (mods : list (Path * nat)) : list string :=
  [(("Scanning: " ++ path_str p) ++ LF)%string;
   (("Found " ++ pretty (length mods) ++ " mods with "
     ++ pretty (sum_counts mods) ++ " script files") ++ LF)%string].

(** The heading [--list] prints. *)
Definition mods_heading : string := ((LF ++ "Mods:") ++ LF)%string.

(** A member of an archive that belongs to the mod at [mod_path]: its name
    lies under [<mod name>/gamedata/scripts/]. *)
Definition member_of (mod_path : Path) (member : string * string) : Prop :=
  startswith (fst member) (name mod_path ++ "/gamedata/scripts/")%string = true.

(** The members of an archive, mod by mod: one group for each mod of the
    chunk, in order, none of them empty. *)
Definition holds_mods (chunk : list (Path * nat))
    (groups : list (list (string * string))) : Prop :=
  Forall2 (fun m group => group <> [] /\ Forall (member_of (fst m)) group)
          chunk groups.

(** The line [--list] prints for a mod. *)
Definition list_line (m : Path * nat) : string :=
  (("  " ++ name (fst m) ++ ": " ++ pretty (snd m) ++ " scripts") ++ LF)%string.

End SplitTest.

(** ** The classifier's checks

    Vocabulary for stating what [discover_mods] registers. *)

Module Checks.

(** [item] is yielded by [dir.iterdir()]. *)
Definition listed (fs : node) (dir item : Path) : Prop :=
  exists items, iterdir fs dir = Ok items /\ In item items.

(** The names the loop over subdirectories passes over. *)
Definition skipped (c : string) : bool :=
  startswith c "." || bool_decide (c ∈ ["__pycache__"; "backup"; "backups"]).

(** A subdirectory the loop looks into. *)
Definition candidate (fs : node) (item : Path) : Prop :=
  is_dir fs item = true /\ skipped (name item) = false.

(** [check fs root key dir]: one of the classifier's checks applies to
    [root], and registers under [key] the scripts collected from [dir]:
    the root named [gamedata]; the root with its own [gamedata/scripts];
    a subdirectory with [gamedata/scripts]; a subdirectory one level deeper. *)
Inductive check (fs : node) (root : Path) : string -> Path -> Prop :=
| check_root :
    name root = "gamedata" ->
    check fs root "(root)" (root ++ ["scripts"])
| check_direct :
    check fs root (name root) (root ++ ["gamedata"; "scripts"])
| check_child item :
    listed fs root item -> candidate fs item ->
    check fs root (name item) (item ++ ["gamedata"; "scripts"])
| check_nested item subitem :
    listed fs root item -> candidate fs item ->
    path_exists fs (item ++ ["gamedata"; "scripts"]) = false ->
    listed fs item subitem -> is_dir fs subitem = true ->
    check fs root (name item ++ "/" ++ name subitem)%string
          (subitem ++ ["gamedata"; "scripts"]).

(** A check contributes an entry when its scripts directory exists and the
    collection from it is not empty. *)
Definition contributes (fs : node) (root : Path) (key : string)
    (scripts : list Path) : Prop :=
  exists dir, check fs root key dir /\ path_exists fs dir = true /\
              scripts = Discovery.find_scripts fs dir /\ scripts <> [].

(** What one registration step does to the dictionary: [None] leaves it
    alone, [Some (key, scripts)] assigns. *)
Definition register (c : option (string * list Path))
    (mods : gmap string (list Path)) : gmap string (list Path) :=
  match c with
  | Some (key, scripts) => <[key := scripts]> mods
  | None => mods
  end.

Definition registered (cs : list (option (string * list Path)))
    (mods : gmap string (list Path)) : gmap string (list Path) :=
  fold_left (fun m c => register c m) cs mods.
Arguments registered : simpl never.

(** The registration a scripts directory gives rise to. *)
Definition entry (fs : node) (key : string) (dir : Path)
  : option (string * list Path) :=
  if path_exists fs dir then
    let scripts := Discovery.find_scripts fs dir in
    if truthy scripts then Some (key, scripts) else None
  else None.

(** The registrations of one iteration of the loop over subdirectories, in
    the order they are made. *)
Definition item_entries (fs : node) (item : Path)
  : result (list (option (string * list Path))) :=
  if negb (is_dir fs item) then Ok []
  else if skipped (name item) then Ok []
  else
    let scripts_dir := item ++ ["gamedata"; "scripts"] in
    if path_exists fs scripts_dir then Ok [entry fs (name item) scripts_dir]
    else
      do subitems <- iterdir fs item;
      Ok (map (fun subitem =>
                 if is_dir fs subitem then
                   entry fs (name item ++ "/" ++ name subitem)%string
                         (subitem ++ ["gamedata"; "scripts"])
                 else None)
              subitems).

(** [for item in items: ...], as the registrations it makes. *)
Fixpoint items_entries (fs : node) (items : list Path)
  : result (list (option (string * list Path))) :=
  match items with
  | [] => Ok []
  | item :: items' =>
      do cs <- item_entries fs item;
      do cs' <- items_entries fs items';
      Ok (cs ++ cs')
  end.

End Checks.

(** ** Example trees *)

Definition demo_scripts : node :=
  Dir true [("b.lua", File true "x");
            ("sub", Dir true [("a.script", File true "yy"); ("z.txt", File true "")]);
            ("a.script", File true "y");
            ("a.lua", Dir true [])].

(** A root named [gamedata] with scripts of its own and a mod folder
    beside them. *)
Definition gamedata_root : node :=
  Dir true
    [("gamedata",
      Dir true
        [("scripts", Dir true [("a.lua", File true "x")]);
         ("modA",
          Dir true
            [("gamedata",
              Dir true [("scripts", Dir true [("b.script", File true "y")])])])])].

(** A mods folder: [good] is a mod, [pack] bundles a nested mod, [empty]
    has a scripts folder without scripts. *)
Definition mods_root : node :=
  Dir true
    [("mods",
      Dir true
        [("gamedata", Dir true [("scripts", Dir true [("m.lua", File true "m")])]);
         ("good",
          Dir true
            [("gamedata",
              Dir true [("scripts", Dir true [("a.script", File true "aa")])])]);
         ("pack",
          Dir true
            [("addon",
              Dir true
                [("gamedata",
                  Dir true [("scripts", Dir true [("b.lua", File true "b")])])])]);
         ("empty",
          Dir true [("gamedata", Dir true [("scripts", Dir true [])])])])].

(** The same kind of folder, with one subdirectory that cannot be listed. *)
Definition locked_root : node :=
  Dir true
    [("mods",
      Dir true
        [("good",
          Dir true
            [("gamedata",
              Dir true [("scripts", Dir true [("a.script", File true "aa")])])]);
         ("locked", Dir false [])])].

(** A mod folder whose [meta.ini] gives every key twice. *)
Definition twice_meta : string :=
  "name=First" ++ LF ++ "version=1.0" ++ LF ++ "author=A" ++ LF ++
  "name=Second" ++ LF ++ "version=2.0" ++ LF ++ "author=B" ++ LF.

Definition twice_root : node :=
  Dir true [("mod", Dir true [("meta.ini", File true twice_meta)])].

(** A mod folder whose metadata files cannot be read. *)
Definition unread_root : node :=
  Dir true [("mod", Dir true [("meta.ini", File false "name=Hidden");
                              ("modinfo.txt", Dir true [])])].

(** A mods folder with one mod and two scripts, one in a subfolder. *)
Definition export_root : node :=
  Dir true
    [("m",
      Dir true
        [("A",
          Dir true
            [("gamedata",
              Dir true
                [("scripts",
                  Dir true
                    [("x.script", File true "a");
                     ("lib", Dir true [("y.script", File true "hello")])])])])])].

(** A mods folder exported into its own scripts folder: the destination
    of the first script is the second script. *)
Definition overlap_root : node :=
  Dir true
    [("m",
      Dir true
        [("A",
          Dir true
            [("gamedata",
              Dir true
                [("scripts",
                  Dir true
                    [("x.script", File true "a");
                     ("A",
                      Dir true
                        [("gamedata",
                          Dir true
                            [("scripts",
                              Dir true [("x.script", File true "hello")])])])])])])])].

(** A mods folder without any [.script] file. *)
Definition lua_only_root : node :=
  Dir true
    [("m",
      Dir true
        [("A",
          Dir true
            [("gamedata",
              Dir true [("scripts", Dir true [("x.lua", File true "a")])])]);
         ("readme.txt", File true "")])].

(** A mods folder for the splitter: [n] mods [mod0], [mod1], ..., each with
    one script; and the folder with five of them, one with a backup file. *)
Definition mod_folder (i : nat) : string * node :=
  (("mod" ++ pretty i)%string,
   Dir true [("gamedata",
              Dir true [("scripts", Dir true [("s.script", File true "x")])])]).

Definition many_mods (n : nat) : node :=
  Dir true [("mods", Dir true (map mod_folder (seq 0 n)))].

Definition five_mods : node :=
  Dir true
    [("mods",
      Dir true
        (map mod_folder (seq 0 4) ++
         [("mod4",
           Dir true
             [("gamedata",
               Dir true
                 [("scripts",
                   Dir true [("a.script", File true "aa");
                             ("a.bak", File true "old");
                             ("b.lua", File true "b")])])])]))].

(** A stand-in for the archive format: the members, one per line. *)
Definition listing_encode (members : list (string * string)) : string :=
  String.concat LF (map (fun m => (fst m ++ "=" ++ snd m)%string) members).

Definition split_args (chunk_size : Z) (list_only : bool) : SplitTest.args :=
  SplitTest.mk_args (Some "mods") chunk_size (Some "out") list_only.

(** ** Further definitions

    Vocabulary and example trees for the properties beyond the claims. *)

(** [c in s] for a character [c] *)
Fixpoint contains (s : string) (c : ascii) : bool :=
  match s with
  | EmptyString => false
  | String a s' => Ascii.eqb a c || contains s' c
  end.

(** A mod folder whose [modinfo.txt] names it and whose [meta.ini] gives a
    name too. *)
Definition named_root : node :=
  Dir true
    [("mod",
      Dir true [("meta.ini", File true ("name=Ini" ++ LF ++ "version=3" ++ LF));
                ("modinfo.txt", File true ("  Shown name " ++ LF ++ "more"))])].

(** A single mod whose folder of the same name holds scripts too. *)
Definition same_name_root : node :=
  Dir true
    [("pack",
      Dir true
        [("gamedata", Dir true [("scripts", Dir true [("r.lua", File true "r")])]);
         ("pack",
          Dir true
            [("gamedata",
              Dir true [("scripts", Dir true [("c.lua", File true "c")])])])])].

(** What the copy loop keeps true of the output directory when it starts
    from an empty one: whatever lies below it stands at the relative path
    of a script that was found, as its copy, or on the way to one, as a
    directory. *)
Definition mirrors (fs0 : node) (mods_path output_path : Path)
    (scripts : list (string * Path * Path)) (fs : node) : Prop :=
  forall r n, r <> [] -> resolve fs (output_path ++ r) = Some n ->
    exists m x data,
      In (m, mods_path ++ r ++ x, r ++ x) scripts /\
      resolve fs0 (mods_path ++ r ++ x) = Some (File true data) /\
      (x = [] -> n = File true data) /\
      (x <> [] -> exists l es, n = Dir l es).

(** The member [zf.write] adds for [file], an entry of the scripts folder
    of the mod at [mod_path]. *)
Definition member (fs : node) (mod_path file : Path) : string * string :=
  let arc_path := (name mod_path ++ "/gamedata/scripts/" ++ name file)%string in
  match resolve fs file with
  | Some (File _ data) => (arc_path, data)
  | _ => ((arc_path ++ "/")%string, "")
  end.

(** The entries of a mod that go into an archive, in the order they are
    written: those named [*.script], then those named [*.bak]. *)
Definition packed (fs : node) (mod_path : Path) : list Path :=
  glob_here fs (mod_path ++ ["gamedata"; "scripts"]) ".script" ++
  glob_here fs (mod_path ++ ["gamedata"; "scripts"]) ".bak".

(** The members of the archive for [mods]. *)
Definition members_of (fs : node) (mods : list (Path * nat)) : list (string * string) :=
  flat_map (fun m => map (member fs (fst m)) (packed fs (fst m))) mods.

(** A mods folder with a mod whose script cannot be read. *)
Definition unreadable_mods : node :=
  Dir true
    [("mods",
      Dir true
        [mod_folder 0;
         ("mod1",
          Dir true
            [("gamedata",
              Dir true
                [("scripts",
                  Dir true [("a.script", File true "aa");
                            ("b.script", File false "secret")])])])])].

(** What [main] prints before and after the loop over the chunks. *)
Definition splitting_line (num_chunks chunk_size : Z) : string :=
  ((LF ++ "Splitting into " ++ pretty num_chunks ++ " chunks of ~"
    ++ pretty chunk_size ++ " mods each") ++ LF)%string.

Definition done_line (num_chunks : Z) (output_dir : Path) : string :=
  ((LF ++ "Done! Created " ++ pretty num_chunks ++ " archives in "
    ++ path_str output_dir) ++ LF)%string.

(** ** tools/script_extractor.py: [format_size] *)

(** [f"{x:.1f}"] for the number [num / den]: the nearest tenth, a tie to
    the even one. *)
Definition fmt_1f (num den : N) : string :=
  let n := (num * 10)%N in
  let q := (n / den)%N in
  let r := (n mod den)%N in
  let t := if (den <? 2 * r)%N || ((2 * r =? den)%N && N.odd q)
           then (q + 1)%N else q in
  (pretty (t / 10)%N ++ "." ++ pretty (t mod 10)%N)%string.

(** The loop of [format_size]: after [k] divisions by 1024 the variable
    holds [size_bytes / den] with [den = 1024^k].  Dividing by a power of
    two is exact in binary floating point, so for a size below 2^53 the
    number compared and formatted is this quotient. *)
Fixpoint format_size_loop (units : list string) (size_bytes den : N) : string :=
  match units with
  | [] => (fmt_1f size_bytes den ++ " TB")%string
  | unit :: units' =>
      if (size_bytes <? 1024 * den)%N
      then (fmt_1f size_bytes den ++ " " ++ unit)%string
      else format_size_loop units' size_bytes (1024 * den)
  end.

(** [format_size] *)
Definition format_size (size_bytes : N) : string :=
  format_size_loop ["B"; "KB"; "MB"; "GB"] size_bytes 1.

(** ** Search permission

    In the tree model above every directory can be searched: looking a name
    up never fails for want of permission, so [path_exists] and [is_dir] are
    total.  [get_mod_info] calls [exists()] outside its [try] blocks, and
    [exists()] raises [PermissionError] when a directory on the way to the
    path may not be searched.  The model below adds that permission:
    [locked] lists the directories without it. *)

Module Access.

(** [os.stat(p)], as far as [Path.exists] looks at it.  The path is walked
    from [n], which stands at [here].  [Ok None] is the outcome [exists]
    takes for absence (no entry of that name, or a regular file on the
    way); looking a name up in a directory that may not be searched raises
    [PermissionError], which [exists] passes on. *)
Fixpoint stat_from (locked : list Path) (here : Path) (n : node) (p : Path)
  : result (option node) :=
  match p with
  | [] => Ok (Some n)
  | c :: p' =>
      match n with
      | File _ _ => Ok None
      | Dir _ es =>
          if bool_decide (here ∈ locked) then Raise PermissionError
          else
            match entry_lookup c es with
            | Some ch => stat_from locked (here ++ [c]) ch p'
            | None => Ok None
            end
      end
  end.

Definition stat (locked : list Path) (fs : node) (p : Path) : result (option node) :=
  stat_from locked [] fs p.

(** [p.exists()] *)
Definition path_exists (locked : list Path) (fs : node) (p : Path) : result bool :=
  do found <- stat locked fs p;
  Ok (match found with Some _ => true | None => false end).

(** [p.read_text(encoding='utf-8', errors='ignore')] *)
Definition read_text (locked : list Path) (fs : node) (p : Path) : result string :=
  do found <- stat locked fs p;
  match found with
  | None => Raise FileNotFoundError
  | Some (Dir _ _) => Raise IsADirectoryError
  | Some (File false _) => Raise PermissionError
  | Some (File true data) => Ok data
  end.

(** [get_mod_info], with the two calls of [exists()] as they stand in the
    source: before, and outside, the [try] blocks. *)
Definition get_mod_info (locked : list Path) (fs : node) (mod_path : Path)
  : result (gmap string string) :=
  let info : gmap string string := {["name" := name mod_path]} in
  let meta_ini := mod_path ++ ["meta.ini"] in
  do found <- path_exists locked fs meta_ini;
  do info <-
    (if found then
       try_except_OSError
         (do content <- read_text locked fs meta_ini;
          for_each Discovery.meta_line (splitlines content) info)
         info
     else Ok info);
  let modinfo := mod_path ++ ["modinfo.txt"] in
  do found <- path_exists locked fs modinfo;
  do info <-
    (if found then
       try_except_OSError
         (do content <- read_text locked fs modinfo;
          let lines := splitlines content in
          match lines with
          | line0 :: _ => Ok (<["name" := strip line0]> info)
          | [] => Ok info
          end)
         info
     else Ok info);
  Ok info.

End Access.

(** ** The copy loop, turn by turn *)

(** The outcome of one turn of the copy loop of [extract_scripts] in the
    tree [fs]: the exception, if making the parent directories or copying
    failed, and the tree the turn leaves. *)
Definition copy_outcome (output_path : Path) (script : string * Path * Path)
    (fs : node) : option exn * node :=
  let '(_, src_path, rel_path) := script in
  let dst_path := output_path ++ rel_path in
  match mkdir_parents fs (parent dst_path) with
  | Raise e => (Some e, fs)
  | Ok fs1 =>
      match copy2 fs1 src_path dst_path with
      | Raise e => (Some e, fs1)
      | Ok fs2 => (None, fs2)
      end
  end.

(** The failures of copying [scripts] one after the other, each script in
    the tree its predecessors left: the relative path and the exception of
    every copy that failed, in the order of the scripts; and the tree at
    the end. *)
Fixpoint copy_failures (output_path : Path) (scripts : list (string * Path * Path))
    (fs : node) : list (Path * exn) * node :=
  match scripts with
  | [] => ([], fs)
  | script :: scripts' =>
      let '(failure, fs1) := copy_outcome output_path script fs in
      let '(failures, fs') := copy_failures output_path scripts' fs1 in
      (match failure with
       | Some e => (snd script, e) :: failures
       | None => failures
       end, fs')
  end.

(** A mods folder whose first script cannot be read. *)
Definition partly_unreadable_root : node :=
  Dir true
    [("m",
      Dir true
        [("A",
          Dir true
            [("gamedata",
              Dir true
                [("scripts",
                  Dir true [("a.script", File false "secret");
                            ("b.script", File true "ok")])])])])].

(** ** Two digits *)

(** The decimal digit [d], for [d] below ten. *)
Definition digit (d : nat) : ascii := ascii_of_nat (48 + d).

(** A number below 100 on two digits, the first a zero below ten. *)
Definition two_digits (n : nat) : string :=
  String (digit (n / 10)) (String (digit (n mod 10)) "").

(** * Properties *)

(** ** Paths are totally ordered *)

Lemma string_compare_eq (x y : string) : String.compare x y = Eq <-> x = y.
Proof.
  split; [apply String.compare_eq_iff |]. intros <-.
  induction x as [| a x IH]; simpl; [reflexivity |].
  unfold Ascii.compare. now rewrite N.compare_refl.
Qed.

Lemma string_compare_lt_trans (x y z : string) :
  String.compare x y = Lt -> String.compare y z = Lt -> String.compare x z = Lt.
Proof.
  intros Hxy Hyz.
  assert (Hle : String.le x z).
  { transitivity y; unfold String.le, String.leb; [rewrite Hxy | rewrite Hyz]; exact I. }
  unfold String.le, String.leb in Hle.
  destruct (String.compare x z) eqn:Hxz; [| reflexivity | destruct Hle].
  apply String.compare_eq_iff in Hxz. subst z.
  rewrite String.compare_antisym, Hxy in Hyz. discriminate.
Qed.

Lemma string_compare_trans (x y z : string) (c : comparison) :
  String.compare x y = c -> String.compare y z = c -> String.compare x z = c.
Proof.
  destruct c; intros Hxy Hyz.
  - apply string_compare_eq in Hxy, Hyz. subst. now apply string_compare_eq.
  - eauto using string_compare_lt_trans.
  - rewrite String.compare_antisym in Hxy, Hyz |- *.
    apply (f_equal CompOpp) in Hxy, Hyz. rewrite CompOpp_involutive in Hxy, Hyz.
    simpl in Hxy, Hyz. now rewrite (string_compare_lt_trans _ _ _ Hyz Hxy).
Qed.

Lemma path_cmp_eq (p q : Path) : path_cmp p q = Eq <-> p = q.
Proof. apply list_compare_refl, string_compare_eq. Qed.

Lemma path_cmp_antisym (p q : Path) : path_cmp q p = CompOpp (path_cmp p q).
Proof.
  apply list_compare_antisym; [apply string_compare_eq |].
  intros x y. apply String.compare_antisym.
Qed.

Lemma path_cmp_trans (p q r : Path) (c : comparison) :
  path_cmp p q = c -> path_cmp q r = c -> path_cmp p r = c.
Proof.
  apply list_compare_trans; [apply string_compare_eq | |].
  - intros x y z c'. apply string_compare_trans.
  - intros x y. apply String.compare_antisym.
Qed.

Lemma path_le_refl (p : Path) : path_le p p.
Proof. unfold path_le. now rewrite (proj2 (path_cmp_eq p p) eq_refl). Qed.

Lemma path_le_trans (p q r : Path) : path_le p q -> path_le q r -> path_le p r.
Proof.
  unfold path_le. intros Hpq Hqr Hpr.
  destruct (path_cmp p q) eqn:E1; [| | congruence].
  - apply path_cmp_eq in E1. subst q. congruence.
  - destruct (path_cmp q r) eqn:E2; [| | congruence].
    + apply path_cmp_eq in E2. subst r. congruence.
    + rewrite (path_cmp_trans _ _ _ _ E1 E2) in Hpr. discriminate.
Qed.

Lemma path_le_total (p q : Path) : path_le p q \/ path_le q p.
Proof.
  unfold path_le. rewrite (path_cmp_antisym p q).
  destruct (path_cmp p q); simpl; [left | left | right]; discriminate.
Qed.

Lemma path_le_antisym (p q : Path) : path_le p q -> path_le q p -> p = q.
Proof.
  unfold path_le. rewrite (path_cmp_antisym p q).
  destruct (path_cmp p q) eqn:E; simpl; intros H1 H2; try congruence.
  now apply path_cmp_eq.
Qed.

Lemma path_ltb_false (p q : Path) : path_ltb p q = false -> path_le q p.
Proof.
  unfold path_ltb, path_le. rewrite (path_cmp_antisym p q).
  destruct (path_cmp p q); simpl; congruence.
Qed.

Lemma path_ltb_true (p q : Path) : path_ltb p q = true -> path_le p q.
Proof. unfold path_ltb, path_le. destruct (path_cmp p q); congruence. Qed.

(** ** [sorted] sorts *)

Lemma insert_sorted_perm (x : Path) (l : list Path) :
  Permutation (x :: l) (insert_sorted x l).
Proof.
  induction l as [| y l IH]; simpl; [reflexivity |].
  destruct (path_ltb x y); [reflexivity |].
  rewrite perm_swap. now apply perm_skip.
Qed.

Lemma insert_sorted_sorted (x : Path) (l : list Path) :
  StronglySorted path_le l -> StronglySorted path_le (insert_sorted x l).
Proof.
  induction 1 as [| y l Hs IH Hall]; simpl.
  - repeat constructor.
  - destruct (path_ltb x y) eqn:E.
    + apply path_ltb_true in E. constructor; [now constructor |].
      constructor; [exact E |].
      eapply List.Forall_impl; [| exact Hall]. intros z Hz. eauto using path_le_trans.
    + apply path_ltb_false in E. constructor; [exact IH |].
      eapply Permutation_Forall; [apply insert_sorted_perm |].
      now constructor.
Qed.

Lemma sorted_spec_from (l acc : list Path) :
  StronglySorted path_le acc ->
  let r := fold_left (fun acc x => insert_sorted x acc) l acc in
  Permutation (acc ++ l) r /\ StronglySorted path_le r.
Proof.
  revert acc. induction l as [| x l IH]; intros acc Hacc; simpl.
  - rewrite app_nil_r. now split.
  - destruct (IH (insert_sorted x acc) (insert_sorted_sorted x acc Hacc)) as [Hp Hs].
    split; [| exact Hs].
    rewrite <- Hp, <- insert_sorted_perm. simpl.
    symmetry. apply Permutation_middle.
Qed.

Lemma sorted_perm (l : list Path) : Permutation l (sorted l).
Proof. apply (sorted_spec_from l []). constructor. Qed.

Lemma sorted_sorted (l : list Path) : StronglySorted path_le (sorted l).
Proof. apply (sorted_spec_from l []). constructor. Qed.

(** ** The file-system tree *)

Lemma node_ind' (P : node -> Prop) :
  (forall r d, P (File r d)) ->
  (forall l es, Forall (fun e => P (snd e)) es -> P (Dir l es)) ->
  forall n, P n.
Proof.
  intros Hf Hd. fix IH 1. intros [r d | l es]; [apply Hf |].
  apply Hd. induction es as [| [c ch] es IHes]; constructor; [apply IH | apply IHes].
Qed.

Lemma wf_Dir (l : bool) (es : list (string * node)) :
  wf (Dir l es) <-> List.NoDup (map fst es) /\ Forall (fun e => wf (snd e)) es.
Proof.
  simpl. apply and_iff_compat_l.
  induction es as [| [c ch] es IH]; simpl.
  - split; [constructor | trivial].
  - rewrite IH. split.
    + intros [H1 H2]. now constructor.
    + intros H. inversion H; subst. now split.
Qed.

Lemma wfb_wf (n : node) : wfb n = true -> wf n.
Proof.
  induction n as [r d | l es IH] using node_ind'; [intros _; exact I |].
  intros H. apply wf_Dir. simpl in H. apply andb_true_iff in H as [H1 H2].
  apply bool_decide_eq_true, NoDup_ListNoDup in H1. split; [exact H1 |].
  clear H1. induction IH as [| [c ch] es Hch _ IHes]; constructor.
  - apply Hch. now apply andb_true_iff in H2.
  - apply IHes. now apply andb_true_iff in H2.
Qed.

Lemma entry_lookup_In (c : string) (ch : node) (es : list (string * node)) :
  entry_lookup c es = Some ch -> In (c, ch) es.
Proof.
  induction es as [| [c' n] es IH]; simpl; [discriminate |].
  destruct (String.eqb_spec c c') as [-> | Hne].
  - intros [= ->]. now left.
  - intros H. right. now apply IH.
Qed.

Lemma In_entry_lookup (c : string) (ch : node) (es : list (string * node)) :
  List.NoDup (map fst es) -> In (c, ch) es -> entry_lookup c es = Some ch.
Proof.
  induction es as [| [c' n] es IH]; simpl; [contradiction |].
  intros Hnd Hin. apply List.NoDup_cons_iff in Hnd as [Hc' Hnd].
  destruct (String.eqb_spec c c') as [-> | Hne].
  - destruct Hin as [[= ->] | Hin]; [reflexivity |].
    exfalso. apply Hc'. apply in_map_iff. now exists (c', ch).
  - destruct Hin as [[= -> ->] | Hin]; [congruence | now apply IH].
Qed.

Lemma wf_resolve (fs : node) (p : Path) (n : node) :
  wf fs -> resolve fs p = Some n -> wf n.
Proof.
  revert fs. induction p as [| c p IH]; intros fs Hwf; simpl.
  - now intros [= <-].
  - destruct fs as [r d | l es]; [discriminate |].
    destruct (entry_lookup c es) as [ch |] eqn:E; [| discriminate].
    apply IH. apply wf_Dir in Hwf as [_ Hall].
    apply entry_lookup_In in E.
    rewrite List.Forall_forall in Hall. apply (Hall _ E).
Qed.

Lemma name_snoc (p : Path) (c : string) : name (p ++ [c]) = c.
Proof. unfold name. apply last_last. Qed.

Lemma name_cons (c : string) (rel : Path) : rel <> [] -> name (c :: rel) = name rel.
Proof. unfold name. destruct rel; [congruence | reflexivity]. Qed.

Lemma name_app (p rel : Path) : rel <> [] -> name (p ++ rel) = name rel.
Proof.
  intros H. induction p as [| c p IH]; [reflexivity |].
  simpl. rewrite name_cons; [exact IH |]. destruct p; simpl; [exact H | discriminate].
Qed.

Lemma visible_nonempty (n : node) (rel : Path) : visible n rel -> rel <> [].
Proof. destruct 1; discriminate. Qed.

(** ** Globbing *)

Lemma in_matching (suffix : string) (here : Path) (es : list (string * node)) (p : Path) :
  In p (matching suffix here es) <->
  exists c ch, In (c, ch) es /\ endswith c suffix = true /\ p = here ++ [c].
Proof.
  unfold matching. rewrite in_map_iff. split.
  - intros [[c ch] [<- H]]. apply filter_In in H as [H1 H2]. now exists c, ch.
  - intros (c & ch & H1 & H2 & ->). exists (c, ch). split; [reflexivity |].
    apply filter_In. now split.
Qed.

Lemma NoDup_matching (suffix : string) (here : Path) (es : list (string * node)) :
  List.NoDup (map fst es) -> List.NoDup (matching suffix here es).
Proof.
  induction es as [| [c ch] es IH]; simpl; intros Hnd; [constructor |].
  apply List.NoDup_cons_iff in Hnd as [Hc Hnd].
  unfold matching in *. simpl. destruct (endswith c suffix); [| now apply IH].
  simpl. constructor; [| now apply IH].
  intros Hin. apply (in_matching suffix here es) in Hin as (c' & ch' & Hin & _ & Heq).
  apply app_inj_tail in Heq as [_ <-].
  apply Hc. apply in_map_iff. now exists (c, ch').
Qed.

Lemma walk_Dir (suffix : string) (here : Path) (es : list (string * node)) :
  walk suffix here (Dir true es) =
  matching suffix here es ++
  flat_map (fun e => walk suffix (here ++ [fst e]) (snd e)) es.
Proof.
  simpl. f_equal. induction es as [| [c ch] es IH]; simpl; [reflexivity |].
  now rewrite IH.
Qed.

Lemma in_walk (suffix : string) (n : node) : forall (here p : Path),
  In p (walk suffix here n) <->
  exists rel, visible n rel /\ p = here ++ rel /\ endswith (name rel) suffix = true.
Proof.
  induction n as [r d | l es IH] using node_ind'; intros here p.
  - simpl. split; [contradiction |]. intros (rel & H & _). inversion H.
  - destruct l; [| simpl; split; [contradiction |]; intros (rel & H & _); inversion H].
    rewrite walk_Dir, in_app_iff, in_matching, in_flat_map.
    rewrite List.Forall_forall in IH. split.
    + intros [(c & ch & Hin & Hs & ->) | ([c ch] & Hin & Hp)].
      * exists [c]. split; [econstructor; eassumption |]. now split.
      * apply (IH _ Hin) in Hp as (rel & Hv & -> & Hs). simpl in *.
        exists (c :: rel). split; [econstructor; eassumption |].
        rewrite <- app_assoc. split; [reflexivity |].
        rewrite name_cons; eauto using visible_nonempty.
    + intros (rel & Hv & -> & Hs).
      inversion Hv as [es' c ch Hin | es' c ch rel' Hin Hv']; subst.
      * left. now exists c, ch.
      * right. exists (c, ch). split; [assumption |].
        apply (IH _ Hin). exists rel'. simpl. rewrite <- app_assoc.
        split; [assumption |]. split; [reflexivity |].
        rewrite name_cons in Hs; eauto using visible_nonempty.
Qed.

Lemma endswith_lua_script (c : string) :
  endswith c ".lua" = true -> endswith c ".script" = true -> False.
Proof.
  unfold endswith. generalize (String.rev c). intros r.
  destruct r as [| a r]; [discriminate |]. cbn.
  destruct (Ascii.eqb_spec a "a") as [-> |]; [| discriminate].
  intros _. discriminate.
Qed.

(** Appending what is not yet in the list keeps it free of duplicates. *)
Lemma extend_new_spec (l acc : list Path) :
  let r := fold_left (fun scripts f =>
                        if bool_decide (f ∈ scripts) then scripts
                        else scripts ++ [f]) l acc in
  (List.NoDup acc -> List.NoDup r) /\ (forall p, In p r <-> In p acc \/ In p l).
Proof.
  revert acc. induction l as [| f l IH]; intros acc; simpl.
  - split; [trivial | intros p; tauto].
  - destruct (IH (if bool_decide (f ∈ acc) then acc else acc ++ [f])) as [Hnd Hin].
    case_bool_decide as Hf; rewrite list_elem_of_In in Hf.
    + split; [exact Hnd |]. intros p. rewrite Hin.
      split; [tauto |]. intros [H | [<- | H]]; tauto.
    + split.
      * intros Hacc. apply Hnd. apply NoDup_ListNoDup, NoDup_app.
        repeat split; [now apply NoDup_ListNoDup | | apply NoDup_singleton].
        intros x Hx ->%list_elem_of_singleton. now apply list_elem_of_In in Hx.
      * intros p. rewrite Hin, in_app_iff. simpl. tauto.
Qed.

(** A duplicate-free list sorted by a total order is determined by its
    elements. *)
Lemma sorted_unique (l1 l2 : list Path) :
  StronglySorted path_le l1 -> StronglySorted path_le l2 ->
  List.NoDup l1 -> List.NoDup l2 ->
  (forall p, In p l1 <-> In p l2) -> l1 = l2.
Proof.
  intros Hs1. revert l2. induction Hs1 as [| x l1 Hs1 IH Hx]; intros l2 Hs2 Hn1 Hn2 Heq.
  - destruct l2 as [| y l2]; [reflexivity |]. destruct (proj2 (Heq y)). now left.
  - destruct Hs2 as [| y l2 Hs2 Hy].
    { destruct (proj1 (Heq x)). now left. }
    apply List.NoDup_cons_iff in Hn1 as [Hx1 Hn1], Hn2 as [Hy2 Hn2].
    rewrite List.Forall_forall in Hx, Hy.
    assert (x = y) as <-.
    { destruct (proj1 (Heq x) (or_introl eq_refl)) as [-> | Hxin]; [reflexivity |].
      destruct (proj2 (Heq y) (or_introl eq_refl)) as [-> | Hyin]; [reflexivity |].
      apply path_le_antisym; auto. }
    f_equal. apply IH; try assumption.
    intros p. split; intros Hp.
    + destruct (proj1 (Heq p) (or_intror Hp)) as [<- | H]; [contradiction | exact H].
    + destruct (proj2 (Heq p) (or_intror Hp)) as [<- | H]; [contradiction | exact H].
Qed.

Lemma glob_here_rec (fs : node) (dir : Path) (suffix : string) (p : Path) :
  In p (glob_here fs dir suffix) -> In p (glob_rec fs dir suffix).
Proof.
  unfold glob_here, glob_rec. destruct (resolve fs dir) as [[r d | [] es] |]; simpl; try tauto.
  intros H. apply in_app_iff. left. exact H.
Qed.

Lemma NoDup_glob_here (fs : node) (dir : Path) (suffix : string) :
  wf fs -> List.NoDup (glob_here fs dir suffix).
Proof.
  intros Hwf. unfold glob_here.
  destruct (resolve fs dir) as [n |] eqn:E; [| constructor].
  apply (wf_resolve _ _ _ Hwf) in E.
  destruct n as [r d | [] es]; simpl; try constructor.
  apply NoDup_matching. now apply wf_Dir in E.
Qed.

Lemma glob_here_name (fs : node) (dir : Path) (suffix : string) (p : Path) :
  In p (glob_here fs dir suffix) -> endswith (name p) suffix = true.
Proof.
  unfold glob_here. destruct (resolve fs dir) as [n |]; [| contradiction].
  intros (c & ch & _ & Hc & ->)%in_matching. now rewrite name_snoc.
Qed.

Lemma in_glob_rec (fs : node) (dir : Path) (suffix : string) (p : Path) :
  In p (glob_rec fs dir suffix) <->
  exists n rel, resolve fs dir = Some n /\ visible n rel /\
                p = dir ++ rel /\ endswith (name rel) suffix = true.
Proof.
  unfold glob_rec. destruct (resolve fs dir) as [n |].
  - rewrite in_walk. split.
    + intros (rel & H). now exists n, rel.
    + intros (n' & rel & [= <-] & H). now exists rel.
  - split; [contradiction |]. intros (n & rel & [=] & _).
Qed.

(** ** C1: what [find_scripts] returns *)

(** C1 (as amended).  On a tree whose directories list every name once,
    [find_scripts] returns a list without duplicates, sorted by path in the
    total order [path_le], whose elements are exactly the entries of the
    directory, regular files and directories alike, whose name ends in
    [.lua] or [.script], at the top level or below.  The list is the only
    one with these properties, so it does not depend on the order in which
    directories are listed. *)
Theorem find_scripts_collects (fs : node) (scripts_dir : Path) :
  wf fs ->
  let scripts := Discovery.find_scripts fs scripts_dir in
  List.NoDup scripts /\
  StronglySorted path_le scripts /\
  (forall p, In p scripts <-> Discovery.is_script fs scripts_dir p) /\
  (forall l, List.NoDup l -> StronglySorted path_le l ->
             (forall p, In p l <-> Discovery.is_script fs scripts_dir p) ->
             l = scripts).
Proof.
  intros Hwf scripts.
  assert (Hmem : forall p, In p scripts <-> Discovery.is_script fs scripts_dir p).
  { intros p. unfold scripts, Discovery.find_scripts.
    rewrite <- (Permutation_in' eq_refl (sorted_perm _)). simpl.
    rewrite (proj2 (extend_new_spec _ _)), (proj2 (extend_new_spec _ _)).
    rewrite in_app_iff, !in_glob_rec. unfold Discovery.is_script, Discovery.recognized.
    split.
    - intros [[[H | H] | H] | H].
      + apply glob_here_rec, in_glob_rec in H as (n & rel & ? & ? & ? & ?).
        exists n, rel. tauto.
      + apply glob_here_rec, in_glob_rec in H as (n & rel & ? & ? & ? & ?).
        exists n, rel. tauto.
      + destruct H as (n & rel & ? & ? & ? & ?). exists n, rel. tauto.
      + destruct H as (n & rel & ? & ? & ? & ?). exists n, rel. tauto.
    - intros (n & rel & ? & ? & ? & [H | H]).
      + left. right. now exists n, rel.
      + right. now exists n, rel. }
  assert (Hnd : List.NoDup scripts).
  { unfold scripts, Discovery.find_scripts.
    eapply Permutation_NoDup; [apply sorted_perm |]. simpl.
    apply extend_new_spec, extend_new_spec.
    apply NoDup_ListNoDup, NoDup_app. repeat split.
    - apply NoDup_ListNoDup, NoDup_glob_here, Hwf.
    - intros p H1%list_elem_of_In%glob_here_name H2%list_elem_of_In%glob_here_name.
      eapply endswith_lua_script; eassumption.
    - apply NoDup_ListNoDup, NoDup_glob_here, Hwf. }
  assert (Hs : StronglySorted path_le scripts) by apply sorted_sorted.
  repeat split; try assumption; try apply Hmem.
  intros l Hl1 Hl2 Hl3. apply sorted_unique; try assumption.
  intros p. now rewrite Hl3, Hmem.
Qed.

Lemma find_scripts_collects_witness :
  wf (Dir true [("s", demo_scripts)]) /\
  let fs := Dir true [("s", demo_scripts)] in
  let scripts := Discovery.find_scripts fs ["s"] in
  List.NoDup scripts /\
  StronglySorted path_le scripts /\
  (forall p, In p scripts <-> Discovery.is_script fs ["s"] p) /\
  (forall l, List.NoDup l -> StronglySorted path_le l ->
             (forall p, In p l <-> Discovery.is_script fs ["s"] p) ->
             l = scripts).
Proof.
  split; [apply wfb_wf; reflexivity |].
  apply (find_scripts_collects (Dir true [("s", demo_scripts)]) ["s"]).
  apply wfb_wf. reflexivity.
Defined.

(** The claim as stated fails: the entry [a.lua] of the scripts folder is a
    directory, not a file, and [find_scripts] returns it among the
    scripts. *)
Lemma find_scripts_returns_directory :
  let fs := Dir true [("s", demo_scripts)] in
  is_dir fs ["s"; "a.lua"] = true /\
  Discovery.find_scripts fs ["s"] =
    [["s"; "a.lua"]; ["s"; "a.script"]; ["s"; "b.lua"]; ["s"; "sub"; "a.script"]].
Proof. split; reflexivity. Qed.

(** ** [discover_mods] as a sequence of registrations *)

Import Checks.

Lemma fold_left_map {A B C} (f : A -> B -> A) (g : C -> B) (l : list C) (a : A) :
  fold_left f (map g l) a = fold_left (fun a x => f a (g x)) l a.
Proof. revert a. induction l as [| x l IH]; intros a; simpl; [reflexivity | apply IH]. Qed.

Lemma fold_left_ext {A B} (f g : A -> B -> A) (l : list B) (a : A) :
  (forall a x, f a x = g a x) -> fold_left f l a = fold_left g l a.
Proof.
  intros H. revert a. induction l as [| x l IH]; intros a; simpl; [reflexivity |].
  now rewrite H, IH.
Qed.

Lemma registered_app cs1 cs2 mods :
  registered (cs1 ++ cs2) mods = registered cs2 (registered cs1 mods).
Proof. apply fold_left_app. Qed.

Lemma scan_item_entries (fs : node) (mods : gmap string (list Path)) (item : Path) :
  Discovery.scan_item fs mods item =
  do cs <- item_entries fs item; Ok (registered cs mods).
Proof.
  unfold Discovery.scan_item, item_entries.
  change (startswith (name item) "." || _) with (skipped (name item)).
  destruct (is_dir fs item); cbn [negb bind]; [| reflexivity].
  destruct (skipped (name item)); cbn [bind]; [reflexivity |].
  destruct (path_exists fs (item ++ _)) eqn:E; cbn [bind].
  - unfold registered, entry. cbn [fold_left register]. rewrite E.
    now destruct (truthy _).
  - destruct (iterdir fs item) as [subitems | e]; cbn [bind]; [| reflexivity].
    f_equal. unfold registered. rewrite fold_left_map.
    apply fold_left_ext. intros m subitem. unfold entry.
    destruct (is_dir fs subitem); [| reflexivity].
    destruct (path_exists fs (subitem ++ _)); [| reflexivity].
    now destruct (truthy _).
Qed.

Lemma for_each_scan_item (fs : node) (items : list Path) (mods : gmap string (list Path)) :
  for_each (Discovery.scan_item fs) items mods =
  do cs <- items_entries fs items; Ok (registered cs mods).
Proof.
  revert mods. induction items as [| item items IH]; intros mods; simpl; [reflexivity |].
  rewrite scan_item_entries.
  destruct (item_entries fs item) as [cs | e]; simpl; [| reflexivity].
  rewrite IH. destruct (items_entries fs items) as [cs' | e]; simpl; [| reflexivity].
  now rewrite registered_app.
Qed.

Lemma discover_mods_entries (fs : node) (root : Path) :
  name root <> "gamedata" ->
  Discovery.discover_mods fs root =
  do items <- iterdir fs root;
  do cs <- items_entries fs items;
  Ok (registered (entry fs (name root) (root ++ ["gamedata"; "scripts"]) :: cs) ∅).
Proof.
  intros Hname. unfold Discovery.discover_mods.
  destruct (String.eqb_spec (name root) "gamedata") as [? | _]; [contradiction |].
  destruct (iterdir fs root) as [items | e]; simpl; [| reflexivity].
  rewrite for_each_scan_item.
  destruct (items_entries fs items) as [cs | e]; simpl; [| reflexivity].
  f_equal. unfold registered at 2. simpl. f_equal. unfold entry.
  destruct (path_exists fs _); [| reflexivity]. now destruct (truthy _).
Qed.

Lemma registered_sound cs (mods : gmap string (list Path)) k v :
  registered cs mods !! k = Some v -> In (Some (k, v)) cs \/ mods !! k = Some v.
Proof.
  unfold registered. revert mods. induction cs as [| c cs IH]; intros mods; simpl; [tauto |].
  intros H. apply IH in H as [H | H]; [tauto |].
  destruct c as [[k' v'] |]; simpl in H; [| tauto].
  destruct (decide (k' = k)) as [-> | Hne].
  - rewrite lookup_insert_eq in H. injection H as ->. tauto.
  - rewrite lookup_insert_ne in H by exact Hne. tauto.
Qed.

Lemma registered_keeps cs (mods : gmap string (list Path)) k :
  is_Some (mods !! k) -> is_Some (registered cs mods !! k).
Proof.
  unfold registered. revert mods. induction cs as [| c cs IH]; intros mods; simpl; [tauto |].
  intros H. apply IH. destruct c as [[k' v'] |]; simpl; [| exact H].
  destruct (decide (k' = k)) as [-> | Hne].
  - rewrite lookup_insert_eq. eauto.
  - now rewrite lookup_insert_ne.
Qed.

Lemma registered_complete cs (mods : gmap string (list Path)) k v :
  In (Some (k, v)) cs -> is_Some (registered cs mods !! k).
Proof.
  unfold registered. revert mods. induction cs as [| c cs IH]; intros mods; simpl; [tauto |].
  intros [-> | H]; [| now apply IH].
  apply (registered_keeps cs). simpl. rewrite lookup_insert_eq. eauto.
Qed.

Lemma truthy_nonempty {A} (l : list A) : truthy l = true <-> l <> [].
Proof. destruct l; simpl; split; congruence. Qed.

Lemma entry_Some (fs : node) (key : string) (dir : Path) k v :
  entry fs key dir = Some (k, v) <->
  k = key /\ path_exists fs dir = true /\
  v = Discovery.find_scripts fs dir /\ v <> [].
Proof.
  unfold entry. destruct (path_exists fs dir).
  - destruct (truthy _) eqn:E.
    + apply truthy_nonempty in E. split.
      * intros [= <- <-]. tauto.
      * intros (-> & _ & -> & _). reflexivity.
    + split; [discriminate |]. intros (_ & _ & -> & H).
      apply truthy_nonempty in H. congruence.
  - split; [discriminate |]. intros (_ & [=] & _).
Qed.

Lemma in_item_entries (fs : node) (item : Path) cs k v :
  item_entries fs item = Ok cs ->
  In (Some (k, v)) cs <->
  candidate fs item /\
  ((path_exists fs (item ++ ["gamedata"; "scripts"]) = true /\
    entry fs (name item) (item ++ ["gamedata"; "scripts"]) = Some (k, v)) \/
   (path_exists fs (item ++ ["gamedata"; "scripts"]) = false /\
    exists subitem, listed fs item subitem /\ is_dir fs subitem = true /\
      entry fs (name item ++ "/" ++ name subitem)%string
            (subitem ++ ["gamedata"; "scripts"]) = Some (k, v))).
Proof.
  unfold item_entries, candidate, listed.
  destruct (is_dir fs item); simpl.
  2:{ intros [= <-]. simpl. split; [tauto |]. intros [[[=] _] _]. }
  destruct (skipped (name item)); simpl.
  { intros [= <-]. simpl. split; [tauto |]. intros [[_ [=]] _]. }
  destruct (path_exists fs (item ++ _)) eqn:E.
  - intros [= <-]. simpl. split.
    + intros [H | []]. split; [tauto |]. left. tauto.
    + intros [_ [[_ H] | [[=] _]]]. now left.
  - destruct (iterdir fs item) as [subitems | e]; simpl; [| discriminate].
    intros [= <-]. rewrite in_map_iff. split.
    + intros (subitem & H & Hin). split; [tauto |]. right. split; [reflexivity |].
      exists subitem. destruct (is_dir fs subitem); [| discriminate]. eauto.
    + intros [_ [[[=] _] | [_ (subitem & (l & Hl & Hin) & Hd & Hent)]]].
      injection Hl as <-. exists subitem. now rewrite Hd.
Qed.

Lemma in_items_entries (fs : node) (items : list Path) cs k v :
  items_entries fs items = Ok cs ->
  In (Some (k, v)) cs <->
  exists item c, In item items /\ item_entries fs item = Ok c /\ In (Some (k, v)) c.
Proof.
  revert cs. induction items as [| item items IH]; intros cs; simpl.
  - intros [= <-]. simpl. split; [tauto |]. intros (? & ? & [] & _).
  - destruct (item_entries fs item) as [c |] eqn:Ei; simpl; [| discriminate].
    destruct (items_entries fs items) as [cs' |]; simpl; [| discriminate].
    intros [= <-]. rewrite in_app_iff, (IH cs' eq_refl). split.
    + intros [H | (item' & c' & H1 & H2 & H3)].
      * exists item, c. repeat split; simpl; auto.
      * exists item', c'. repeat split; simpl; auto.
    + intros (item' & c' & [<- | H1] & H2 & H3).
      * left. congruence.
      * right. now exists item', c'.
Qed.

Lemma items_entries_returns (fs : node) (items : list Path) :
  returns (items_entries fs items) <->
  forall item, In item items -> returns (item_entries fs item).
Proof.
  unfold returns. induction items as [| item items IH]; simpl.
  - split; [intros _ item [] | eauto].
  - destruct (item_entries fs item) as [c | e] eqn:Ei; simpl.
    + destruct (items_entries fs items) as [cs' | e']; simpl.
      * split; [| eauto]. intros _ item' [<- | H]; [eauto |].
        apply (proj1 IH); eauto.
      * split; [intros [a [=]] |]. intros H.
        destruct (proj2 IH) as [a [=]]. intros item' Hin. apply H. now right.
    + split; [intros [a [=]] |]. intros H.
      destruct (H item (or_introl eq_refl)) as [a Ha]. congruence.
Qed.

Lemma item_entries_returns (fs : node) (item : Path) :
  returns (item_entries fs item) <->
  (candidate fs item -> path_exists fs (item ++ ["gamedata"; "scripts"]) = false ->
   returns (iterdir fs item)).
Proof.
  unfold returns, item_entries, candidate.
  destruct (is_dir fs item); simpl.
  2:{ split; [| eauto]. intros _ [[=] _]. }
  destruct (skipped (name item)); simpl.
  { split; [| eauto]. intros _ [_ [=]]. }
  destruct (path_exists fs (item ++ _)); simpl.
  { split; [| eauto]. intros _ _ [=]. }
  destruct (iterdir fs item) as [subitems | e]; simpl.
  - split; eauto.
  - split; [intros [a [=]] |]. intros H. destruct H as [a [=]]; auto.
Qed.

Lemma discover_mods_gamedata (fs : node) (root : Path) :
  name root = "gamedata" ->
  Discovery.discover_mods fs root =
  Ok (register (entry fs "(root)" (root ++ ["scripts"])) ∅).
Proof.
  intros Hname. unfold Discovery.discover_mods. rewrite Hname. simpl.
  f_equal. unfold entry. destruct (path_exists fs _); [| reflexivity].
  now destruct (truthy _).
Qed.

(** What [discover_mods] holds for a root not named [gamedata]: every
    contribution's key, and nothing but contributions. *)
Lemma discover_mods_registers (fs : node) (root : Path) mods :
  name root <> "gamedata" ->
  Discovery.discover_mods fs root = Ok mods ->
  (forall k v, contributes fs root k v -> is_Some (mods !! k)) /\
  (forall k v, mods !! k = Some v -> contributes fs root k v).
Proof.
  intros Hname H. rewrite discover_mods_entries in H by exact Hname.
  destruct (iterdir fs root) as [items |] eqn:Eit; simpl in H; [| discriminate].
  destruct (items_entries fs items) as [cs |] eqn:Ecs; simpl in H; [| discriminate].
  injection H as <-. split.
  - intros k v (dir & Hc & Hex & Hv & Hne).
    assert (Hent : forall key, entry fs key dir = Some (key, v))
      by (intros key; now apply entry_Some).
    destruct Hc as [Hroot | | item (items' & Hit & Hin) Hcand
                   | item subitem (items' & Hit & Hin) Hcand Hno Hsub Hd].
    + contradiction.
    + apply (registered_complete _ _ _ v). simpl. left. apply Hent.
    + assert (items' = items) as -> by congruence.
      destruct (proj1 (items_entries_returns fs items) (ex_intro _ cs Ecs) item Hin) as [c Hci].
      apply (registered_complete _ _ _ v). simpl. right.
      apply (in_items_entries _ _ _ _ _ Ecs). exists item, c. repeat split; try assumption.
      apply (in_item_entries _ _ _ _ _ Hci). split; [assumption |]. left. auto.
    + assert (items' = items) as -> by congruence.
      destruct (proj1 (items_entries_returns fs items) (ex_intro _ cs Ecs) item Hin) as [c Hci].
      apply (registered_complete _ _ _ v). simpl. right.
      apply (in_items_entries _ _ _ _ _ Ecs). exists item, c. repeat split; try assumption.
      apply (in_item_entries _ _ _ _ _ Hci). split; [assumption |]. right.
      split; [assumption |]. exists subitem. auto.
  - intros k v Hk. apply registered_sound in Hk as [[Hk | Hk] | Hk].
    + apply entry_Some in Hk as (-> & Hex & Hv & Hne).
      eexists. split; [apply check_direct | auto].
    + apply (in_items_entries _ _ _ _ _ Ecs) in Hk as (item & c & Hin & Hci & Hk).
      apply (in_item_entries _ _ _ _ _ Hci) in Hk
        as [Hcand [[_ Hk] | [Hno (subitem & Hsub & Hd & Hk)]]];
        apply entry_Some in Hk as (-> & Hex & Hv & Hne).
      * eexists. split; [apply check_child; [exists items |]; eauto | auto].
      * eexists. split; [eapply check_nested; [exists items | ..]; eauto | auto].
    + rewrite lookup_empty in Hk. discriminate.
Qed.

(** ** C2: the checks of the classifier *)

(** C2 (as amended).  A root named [gamedata] yields its ["(root)"] entry
    and nothing else: no other check runs.  For any other root the
    remaining checks add up: the key of every contribution is in the result,
    and every entry of the result is the contribution of some check. *)
Theorem discover_mods_checks (fs : node) (root : Path) :
  (name root = "gamedata" ->
   Discovery.discover_mods fs root =
   Ok (register (entry fs "(root)" (root ++ ["scripts"])) ∅)) /\
  (name root <> "gamedata" ->
   forall mods, Discovery.discover_mods fs root = Ok mods ->
     (forall key scripts, contributes fs root key scripts -> is_Some (mods !! key)) /\
     (forall key scripts, mods !! key = Some scripts -> contributes fs root key scripts)).
Proof.
  split.
  - apply discover_mods_gamedata.
  - intros Hname mods H. now apply discover_mods_registers.
Qed.

Lemma returns_Ok {A} (a : A) : returns (Ok a).
Proof. now exists a. Qed.

Lemma discover_mods_checks_witness :
  (name ["gamedata"] = "gamedata" /\
   Discovery.discover_mods gamedata_root ["gamedata"] =
   Ok (register (entry gamedata_root "(root)" (["gamedata"] ++ ["scripts"])) ∅)) /\
  (name ["mods"] <> "gamedata" /\
   forall mods, Discovery.discover_mods mods_root ["mods"] = Ok mods ->
     (forall key scripts, contributes mods_root ["mods"] key scripts -> is_Some (mods !! key)) /\
     (forall key scripts, mods !! key = Some scripts -> contributes mods_root ["mods"] key scripts)).
Proof.
  split.
  - split; [reflexivity |].
    apply (proj1 (discover_mods_checks gamedata_root ["gamedata"])). reflexivity.
  - split; [discriminate |].
    apply (proj2 (discover_mods_checks mods_root ["mods"])). discriminate.
Defined.

(** The claim as stated fails: with the root named [gamedata], the
    subdirectory [modA] meets the check for mod folders and would contribute
    its scripts, but the result holds the ["(root)"] entry only. *)
Lemma discover_mods_gamedata_exclusive :
  exists mods,
    Discovery.discover_mods gamedata_root ["gamedata"] = Ok mods /\
    mods !! "(root)" = Some [["gamedata"; "scripts"; "a.lua"]] /\
    contributes gamedata_root ["gamedata"] "modA"
      [["gamedata"; "modA"; "gamedata"; "scripts"; "b.script"]] /\
    mods !! "modA" = None.
Proof.
  eexists. split; [reflexivity |]. split; [reflexivity |]. split; [| reflexivity].
  exists ["gamedata"; "modA"; "gamedata"; "scripts"].
  split; [| repeat split; discriminate].
  apply (check_child _ _ ["gamedata"; "modA"]).
  - eexists. split; [reflexivity |]. simpl. tauto.
  - split; reflexivity.
Qed.

(** ** C3: unreadable subdirectories *)

Lemma iterdir_OSError (fs : node) (p : Path) (e : exn) :
  iterdir fs p = Raise e -> is_OSError e = true.
Proof.
  unfold iterdir. destruct (resolve fs p) as [[? ? | [] ?] |]; intros [= <-]; reflexivity.
Qed.

Lemma item_entries_OSError (fs : node) (item : Path) (e : exn) :
  item_entries fs item = Raise e -> is_OSError e = true.
Proof.
  unfold item_entries. destruct (negb (is_dir fs item)); [discriminate |].
  destruct (skipped (name item)); [discriminate |].
  destruct (path_exists fs (item ++ ["gamedata"; "scripts"])); [discriminate |].
  destruct (iterdir fs item) as [subitems | e'] eqn:E; [discriminate |].
  intros [= <-]. eapply iterdir_OSError, E.
Qed.

Lemma items_entries_OSError (fs : node) (items : list Path) (e : exn) :
  items_entries fs items = Raise e -> is_OSError e = true.
Proof.
  induction items as [| item items IH]; [discriminate |]. cbn [items_entries].
  destruct (item_entries fs item) as [cs | e'] eqn:E; cbn [bind].
  - destruct (items_entries fs items) as [cs' | e'']; [discriminate |].
    intros [= <-]. now apply IH.
  - intros [= <-]. eapply item_entries_OSError, E.
Qed.

(** C3 (as amended).  [discover_mods] handles no exception, so a directory
    read error is not a soft failure: when a subdirectory it looks into for
    nested mods (a directory, not passed over by name, without
    [gamedata/scripts] of its own) cannot be listed, the whole discovery
    raises an [OSError] and returns no result, whatever the other
    subdirectories hold. *)
Theorem discover_mods_propagates (fs : node) (root item : Path) (e : exn) :
  name root <> "gamedata" ->
  listed fs root item ->
  candidate fs item ->
  path_exists fs (item ++ ["gamedata"; "scripts"]) = false ->
  iterdir fs item = Raise e ->
  exists e', Discovery.discover_mods fs root = Raise e' /\ is_OSError e' = true.
Proof.
  intros Hname (items & Hit & Hin) Hcand Hno Hitem.
  rewrite discover_mods_entries by exact Hname. rewrite Hit. cbn [bind].
  destruct (items_entries fs items) as [cs | e'] eqn:Ecs; cbn [bind].
  - exfalso.
    pose proof (proj1 (items_entries_returns fs items) (ex_intro _ cs Ecs) item Hin) as Hr.
    apply item_entries_returns in Hr; [| exact Hcand | exact Hno].
    destruct Hr as [subitems Hr]. congruence.
  - exists e'. split; [reflexivity |]. eapply items_entries_OSError, Ecs.
Qed.

Lemma discover_mods_propagates_witness :
  name ["mods"] <> "gamedata" /\
  listed locked_root ["mods"] ["mods"; "locked"] /\
  candidate locked_root ["mods"; "locked"] /\
  path_exists locked_root (["mods"; "locked"] ++ ["gamedata"; "scripts"]) = false /\
  iterdir locked_root ["mods"; "locked"] = Raise PermissionError /\
  exists e', Discovery.discover_mods locked_root ["mods"] = Raise e' /\
             is_OSError e' = true.
Proof.
  assert (Hname : name ["mods"] <> "gamedata") by discriminate.
  assert (Hlisted : listed locked_root ["mods"] ["mods"; "locked"]).
  { exists [["mods"; "good"]; ["mods"; "locked"]]. split; [reflexivity |]. right. now left. }
  assert (Hcand : candidate locked_root ["mods"; "locked"]) by (split; reflexivity).
  split; [exact Hname |]. split; [exact Hlisted |]. split; [exact Hcand |].
  split; [reflexivity |]. split; [reflexivity |].
  exact (discover_mods_propagates locked_root ["mods"] ["mods"; "locked"] PermissionError
           Hname Hlisted Hcand eq_refl eq_refl).
Defined.

(** The claim as stated fails: the root can be listed and [good] is a mod,
    but listing [locked] raises and the discovery raises with it. *)
Lemma discover_mods_aborts_on_unreadable :
  returns (iterdir locked_root ["mods"]) /\
  contributes locked_root ["mods"] "good"
    [["mods"; "good"; "gamedata"; "scripts"; "a.script"]] /\
  iterdir locked_root ["mods"; "locked"] = Raise PermissionError /\
  Discovery.discover_mods locked_root ["mods"] = Raise PermissionError.
Proof.
  split; [eexists; reflexivity |]. split; [| split; reflexivity].
  exists ["mods"; "good"; "gamedata"; "scripts"].
  split; [| repeat split; discriminate].
  apply (check_child _ _ ["mods"; "good"]).
  - eexists. split; [reflexivity |]. simpl. tauto.
  - split; reflexivity.
Qed.

(** ** C6: no entry without scripts *)

(** C6. Every entry of the result of [discover_mods] holds a non-empty
    list, the scripts collected from the directory of one of the checks; so
    a directory whose collection is empty is registered by no branch.  The
    result is a function of the tree: a second run on the same tree returns
    the same dictionary. *)
Theorem discover_mods_nonempty (fs : node) (root : Path) mods :
  Discovery.discover_mods fs root = Ok mods ->
  (forall key scripts, mods !! key = Some scripts ->
     scripts <> [] /\
     exists dir, check fs root key dir /\ scripts = Discovery.find_scripts fs dir) /\
  (forall mods', Discovery.discover_mods fs root = Ok mods' -> mods' = mods).
Proof.
  intros H. split; [| congruence].
  intros key scripts Hk.
  destruct (decide (name root = "gamedata")) as [Hname | Hname].
  - rewrite discover_mods_gamedata in H by exact Hname. injection H as <-.
    destruct (entry fs "(root)" (root ++ ["scripts"])) as [[k v] |] eqn:E; simpl in Hk.
    + apply entry_Some in E as (-> & _ & -> & Hne).
      destruct (decide (key = "(root)")) as [-> | Hkey].
      * rewrite lookup_insert_eq in Hk. injection Hk as <-.
        split; [exact Hne |]. eexists. split; [now apply check_root | reflexivity].
      * rewrite lookup_insert_ne, lookup_empty in Hk by congruence. discriminate.
    + rewrite lookup_empty in Hk. discriminate.
  - destruct (discover_mods_registers fs root mods Hname H) as [_ Hsound].
    destruct (Hsound key scripts Hk) as (dir & Hc & _ & Hv & Hne). eauto.
Qed.

Lemma discover_mods_nonempty_witness :
  let mods : gmap string (list Path) :=
    {[ "mods" := [["mods"; "gamedata"; "scripts"; "m.lua"]];
       "good" := [["mods"; "good"; "gamedata"; "scripts"; "a.script"]];
       "pack/addon" := [["mods"; "pack"; "addon"; "gamedata"; "scripts"; "b.lua"]] ]} in
  Discovery.discover_mods mods_root ["mods"] = Ok mods /\
  (forall key scripts, mods !! key = Some scripts ->
     scripts <> [] /\
     exists dir, check mods_root ["mods"] key dir /\
                 scripts = Discovery.find_scripts mods_root dir) /\
  (forall mods', Discovery.discover_mods mods_root ["mods"] = Ok mods' -> mods' = mods).
Proof.
  assert (H : Discovery.discover_mods mods_root ["mods"] =
              Ok ({[ "mods" := [["mods"; "gamedata"; "scripts"; "m.lua"]];
                     "good" := [["mods"; "good"; "gamedata"; "scripts"; "a.script"]];
                     "pack/addon" := [["mods"; "pack"; "addon"; "gamedata"; "scripts"; "b.lua"]] ]}))
    by (vm_compute; reflexivity).
  split; [exact H |]. apply (discover_mods_nonempty mods_root ["mods"] _ H).
Defined.

(** ** [get_mod_info] *)

Lemma for_each_app {A S} (body : S -> A -> result S) (l1 l2 : list A) (acc : S) :
  for_each body (l1 ++ l2) acc =
  do acc' <- for_each body l1 acc; for_each body l2 acc'.
Proof.
  revert acc. induction l1 as [| x l1 IH]; intros acc; simpl; [reflexivity |].
  destruct (body acc x); simpl; [apply IH | reflexivity].
Qed.

Lemma read_text_OSError (fs : node) (p : Path) (e : exn) :
  read_text fs p = Raise e -> is_OSError e = true.
Proof.
  unfold read_text. destruct (resolve fs p) as [[[] d | l es] |]; intros [= <-]; reflexivity.
Qed.

Lemma read_text_exists (fs : node) (p : Path) (content : string) :
  read_text fs p = Ok content -> path_exists fs p = true.
Proof.
  unfold read_text, path_exists. now destruct (resolve fs p).
Qed.

(** A line that starts with a prefix holding ["="] has a second part. *)
Lemma split1_snd_startswith (line p : string) :
  startswith line p = true -> returns (split1_snd "=" p) ->
  returns (split1_snd "=" line).
Proof.
  revert line. induction p as [| b p IH]; intros line; simpl.
  - intros _ [a [=]].
  - destruct line as [| a line]; [discriminate |].
    intros [Hab Hp]%andb_true_iff. apply Ascii.eqb_eq in Hab as ->. simpl.
    destruct (Ascii.eqb b "="); [intros _; apply returns_Ok | now apply IH].
Qed.

Lemma meta_line_returns (info : gmap string string) (line : string) :
  returns (Discovery.meta_line info line).
Proof.
  unfold Discovery.meta_line.
  destruct (startswith line "name=") eqn:E1;
    [| destruct (startswith line "version=") eqn:E2;
       [| destruct (startswith line "author=") eqn:E3; [| apply returns_Ok]]].
  all: match goal with
       | H : startswith ?l ?p = true |- _ =>
           destruct (split1_snd_startswith l p H (returns_Ok _)) as [v ->]
       end; apply returns_Ok.
Qed.

Lemma for_each_meta_line_returns (lines : list string) (info : gmap string string) :
  returns (for_each Discovery.meta_line lines info).
Proof.
  revert info. induction lines as [| line lines IH]; intros info; simpl.
  - apply returns_Ok.
  - destruct (meta_line_returns info line) as [info' ->]. simpl. apply IH.
Qed.

(** The line [key=rest] assigns [rest], stripped, to [key]. *)
Lemma meta_line_assigns (info : gmap string string) (key rest : string) :
  In key ["name"; "version"; "author"] ->
  Discovery.meta_line info (key ++ "=" ++ rest)%string =
  Ok (<[key := strip rest]> info).
Proof.
  intros [<- | [<- | [<- | []]]]; reflexivity.
Qed.

(** A line that does not start with [key=] leaves [key] as it is. *)
Lemma meta_line_other (info info' : gmap string string) (key line : string) :
  In key ["name"; "version"; "author"] ->
  startswith line (key ++ "=")%string = false ->
  Discovery.meta_line info line = Ok info' ->
  info' !! key = info !! key.
Proof.
  unfold Discovery.meta_line. intros Hkey Hline.
  destruct (startswith line "name=") eqn:E1;
    [| destruct (startswith line "version=") eqn:E2;
       [| destruct (startswith line "author=") eqn:E3; [| congruence]]].
  all: destruct (split1_snd "=" line) as [v |]; simpl; [| discriminate].
  all: intros [= <-].
  all: destruct Hkey as [<- | [<- | [<- | []]]];
       unfold String.append in Hline;
       try congruence; now rewrite lookup_insert_ne.
Qed.

Lemma for_each_meta_line_other (lines : list string) (info info' : gmap string string)
    (key : string) :
  In key ["name"; "version"; "author"] ->
  Forall (fun l => startswith l (key ++ "=")%string = false) lines ->
  for_each Discovery.meta_line lines info = Ok info' ->
  info' !! key = info !! key.
Proof.
  intros Hkey Hall. revert info. induction Hall as [| line lines Hline _ IH]; intros info; simpl.
  - congruence.
  - destruct (Discovery.meta_line info line) as [info1 |] eqn:E; simpl; [| discriminate].
    intros H. rewrite (IH _ H). eapply meta_line_other; eassumption.
Qed.

(** The step of [get_mod_info] for [meta.ini] returns; an unreadable file
    leaves the record as it was. *)
Lemma meta_ini_step (fs : node) (p : Path) (info : gmap string string) :
  exists info',
    try_except_OSError
      (do content <- read_text fs p;
       for_each Discovery.meta_line (splitlines content) info) info = Ok info' /\
    ((exists e, read_text fs p = Raise e) -> info' = info) /\
    (forall content, read_text fs p = Ok content ->
       for_each Discovery.meta_line (splitlines content) info = Ok info').
Proof.
  destruct (read_text fs p) as [content | e] eqn:E; simpl.
  - destruct (for_each_meta_line_returns (splitlines content) info) as [info' Hi].
    exists info'. rewrite Hi. split; [reflexivity |]. split.
    + intros [e [=]].
    + now intros c [= <-].
  - rewrite (read_text_OSError _ _ _ E). exists info. split; [reflexivity |].
    split; [reflexivity | discriminate].
Qed.

(** The same for [modinfo.txt]: only the name can change. *)
Lemma modinfo_step (fs : node) (p : Path) (info : gmap string string) :
  exists info',
    try_except_OSError
      (do content <- read_text fs p;
       match splitlines content with
       | line0 :: _ => Ok (<["name" := strip line0]> info)
       | [] => Ok info
       end) info = Ok info' /\
    ((exists e, read_text fs p = Raise e) -> info' = info) /\
    (forall key, key <> "name" -> info' !! key = info !! key).
Proof.
  destruct (read_text fs p) as [content | e] eqn:E; simpl.
  - destruct (splitlines content) as [| line0 lines]; simpl.
    + exists info. split; [reflexivity |]. split; [intros [e [=]] | reflexivity].
    + eexists. split; [reflexivity |]. split; [intros [e [=]] |].
      intros key Hkey. now rewrite lookup_insert_ne.
  - rewrite (read_text_OSError _ _ _ E). exists info. split; [reflexivity |].
    split; reflexivity.
Qed.

(** ** C4: duplicated keys in [meta.ini] *)

(** C4 (as amended).  For each of the keys [name], [version] and [author],
    the value [get_mod_info] returns is that of the last line of [meta.ini]
    starting with the key: earlier lines for the key do not change the
    result.  (For [name], when there is no [modinfo.txt] to override it.) *)
Theorem get_mod_info_last_line_wins (fs : node) (mod_path : Path)
    (content key rest : string) (before after : list string) :
  In key ["name"; "version"; "author"] ->
  read_text fs (mod_path ++ ["meta.ini"]) = Ok content ->
  splitlines content = before ++ (key ++ "=" ++ rest)%string :: after ->
  Forall (fun l => startswith l (key ++ "=")%string = false) after ->
  (key = "name" -> path_exists fs (mod_path ++ ["modinfo.txt"]) = false) ->
  exists info,
    Discovery.get_mod_info fs mod_path = Ok info /\
    info !! key = Some (strip rest).
Proof.
  intros Hkey Hread Hlines Hafter Hmodinfo. unfold Discovery.get_mod_info.
  rewrite (read_text_exists _ _ _ Hread).
  destruct (meta_ini_step fs (mod_path ++ ["meta.ini"]) {["name" := name mod_path]})
    as (info1 & -> & _ & Hloop).
  specialize (Hloop _ Hread). rewrite Hlines, for_each_app in Hloop.
  destruct (for_each Discovery.meta_line before _) as [info0 |]; [| discriminate].
  simpl in Hloop. rewrite meta_line_assigns in Hloop by exact Hkey. simpl in Hloop.
  assert (H1 : info1 !! key = Some (strip rest)).
  { rewrite (for_each_meta_line_other _ _ _ _ Hkey Hafter Hloop).
    apply lookup_insert_eq. }
  cbn [bind].
  destruct (path_exists fs (mod_path ++ ["modinfo.txt"])) eqn:Ex.
  - destruct (modinfo_step fs (mod_path ++ ["modinfo.txt"]) info1)
      as (info2 & -> & _ & Hother).
    exists info2. split; [reflexivity |]. rewrite Hother; [exact H1 |].
    intros ->. now specialize (Hmodinfo eq_refl).
  - exists info1. now split.
Qed.

Lemma get_mod_info_last_line_wins_witness :
  In "version" ["name"; "version"; "author"] /\
  read_text twice_root (["mod"] ++ ["meta.ini"]) = Ok twice_meta /\
  splitlines twice_meta =
    ["name=First"; "version=1.0"; "author=A"; "name=Second"] ++
    ("version" ++ "=" ++ "2.0")%string :: ["author=B"] /\
  exists info,
    Discovery.get_mod_info twice_root ["mod"] = Ok info /\
    info !! "version" = Some (strip "2.0").
Proof.
  assert (H1 : In "version" ["name"; "version"; "author"]) by (simpl; tauto).
  assert (H2 : read_text twice_root (["mod"] ++ ["meta.ini"]) = Ok twice_meta)
    by reflexivity.
  assert (H3 : splitlines twice_meta =
               ["name=First"; "version=1.0"; "author=A"; "name=Second"] ++
               ("version" ++ "=" ++ "2.0")%string :: ["author=B"]) by reflexivity.
  split; [exact H1 |]. split; [exact H2 |]. split; [exact H3 |].
  apply (get_mod_info_last_line_wins twice_root ["mod"] twice_meta "version" "2.0"
           ["name=First"; "version=1.0"; "author=A"; "name=Second"] ["author=B"]
           H1 H2 H3).
  - repeat constructor.
  - discriminate.
Defined.

(** The claim as stated fails: every key occurs twice in [meta.ini], and
    the record holds the second value of each, not the first. *)
Lemma get_mod_info_first_line_lost :
  splitlines twice_meta =
    ["name=First"; "version=1.0"; "author=A";
     "name=Second"; "version=2.0"; "author=B"] /\
  exists info,
    Discovery.get_mod_info twice_root ["mod"] = Ok info /\
    info !! "name" = Some "Second" /\
    info !! "version" = Some "2.0" /\
    info !! "author" = Some "B".
Proof.
  split; [reflexivity |]. eexists. repeat split; reflexivity.
Qed.

(** ** C5: what leaves [get_mod_info] *)

Lemma stat_unlocked (p : Path) : forall (here : Path) (n : node),
  Access.stat_from [] here n p = Ok (resolve n p).
Proof.
  induction p as [| c p IH]; intros here n; cbn [Access.stat_from resolve];
    [reflexivity |].
  destruct n as [r d | l es]; [reflexivity |].
  rewrite bool_decide_eq_false_2 by apply not_elem_of_nil.
  destruct (entry_lookup c es) as [ch |]; [apply IH | reflexivity].
Qed.

Lemma path_exists_unlocked (fs : node) (p : Path) :
  Access.path_exists [] fs p = Ok (path_exists fs p).
Proof. unfold Access.path_exists, Access.stat, path_exists. now rewrite stat_unlocked. Qed.

Lemma read_text_unlocked (fs : node) (p : Path) :
  Access.read_text [] fs p = read_text fs p.
Proof. unfold Access.read_text, Access.stat, read_text. now rewrite stat_unlocked. Qed.

(** Where every directory can be searched, the two models of
    [get_mod_info] agree. *)
Lemma get_mod_info_unlocked (fs : node) (mod_path : Path) :
  Access.get_mod_info [] fs mod_path = Discovery.get_mod_info fs mod_path.
Proof.
  unfold Access.get_mod_info, Discovery.get_mod_info.
  now rewrite !path_exists_unlocked, !read_text_unlocked.
Qed.

Lemma stat_from_PermissionError (locked : list Path) (p : Path) :
  forall (here : Path) (n : node) (e : exn),
  Access.stat_from locked here n p = Raise e -> e = PermissionError.
Proof.
  induction p as [| c p IH]; intros here n e; cbn [Access.stat_from]; [discriminate |].
  destruct n as [r d | l es]; [discriminate |].
  case_bool_decide; [congruence |].
  destruct (entry_lookup c es) as [ch |]; [apply IH | discriminate].
Qed.

Lemma access_path_exists_PermissionError (locked : list Path) (fs : node) (p : Path)
    (e : exn) :
  Access.path_exists locked fs p = Raise e -> e = PermissionError.
Proof.
  unfold Access.path_exists, Access.stat.
  destruct (Access.stat_from locked [] fs p) as [found |] eqn:E; [discriminate |].
  intros [= <-]. eapply stat_from_PermissionError, E.
Qed.

Lemma access_read_text_OSError (locked : list Path) (fs : node) (p : Path) (e : exn) :
  Access.read_text locked fs p = Raise e -> is_OSError e = true.
Proof.
  unfold Access.read_text, Access.stat.
  destruct (Access.stat_from locked [] fs p) as [found |] eqn:E; cbn [bind].
  - destruct found as [[[] d | l es] |]; intros [= <-]; reflexivity.
  - intros [= <-]. now rewrite (stat_from_PermissionError _ _ _ _ _ E).
Qed.

(** The two [try] blocks never raise: an error of reading is swallowed, and
    the lines of a file that was read are processed without error. *)
Lemma access_meta_block (locked : list Path) (fs : node) (p : Path)
    (info : gmap string string) :
  exists info',
    try_except_OSError
      (do content <- Access.read_text locked fs p;
       for_each Discovery.meta_line (splitlines content) info) info = Ok info' /\
    ((exists e, Access.read_text locked fs p = Raise e) -> info' = info).
Proof.
  destruct (Access.read_text locked fs p) as [content | e] eqn:E; cbn [bind].
  - destruct (for_each_meta_line_returns (splitlines content) info) as [info' ->].
    exists info'. split; [reflexivity |]. intros [e [=]].
  - cbn [try_except_OSError]. rewrite (access_read_text_OSError _ _ _ _ E).
    exists info. split; [reflexivity | auto].
Qed.

Lemma access_modinfo_block (locked : list Path) (fs : node) (p : Path)
    (info : gmap string string) :
  exists info',
    try_except_OSError
      (do content <- Access.read_text locked fs p;
       match splitlines content with
       | line0 :: _ => Ok (<["name" := strip line0]> info)
       | [] => Ok info
       end) info = Ok info' /\
    ((exists e, Access.read_text locked fs p = Raise e) -> info' = info).
Proof.
  destruct (Access.read_text locked fs p) as [content | e] eqn:E; cbn [bind].
  - destruct (splitlines content) as [| line0 rest]; cbn [try_except_OSError];
      eexists; (split; [reflexivity |]); intros [e [=]].
  - cbn [try_except_OSError]. rewrite (access_read_text_OSError _ _ _ _ E).
    exists info. split; [reflexivity | auto].
Qed.

(** X23. With search permission in the model, [get_mod_info] raises exactly
    when one of its two calls of [exists()] raises, and then
    [PermissionError]; every error of reading [meta.ini] or [modinfo.txt]
    is swallowed.  When both calls return and neither file is there or can
    be read, the result holds the folder's name and nothing else. *)
Theorem get_mod_info_raises_iff (locked : list Path) (fs : node) (mod_path : Path) :
  (forall e,
     Access.get_mod_info locked fs mod_path = Raise e <->
     Access.path_exists locked fs (mod_path ++ ["meta.ini"]) = Raise e \/
     (returns (Access.path_exists locked fs (mod_path ++ ["meta.ini"])) /\
      Access.path_exists locked fs (mod_path ++ ["modinfo.txt"]) = Raise e)) /\
  (forall e, Access.get_mod_info locked fs mod_path = Raise e -> e = PermissionError) /\
  ((Access.path_exists locked fs (mod_path ++ ["meta.ini"]) = Ok false \/
    exists e, Access.read_text locked fs (mod_path ++ ["meta.ini"]) = Raise e) ->
   (Access.path_exists locked fs (mod_path ++ ["modinfo.txt"]) = Ok false \/
    exists e, Access.read_text locked fs (mod_path ++ ["modinfo.txt"]) = Raise e) ->
   returns (Access.path_exists locked fs (mod_path ++ ["meta.ini"])) ->
   returns (Access.path_exists locked fs (mod_path ++ ["modinfo.txt"])) ->
   Access.get_mod_info locked fs mod_path = Ok {["name" := name mod_path]}).
Proof.
  unfold Access.get_mod_info.
  set (info0 := {["name" := name mod_path]} : gmap string string).
  destruct (access_meta_block locked fs (mod_path ++ ["meta.ini"]) info0)
    as (infoA & HA & HAfail).
  destruct (Access.path_exists locked fs (mod_path ++ ["meta.ini"])) as [found1 | e1] eqn:E1;
    cbn [bind].
  2:{ split; [| split].
      - intros e. split; [intros [= <-]; now left |].
        intros [[= <-] | [[b [=]] _]]. reflexivity.
      - intros e [= <-]. eapply access_path_exists_PermissionError, E1.
      - intros _ _ [b [=]]. }
  assert (H1 : exists info1,
    (if found1
     then try_except_OSError
            (do content <- Access.read_text locked fs (mod_path ++ ["meta.ini"]);
             for_each Discovery.meta_line (splitlines content) info0) info0
     else Ok info0) = Ok info1 /\
    ((found1 = false \/
      exists e, Access.read_text locked fs (mod_path ++ ["meta.ini"]) = Raise e) ->
     info1 = info0)).
  { destruct found1.
    - exists infoA. split; [exact HA |]. intros [[=] | H]. now apply HAfail.
    - exists info0. split; [reflexivity | auto]. }
  destruct H1 as (info1 & -> & H1). cbn [bind].
  destruct (access_modinfo_block locked fs (mod_path ++ ["modinfo.txt"]) info1)
    as (infoB & HB & HBfail).
  destruct (Access.path_exists locked fs (mod_path ++ ["modinfo.txt"])) as [found2 | e2] eqn:E2;
    cbn [bind].
  2:{ split; [| split].
      - intros e. split.
        + intros [= <-]. right. split; [apply returns_Ok | reflexivity].
        + intros [[=] | [_ [= <-]]]. reflexivity.
      - intros e [= <-]. eapply access_path_exists_PermissionError, E2.
      - intros _ _ _ [b [=]]. }
  assert (H2 : exists info2,
    (if found2
     then try_except_OSError
            (do content <- Access.read_text locked fs (mod_path ++ ["modinfo.txt"]);
             match splitlines content with
             | line0 :: _ => Ok (<["name" := strip line0]> info1)
             | [] => Ok info1
             end) info1
     else Ok info1) = Ok info2 /\
    ((found2 = false \/
      exists e, Access.read_text locked fs (mod_path ++ ["modinfo.txt"]) = Raise e) ->
     info2 = info1)).
  { destruct found2.
    - exists infoB. split; [exact HB |]. intros [[=] | H]. now apply HBfail.
    - exists info1. split; [reflexivity | auto]. }
  destruct H2 as (info2 & -> & H2). cbn [bind].
  split; [| split].
  - intros e. split; [discriminate |]. intros [[=] | [_ [=]]].
  - discriminate.
  - intros Hmeta Hmod _ _. f_equal. rewrite H2, H1; [reflexivity | |].
    + destruct Hmeta as [[= ->] | H]; auto.
    + destruct Hmod as [[= ->] | H]; auto.
Qed.

Lemma get_mod_info_raises_iff_witness :
  Access.get_mod_info [["mod"]] twice_root ["mod"] = Raise PermissionError /\
  Access.read_text [] unread_root (["mod"] ++ ["meta.ini"]) = Raise PermissionError /\
  Access.read_text [] unread_root (["mod"] ++ ["modinfo.txt"]) = Raise IsADirectoryError /\
  Access.get_mod_info [] unread_root ["mod"] = Ok {["name" := "mod"]}.
Proof.
  split; [| split; [reflexivity | split; [reflexivity |]]].
  - apply (proj1 (get_mod_info_raises_iff [["mod"]] twice_root ["mod"])).
    left. reflexivity.
  - apply (proj2 (proj2 (get_mod_info_raises_iff [] unread_root ["mod"]))).
    + right. exists PermissionError. reflexivity.
    + right. exists IsADirectoryError. reflexivity.
    + exists true. reflexivity.
    + exists true. reflexivity.
Defined.

(** C5.  The claim does not hold of the code: the [try] blocks of
    [get_mod_info] cover the reading of the two files, not the calls of
    [exists()] before them.  For a mod folder that can be listed but not
    searched, [meta_ini.exists()] raises [PermissionError] and
    [get_mod_info] raises with it, where the claim has it return the
    folder's name. *)
Theorem get_mod_info_raises_unsearchable :
  let locked := [["mod"]] in
  iterdir twice_root ["mod"] = Ok [["mod"; "meta.ini"]] /\
  Access.path_exists locked twice_root (["mod"] ++ ["meta.ini"]) = Raise PermissionError /\
  Access.get_mod_info locked twice_root ["mod"] = Raise PermissionError /\
  is_OSError PermissionError = true.
Proof. repeat split. Qed.

(** ** The file system under writes *)

Lemma entry_lookup_update_eq (c : string) (n ch : node) (es : list (string * node)) :
  entry_lookup c es = Some ch -> entry_lookup c (entry_update c n es) = Some n.
Proof.
  induction es as [| [c' n'] es IH]; simpl; [discriminate |].
  destruct (String.eqb c c') eqn:E; simpl; rewrite E; [reflexivity | exact IH].
Qed.

Lemma entry_lookup_update_ne (c c' : string) (n : node) (es : list (string * node)) :
  c <> c' -> entry_lookup c (entry_update c' n es) = entry_lookup c es.
Proof.
  intros Hne. induction es as [| [c2 n2] es IH]; simpl; [reflexivity |].
  destruct (String.eqb_spec c' c2) as [<- | Hne2]; simpl.
  - now destruct (String.eqb_spec c c').
  - now rewrite IH.
Qed.

Lemma entry_lookup_app_ne (c c' : string) (n : node) (es : list (string * node)) :
  c <> c' -> entry_lookup c (es ++ [(c', n)]) = entry_lookup c es.
Proof.
  intros Hne. induction es as [| [c2 n2] es IH]; simpl.
  - now destruct (String.eqb_spec c c').
  - now rewrite IH.
Qed.

Lemma entry_lookup_app_new (c : string) (n : node) (es : list (string * node)) :
  entry_lookup c es = None -> entry_lookup c (es ++ [(c, n)]) = Some n.
Proof.
  induction es as [| [c2 n2] es IH]; simpl.
  - now rewrite String.eqb_refl.
  - destruct (String.eqb c c2); [discriminate | exact IH].
Qed.

Lemma resolve_File_cons (r : bool) (d : string) (c : string) (q : Path) :
  resolve (File r d) (c :: q) = None.
Proof. reflexivity. Qed.

(** Writing a file changes no other file: the regular files at other paths
    are the same before and after. *)
Lemma write_file_frame (p : Path) : forall (fs fs' : node) (d : string) (q : Path) r x,
  write_file fs p d = Ok fs' -> q <> p ->
  (resolve fs' q = Some (File r x) <-> resolve fs q = Some (File r x)).
Proof.
  induction p as [| c p IH]; intros fs fs' d q r x; simpl.
  - destruct fs as [r0 d0 | l es]; [| discriminate]. intros [= <-] Hq.
    destruct q as [| c2 q]; [congruence | reflexivity].
  - destruct fs as [r0 d0 | l es]; [discriminate |].
    destruct (entry_lookup c es) as [ch |] eqn:E.
    + destruct (write_file ch p d) as [ch' |] eqn:Ew; simpl; [| discriminate].
      intros [= <-] Hq. destruct q as [| c2 q]; simpl; [split; discriminate |].
      destruct (String.eqb_spec c2 c) as [-> | Hne].
      * rewrite (entry_lookup_update_eq _ _ _ _ E), E.
        apply (IH _ _ _ _ _ _ Ew). congruence.
      * now rewrite entry_lookup_update_ne.
    + destruct p as [| c3 p]; [| discriminate].
      intros [= <-] Hq. destruct q as [| c2 q]; simpl; [split; discriminate |].
      destruct (String.eqb_spec c2 c) as [-> | Hne].
      * rewrite (entry_lookup_app_new _ _ _ E), E.
        destruct q as [| c4 q]; [congruence |]. simpl. split; discriminate.
      * now rewrite entry_lookup_app_ne.
Qed.

(** Creating directories changes no file. *)
Lemma mkdir_parents_frame (p : Path) : forall (fs fs' : node) (q : Path) r x,
  mkdir_parents fs p = Ok fs' ->
  (resolve fs' q = Some (File r x) <-> resolve fs q = Some (File r x)).
Proof.
  induction p as [| c p IH]; intros fs fs' q r x; simpl.
  - destruct fs; [discriminate |]. now intros [= <-].
  - destruct fs as [r0 d0 | l es]; [discriminate |].
    destruct (entry_lookup c es) as [ch |] eqn:E.
    + destruct (mkdir_parents ch p) as [ch' |] eqn:Em; simpl; [| discriminate].
      intros [= <-]. destruct q as [| c2 q]; simpl; [split; discriminate |].
      destruct (String.eqb_spec c2 c) as [-> | Hne].
      * rewrite (entry_lookup_update_eq _ _ _ _ E), E. apply (IH _ _ _ _ _ Em).
      * now rewrite entry_lookup_update_ne.
    + destruct (mkdir_parents (Dir true []) p) as [ch' |] eqn:Em; simpl; [| discriminate].
      intros [= <-]. destruct q as [| c2 q]; simpl; [split; discriminate |].
      destruct (String.eqb_spec c2 c) as [-> | Hne].
      * rewrite (entry_lookup_app_new _ _ _ E), E.
        rewrite (IH _ _ q r x Em). destruct q; simpl; split; discriminate.
      * now rewrite entry_lookup_app_ne.
Qed.

Lemma OSError_Exception (e : exn) : is_OSError e = true -> is_Exception e = true.
Proof. now destruct e. Qed.

Lemma mkdir_parents_OSError (p : Path) : forall (fs : node) (e : exn),
  mkdir_parents fs p = Raise e -> is_OSError e = true.
Proof.
  induction p as [| c p IH]; intros fs e; simpl.
  - destruct fs; [intros [= <-]; reflexivity | discriminate].
  - destruct fs as [r0 d0 | l es]; [intros [= <-]; reflexivity |].
    destruct (entry_lookup c es) as [ch |].
    + destruct (mkdir_parents ch p) eqn:Em; simpl; [discriminate |].
      intros [= <-]. eauto.
    + destruct (mkdir_parents (Dir true []) p) eqn:Em; simpl; [discriminate |].
      intros [= <-]. eauto.
Qed.

Lemma write_file_OSError (p : Path) : forall (fs : node) (d : string) (e : exn),
  write_file fs p d = Raise e -> is_OSError e = true.
Proof.
  induction p as [| c p IH]; intros fs d e; simpl.
  - destruct fs; [discriminate | intros [= <-]; reflexivity].
  - destruct fs as [r0 d0 | l es]; [intros [= <-]; reflexivity |].
    destruct (entry_lookup c es) as [ch |].
    + destruct (write_file ch p d) eqn:Ew; simpl; [discriminate |].
      intros [= <-]. eauto.
    + destruct p; [discriminate | intros [= <-]; reflexivity].
Qed.

Lemma copy2_OSError (fs : node) (src dst : Path) (e : exn) :
  copy2 fs src dst = Raise e -> is_OSError e = true.
Proof.
  unfold copy2. destruct (path_exists fs src && _); [intros [= <-]; reflexivity |].
  destruct (read_text fs src) eqn:Er; simpl.
  - apply write_file_OSError.
  - intros [= <-]. eapply read_text_OSError, Er.
Qed.

(** A successful copy wrote one file, below the destination's first
    components, read from a regular file that is still there. *)
Lemma copy2_Ok (fs fs' : node) (src dst : Path) :
  copy2 fs src dst = Ok fs' ->
  exists data target,
    resolve fs src = Some (File true data) /\
    dst `prefix_of` target /\ src <> target /\
    write_file fs target data = Ok fs'.
Proof.
  unfold copy2. set (target := if is_dir fs dst then dst ++ [name src] else dst).
  assert (Hpre : dst `prefix_of` target).
  { unfold target. destruct (is_dir fs dst); [now exists [name src] | reflexivity]. }
  destruct (read_text fs src) as [data |] eqn:Er.
  - rewrite (read_text_exists _ _ _ Er). simpl. case_bool_decide as Hne; [discriminate |].
    intros Hw. exists data, target. repeat split; auto.
    unfold read_text in Er.
    destruct (resolve fs src) as [[[] d | l es] |]; congruence.
  - destruct (path_exists fs src && _); discriminate.
Qed.

(** ** [extract_scripts] *)

Import ScriptExtractor.

(** One turn of the copy loop never raises.  It leaves every file outside
    the output directory as it was, and either counts the script, adding
    the size it had before the turn, or records the failure. *)
Lemma copy_one_spec (output_path : Path) (verbose : bool)
    (mod_name : string) (src_path rel_path : Path) (st : stats) (fs : node) :
  exists st' fs',
    copy_one output_path verbose (mod_name, src_path, rel_path) (st, fs)
      = (Ok tt, (st', fs')) /\
    (forall q r x, ~ output_path `prefix_of` q ->
       resolve fs' q = Some (File r x) -> resolve fs q = Some (File r x)) /\
    ((exists data,
        resolve fs src_path = Some (File true data) /\
        st' = mk_stats ({[mod_name]} ∪ mods st) (files st + 1)
                       (total_size st + String.length data) (errors st)) \/
     (exists e,
        st' = mk_stats (mods st) (files st) (total_size st)
                       (errors st ++ [(rel_path, e)]))).
Proof.
  unfold copy_one, try_except, io_bind, on_fs, on_stats, read_fs.
  destruct (mkdir_parents fs (parent (output_path ++ rel_path))) as [fs1 |] eqn:Em.
  2:{ rewrite (OSError_Exception _ (mkdir_parents_OSError _ _ _ Em)).
      eexists _, fs. split; [reflexivity |]. split; [auto |]. right. eauto. }
  destruct (copy2 fs1 src_path (output_path ++ rel_path)) as [fs2 |] eqn:Ec.
  2:{ rewrite (OSError_Exception _ (copy2_OSError _ _ _ _ Ec)).
      eexists _, fs1. split; [reflexivity |]. split; [| right; eauto].
      intros q r x _. apply (mkdir_parents_frame _ _ _ _ _ _ Em). }
  apply copy2_Ok in Ec as (data & target & Hsrc & [k Hpre] & Hne & Hw).
  assert (Hsrc2 : resolve fs2 src_path = Some (File true data))
    by (apply (write_file_frame _ _ _ _ _ _ _ Hw Hne); exact Hsrc).
  unfold st_size. rewrite Hsrc2. simpl.
  eexists _, fs2. split; [reflexivity |]. split.
  - intros q r x Hq H. apply (mkdir_parents_frame _ _ _ _ _ _ Em).
    apply (write_file_frame _ _ _ _ _ _ _ Hw); [| exact H].
    intros ->. apply Hq. exists (rel_path ++ k). now rewrite app_assoc.
  - left. exists data. split; [| reflexivity].
    apply (mkdir_parents_frame _ _ _ _ _ _ Em). exact Hsrc.
Qed.

Lemma size_found_File (fs : node) (script : string * Path * Path) r data :
  resolve fs (snd (fst script)) = Some (File r data) ->
  size_found fs script = String.length data.
Proof. unfold size_found, st_size. now intros ->. Qed.

(** The copy loop: every script is counted or recorded; without failures
    the sizes add up to those the scripts had in [fs0], as long as the files
    outside the output directory are still those of [fs0]. *)
Lemma copy_loop_spec (output_path : Path) (verbose : bool) (fs0 : node)
    (scripts : list (string * Path * Path)) : forall (st : stats) (fs : node),
  (forall q r x, ~ output_path `prefix_of` q ->
     resolve fs q = Some (File r x) -> resolve fs0 q = Some (File r x)) ->
  exists st' fs',
    io_for scripts (copy_one output_path verbose) (st, fs) = (Ok tt, (st', fs')) /\
    files st' + length (errors st') = files st + length (errors st) + length scripts /\
    length (errors st) <= length (errors st') /\
    incl (map fst (errors st')) (map fst (errors st) ++ map snd scripts) /\
    (length (errors st') = length (errors st) ->
     Forall (fun s => ~ output_path `prefix_of` snd (fst s)) scripts ->
     total_size st' = total_size st + list_sum (map (size_found fs0) scripts)).
Proof.
  induction scripts as [| [[mod_name src_path] rel_path] scripts IH]; intros st fs Hinv.
  - exists st, fs. simpl. split; [reflexivity |].
    repeat split; try lia. rewrite app_nil_r. apply incl_refl.
  - destruct (copy_one_spec output_path verbose mod_name src_path rel_path st fs)
      as (st1 & fs1 & Hrun & Hframe & Hcase).
    destruct (IH st1 fs1) as (st' & fs' & Hloop & Hcount & Hmono & Hincl & Hsize).
    { intros q r x Hq H. apply Hinv; [exact Hq |]. now apply Hframe. }
    exists st', fs'. split.
    { cbn [io_for]. unfold io_bind at 1. now rewrite Hrun. }
    simpl length. simpl map.
    destruct Hcase as [(data & Hsrc & ->) | (e & ->)]; simpl in *.
    + repeat split; try lia.
      * intros p Hp. apply Hincl in Hp. rewrite in_app_iff in *. simpl. tauto.
      * intros Hlen Hall. inversion Hall as [| ? ? Hout Hall']; subst.
        rewrite (Hsize Hlen Hall').
        rewrite (size_found_File fs0 (mod_name, src_path, rel_path) true data); [lia |].
        simpl. apply Hinv; assumption.
    + rewrite length_app in *. simpl in *. repeat split; try lia.
      intros p Hp. apply Hincl in Hp. rewrite map_app, !in_app_iff in *. simpl in *. tauto.
Qed.

(** ** The total size when a copy lands on a script *)

(** The claim as stated fails: exported into its own scripts folder, the
    first script is copied over the second before the second is read.  No
    copy fails and both files are counted, but the sizes add up to 2, not to
    the 6 bytes the two scripts had when they were found. *)
Lemma extract_scripts_overlap_total :
  exists scripts st fs',
    find_script_files overlap_root ["m"] = Ok scripts /\
    length scripts = 2 /\
    list_sum (map (size_found overlap_root) scripts) = 6 /\
    extract_scripts ["m"] ["m"; "A"; "gamedata"; "scripts"] false overlap_root
      = (Ok st, fs') /\
    errors st = [] /\ files st = 2 /\ total_size st = 2.
Proof.
  eexists _, _, _. split; [reflexivity |]. split; [reflexivity |].
  split; [reflexivity |]. split; [reflexivity |]. repeat split.
Qed.

(** ** C10: nothing found, nothing written *)

Lemma find_script_files_none (fs : node) (mods_path : Path) (mod_dirs : list Path) :
  iterdir fs mods_path = Ok mod_dirs ->
  (forall mod_dir, In mod_dir mod_dirs ->
     glob_rec fs (mod_dir ++ ["gamedata"; "scripts"]) ".script" = []) ->
  find_script_files fs mods_path = Ok [].
Proof.
  intros Hit Hnone. unfold find_script_files. rewrite Hit. cbn [bind].
  clear Hit. induction mod_dirs as [| mod_dir mod_dirs IH]; [reflexivity |].
  cbn [for_each]. rewrite (Hnone mod_dir) by now left.
  assert (Hstep : (if negb (is_dir fs mod_dir) then Ok []
                   else if negb (path_exists fs (mod_dir ++ ["gamedata"; "scripts"]))
                        then Ok [] else for_each
                          (fun scripts script_file =>
                             do rel_path <- relative_to script_file mods_path;
                             Ok (scripts ++ [(name mod_dir, script_file, rel_path)]))
                          [] []) = Ok ([] : list (string * Path * Path))).
  { destruct (is_dir fs mod_dir); [| reflexivity].
    now destruct (path_exists fs (mod_dir ++ _)). }
  rewrite Hstep. cbn [bind]. apply IH. intros d Hd. apply Hnone. now right.
Qed.

(** C10. When the mods path can be listed and no [.script] file is found
    below the [gamedata/scripts] of any of its entries, [extract_scripts]
    returns statistics with no mod, no file, size zero and no failure, and
    the file system is left exactly as it was: the output directory is not
    created and nothing is written. *)
Theorem extract_scripts_nothing_found (fs : node) (mods_path output_path : Path)
    (verbose : bool) (mod_dirs : list Path) :
  iterdir fs mods_path = Ok mod_dirs ->
  (forall mod_dir, In mod_dir mod_dirs ->
     glob_rec fs (mod_dir ++ ["gamedata"; "scripts"]) ".script" = []) ->
  extract_scripts mods_path output_path verbose fs = (Ok (mk_stats ∅ 0 0 []), fs).
Proof.
  intros Hit Hnone. unfold extract_scripts.
  now rewrite (find_script_files_none _ _ _ Hit Hnone).
Qed.

Lemma extract_scripts_nothing_found_witness :
  iterdir lua_only_root ["m"] = Ok [["m"; "A"]; ["m"; "readme.txt"]] /\
  path_exists lua_only_root ["out"] = false /\
  extract_scripts ["m"] ["out"] false lua_only_root
    = (Ok (mk_stats ∅ 0 0 []), lua_only_root).
Proof.
  assert (H : iterdir lua_only_root ["m"] = Ok [["m"; "A"]; ["m"; "readme.txt"]])
    by reflexivity.
  split; [exact H |]. split; [reflexivity |].
  apply (extract_scripts_nothing_found lua_only_root ["m"] ["out"] false _ H).
  intros mod_dir [<- | [<- | []]]; reflexivity.
Defined.

(** ** Chunk arithmetic *)

Lemma ceil_div_spec (n c : Z) :
  (0 < c)%Z ->
  ((ceil_div n c - 1) * c < n <= ceil_div n c * c)%Z.
Proof.
  intros Hc. unfold ceil_div.
  pose proof (Z.div_mod (- n) c) as Hdm.
  pose proof (Z.mod_pos_bound (- n) c Hc) as Hb. nia.
Qed.

Lemma slice_index_id (len i : Z) : (0 <= i <= len)%Z -> slice_index len i = i.
Proof. unfold slice_index. intros H. destruct (Z.ltb_spec i 0); lia. Qed.

Lemma slice_inside {A} (l : list A) (a b : Z) :
  (0 <= a <= b)%Z -> (b <= Z.of_nat (length l))%Z ->
  slice l a b = firstn (Z.to_nat b - Z.to_nat a) (skipn (Z.to_nat a) l).
Proof.
  intros Ha Hb. unfold slice. rewrite !slice_index_id by lia.
  f_equal. lia.
Qed.

Section Chunks.

Context (mods : list (Path * nat)) (c : Z) (Hc : (0 < c)%Z).

Let n : Z := Z.of_nat (length mods).
Let k : nat := Z.to_nat (ceil_div n c).

Lemma chunk_count_bounds : ((Z.of_nat k - 1) * c < n <= Z.of_nat k * c)%Z.
Proof.
  pose proof (ceil_div_spec n c Hc) as H. unfold k.
  assert (0 <= ceil_div n c)%Z by (unfold n in *; nia).
  now rewrite Z2Nat.id.
Qed.

Lemma chunk_of_take (i : nat) :
  i < k ->
  SplitTest.chunk_of mods c i =
  firstn (Z.to_nat (Z.min c (n - Z.of_nat i * c)))
         (skipn (Z.to_nat (Z.of_nat i * c)) mods).
Proof.
  intros Hi. pose proof chunk_count_bounds as Hk. unfold SplitTest.chunk_of. fold n.
  assert (Z.of_nat i * c < n)%Z by nia.
  rewrite slice_inside by (unfold n in *; nia). f_equal. nia.
Qed.

Lemma chunk_of_length (i : nat) :
  i < k ->
  Z.of_nat (length (SplitTest.chunk_of mods c i)) = Z.min c (n - Z.of_nat i * c).
Proof.
  intros Hi. pose proof chunk_count_bounds as Hk.
  assert (Z.of_nat i * c < n)%Z by nia.
  rewrite chunk_of_take, length_take, length_drop by exact Hi. unfold n in *. nia.
Qed.

Lemma chunks_concat_take (j : nat) :
  j <= k ->
  concat (map (SplitTest.chunk_of mods c) (seq 0 j)) =
  firstn (Z.to_nat (Z.min (Z.of_nat j * c) n)) mods.
Proof.
  pose proof chunk_count_bounds as Hk.
  induction j as [| j IH]; intros Hj.
  - simpl. now rewrite Z.min_l by (unfold n; lia).
  - rewrite seq_S, map_app, concat_app, IH by lia. simpl. rewrite app_nil_r.
    assert (Z.of_nat j * c < n)%Z by nia.
    rewrite chunk_of_take by lia.
    rewrite Z.min_l by lia. rewrite take_take_drop. f_equal. nia.
Qed.

Lemma chunks_concat : concat (map (SplitTest.chunk_of mods c) (seq 0 k)) = mods.
Proof.
  pose proof chunk_count_bounds as Hk.
  rewrite chunks_concat_take by lia. apply take_ge. unfold n in *. lia.
Qed.

End Chunks.

(** Archive numbers are told apart by their two digits and more. *)
Lemma pretty_N_go_head (x : N) : forall s,
  (0 < x)%N -> exists a t, pretty_N_go x s = String a t /\ a <> "0"%char.
Proof.
  induction (N.lt_wf_0 x) as [x _ IH]; intros s Hx.
  rewrite pretty_N_go_step by exact Hx.
  destruct (N.eq_dec (x `div` 10)%N 0%N) as [Hd | Hd].
  2: apply N.neq_0_lt_0 in Hd.
  - rewrite Hd, pretty_N_go_0. eexists _, _. split; [reflexivity |].
    assert (x < 10)%N by (apply N.div_small_iff in Hd; lia).
    rewrite N.mod_small by assumption.
    assert (x = 1 \/ x = 2 \/ x = 3 \/ x = 4 \/ x = 5 \/ x = 6
            \/ x = 7 \/ x = 8 \/ x = 9)%N as Hcases by lia.
    destruct Hcases as [-> | [-> | [-> | [-> | [-> | [-> | [-> | [-> | ->]]]]]]]];
      discriminate.
  - apply IH; [| exact Hd]. apply N.div_lt; lia.
Qed.

Lemma pad2_inj (i j : nat) : pad2 i = pad2 j -> i = j.
Proof.
  assert (Hhead : forall m, 10 <= m -> forall t, pretty m <> String "0" t).
  { intros m Hm t. unfold pretty, pretty_nat, pretty, pretty_N.
    destruct (decide (N.of_nat m = 0%N)); [lia |].
    destruct (pretty_N_go_head (N.of_nat m) "") as (a & t' & -> & Ha); [lia |].
    congruence. }
  unfold pad2.
  destruct (Nat.ltb_spec i 10) as [Hi | Hi], (Nat.ltb_spec j 10) as [Hj | Hj];
    intros Heq.
  - apply (inj (String.app "0")) in Heq. now apply (inj pretty) in Heq.
  - symmetry in Heq. now apply (Hhead j Hj (pretty i)) in Heq.
  - now apply (Hhead i Hi (pretty j)) in Heq.
  - now apply (inj pretty) in Heq.
Qed.

Lemma string_length_app (s t : string) :
  String.length (s ++ t) = String.length s + String.length t.
Proof. induction s as [| a s IH]; simpl; [reflexivity | now rewrite IH]. Qed.

Lemma string_app_inj_r (s t x : string) : (s ++ x = t ++ x)%string -> s = t.
Proof.
  revert t. induction s as [| a s IH]; intros [| b t] H.
  - reflexivity.
  - apply (f_equal String.length) in H.
    rewrite !string_length_app in H. simpl in H. lia.
  - apply (f_equal String.length) in H.
    rewrite !string_length_app in H. simpl in H. lia.
  - change (String a (s ++ x) = String b (t ++ x))%string in H.
    injection H as -> H. f_equal. now apply IH.
Qed.

Lemma chunk_name_inj (i j : nat) :
  SplitTest.chunk_name i = SplitTest.chunk_name j -> i = j.
Proof.
  unfold SplitTest.chunk_name. intros H%(inj (String.app "mods_chunk_")).
  now apply pad2_inj, (string_app_inj_r _ _ ".zip").
Qed.

Lemma write_file_result (p : Path) : forall (fs fs' : node) (d : string),
  write_file fs p d = Ok fs' -> resolve fs' p = Some (File true d).
Proof.
  induction p as [| c p IH]; intros fs fs' d; simpl.
  - destruct fs; [| discriminate]. now intros [= <-].
  - destruct fs as [r0 d0 | l es]; [discriminate |].
    destruct (entry_lookup c es) as [ch |] eqn:E.
    + destruct (write_file ch p d) as [ch' |] eqn:Ew; simpl; [| discriminate].
      intros [= <-]. simpl. rewrite (entry_lookup_update_eq _ _ _ _ E). eauto.
    + destruct p; [| discriminate]. intros [= <-]. simpl.
      now rewrite (entry_lookup_app_new _ _ _ E).
Qed.

Lemma StronglySorted_filter_le (f : Path -> bool) (l : list Path) :
  StronglySorted path_le l -> StronglySorted path_le (List.filter f l).
Proof.
  induction 1 as [| x l Hs IH Hx]; simpl; [constructor |].
  destruct (f x); [| exact IH]. constructor; [exact IH |].
  rewrite List.Forall_forall in *. intros y Hy. apply Hx.
  now apply filter_In in Hy.
Qed.

(** [get_mods] keeps the order of the sorted listing. *)
Lemma get_mods_sorted (fs : node) (mods_path : Path) (mods : list (Path * nat)) :
  SplitTest.get_mods fs mods_path = Ok mods ->
  StronglySorted path_le (map fst mods).
Proof.
  unfold SplitTest.get_mods.
  destruct (iterdir fs mods_path) as [items |]; simpl; [| discriminate].
  intros [= <-].
  set (keep := fun item : Path =>
         is_dir fs item && path_exists fs (item ++ ["gamedata"; "scripts"]) &&
         (0 <? length (glob_here fs (item ++ ["gamedata"; "scripts"]) ".script"))%nat).
  assert (Hfold : forall l acc,
    map fst (fold_left
      (fun (mods : list (Path * nat)) (item : Path) =>
         if is_dir fs item then
           if path_exists fs (item ++ ["gamedata"; "scripts"]) then
             if (0 <? length (glob_here fs (item ++ ["gamedata"; "scripts"]) ".script"))%nat
             then mods ++ [(item, length (glob_here fs (item ++ ["gamedata"; "scripts"]) ".script"))]
             else mods
           else mods
         else mods) l acc) = map fst acc ++ List.filter keep l).
  { induction l as [| item l IH]; intros acc; simpl.
    - now rewrite app_nil_r.
    - rewrite IH. unfold keep at 2.
      destruct (is_dir fs item); simpl; [| reflexivity].
      destruct (path_exists fs (item ++ _)); simpl; [| reflexivity].
      destruct (0 <? _)%nat; simpl; [| reflexivity].
      now rewrite map_app, <- app_assoc. }
  rewrite Hfold. simpl. apply StronglySorted_filter_le, sorted_sorted.
Qed.

(** ** Listings only grow under writes *)

Lemma entry_update_names (c : string) (n : node) (es : list (string * node)) :
  map fst (entry_update c n es) = map fst es.
Proof.
  induction es as [| [c' n'] es IH]; simpl; [reflexivity |].
  destruct (String.eqb c c'); simpl; [reflexivity | now rewrite IH].
Qed.

Lemma write_file_grows (p : Path) : forall (fs fs' : node) (d : string),
  write_file fs p d = Ok fs' -> grows fs fs'.
Proof.
  induction p as [| c p IH]; intros fs fs' d; simpl.
  - destruct fs as [r0 d0 | l0 es0]; [| discriminate]. intros [= <-] dir l es.
    destruct dir; discriminate.
  - destruct fs as [r0 d0 | l0 es0]; [discriminate |].
    destruct (entry_lookup c es0) as [ch |] eqn:E.
    + destruct (write_file ch p d) as [ch' |] eqn:Ew; simpl; [| discriminate].
      intros [= <-] dir l es. destruct dir as [| c2 dir]; simpl.
      * intros [= <- <-]. eexists. split; [reflexivity |].
        rewrite entry_update_names. apply incl_refl.
      * destruct (String.eqb_spec c2 c) as [-> | Hne].
        -- rewrite (entry_lookup_update_eq _ _ _ _ E), E. apply (IH _ _ _ Ew).
        -- rewrite entry_lookup_update_ne by exact Hne.
           intros H. exists es. split; [exact H | apply incl_refl].
    + destruct p; [| discriminate]. intros [= <-] dir l es.
      destruct dir as [| c2 dir]; simpl.
      * intros [= <- <-]. eexists. split; [reflexivity |].
        rewrite map_app. now apply incl_appl, incl_refl.
      * destruct (String.eqb_spec c2 c) as [-> | Hne].
        -- now rewrite E.
        -- rewrite entry_lookup_app_ne by exact Hne.
           intros H. exists es. split; [exact H | apply incl_refl].
Qed.

Lemma mkdir_parents_grows (p : Path) : forall (fs fs' : node),
  mkdir_parents fs p = Ok fs' -> grows fs fs'.
Proof.
  induction p as [| c p IH]; intros fs fs'; simpl.
  - destruct fs; [discriminate |]. intros [= <-] dir l es H.
    exists es. split; [exact H | apply incl_refl].
  - destruct fs as [r0 d0 | l0 es0]; [discriminate |].
    destruct (entry_lookup c es0) as [ch |] eqn:E.
    + destruct (mkdir_parents ch p) as [ch' |] eqn:Em; simpl; [| discriminate].
      intros [= <-] dir l es. destruct dir as [| c2 dir]; simpl.
      * intros [= <- <-]. eexists. split; [reflexivity |].
        rewrite entry_update_names. apply incl_refl.
      * destruct (String.eqb_spec c2 c) as [-> | Hne].
        -- rewrite (entry_lookup_update_eq _ _ _ _ E), E. apply (IH _ _ Em).
        -- rewrite entry_lookup_update_ne by exact Hne.
           intros H. exists es. split; [exact H | apply incl_refl].
    + destruct (mkdir_parents (Dir true []) p) as [ch' |] eqn:Em; simpl; [| discriminate].
      intros [= <-] dir l es. destruct dir as [| c2 dir]; simpl.
      * intros [= <- <-]. eexists. split; [reflexivity |].
        rewrite map_app. now apply incl_appl, incl_refl.
      * destruct (String.eqb_spec c2 c) as [-> | Hne].
        -- now rewrite E.
        -- rewrite entry_lookup_app_ne by exact Hne.
           intros H. exists es. split; [exact H | apply incl_refl].
Qed.

Lemma grows_keeps_listing (fs fs' : node) : grows fs fs' -> keeps_listing fs fs'.
Proof.
  intros Hg dir suffix q. unfold glob_here.
  destruct (resolve fs dir) as [[r d | [] es] |] eqn:E; simpl; try contradiction.
  destruct (Hg _ _ _ E) as (es' & -> & Hincl). simpl.
  intros (c & ch & Hin & Hs & ->)%in_matching.
  assert (Hc : In c (map fst es')).
  { apply Hincl, in_map_iff. now exists (c, ch). }
  apply in_map_iff in Hc as ([c' ch'] & <- & Hin').
  apply in_matching. now exists c', ch'.
Qed.

Lemma keeps_listing_refl (fs : node) : keeps_listing fs fs.
Proof. now intros dir suffix q. Qed.

Lemma keeps_listing_trans (fs1 fs2 fs3 : node) :
  keeps_listing fs1 fs2 -> keeps_listing fs2 fs3 -> keeps_listing fs1 fs3.
Proof. intros H1 H2 dir suffix q H. now apply H2, H1. Qed.

(** ** The splitter's command line *)

Import SplitTest.

Section Splitter.

Variable zip_encode : list (string * string) -> string.

Lemma get_path_given (a : args) (answer : option string) (w : world) (p : Path) :
  given_path a answer = Some p ->
  get_path a answer w = (Ok p, mk_world (fs w) (stdout w ++ prompted a)).
Proof.
  unfold given_path, get_path, prompted. destruct w as [fs0 out0].
  destruct (str_truthy (arg_path a)) as [s |].
  - intros [= <-]. unfold io_ret. simpl. now rewrite app_nil_r.
  - destruct answer as [line |]; [| discriminate].
    unfold input, io_bind, print_end, io_ret. simpl.
    destruct (String.eqb (strip line) ""); [discriminate |]. now intros [= <-].
Qed.

Lemma get_path_missing (a : args) (answer : option string) (w : world) :
  given_path a answer = None ->
  exists e w', get_path a answer w = (Raise e, w') /\ fs w' = fs w /\
               exit_code (Raise e) = 1%Z.
Proof.
  unfold given_path, get_path. destruct (str_truthy (arg_path a)) as [s |]; [discriminate |].
  unfold input, io_bind, print, print_end, io_ret, io_raise, sys_exit.
  destruct answer as [line |]; simpl.
  - destruct (String.eqb (strip line) ""); [| discriminate].
    intros _. eexists _, _. repeat split.
  - intros _. eexists _, _. repeat split.
Qed.

Lemma print_lines (mods : list (Path * nat)) (w : world) :
  io_for mods (fun '(mod_path, count) =>
    print ("  " ++ name mod_path ++ ": " ++ pretty count ++ " scripts")) w =
  (Ok tt, mk_world (fs w) (stdout w ++ map list_line mods)).
Proof.
  revert w. induction mods as [| [mod_path count] mods IH]; intros [fs0 out0]; simpl.
  - unfold io_ret. simpl. now rewrite app_nil_r.
  - unfold io_bind at 1. unfold print at 1, print_end. simpl.
    rewrite IH. simpl. now rewrite <- app_assoc.
Qed.

(** [main] once the path is known to exist and the mods are found. *)
Lemma main_found (a : args) (answer : option string) (cwd : Path) (w : world)
    (p : Path) (mods : list (Path * nat)) :
  given_path a answer = Some p ->
  path_exists (fs w) p = true ->
  get_mods (fs w) p = Ok mods ->
  let w1 := mk_world (fs w) (stdout w ++ prompted a ++ found_lines p mods) in
  main zip_encode a answer cwd w =
  (if negb (truthy mods) then print "No mods found." ;; sys_exit 1
   else if arg_list a then
     print (LF ++ "Mods:") ;;
     io_for mods (fun '(mod_path, count) =>
       print ("  " ++ name mod_path ++ ": " ++ pretty count ++ " scripts")) ;;
     sys_exit 0
   else split_mods zip_encode a cwd mods) w1.
Proof.
  intros Hg Hex Hmods w1. unfold main.
  unfold io_bind at 1. rewrite (get_path_given _ _ _ _ Hg).
  unfold io_bind at 1. unfold query_fs at 1. cbn [fs stdout]. rewrite Hex. cbn [negb].
  unfold io_bind at 1. unfold print at 1, print_end at 1. cbn [fs stdout].
  unfold io_bind at 1. unfold query_fs at 1. cbn [fs stdout]. rewrite Hmods.
  unfold io_bind at 1. unfold print at 1, print_end at 1. cbn [fs stdout].
  unfold w1, found_lines. now rewrite <- !app_assoc.
Qed.

Lemma main_no_path (a : args) (answer : option string) (cwd : Path) (w : world) :
  given_path a answer = None ->
  exists e w', main zip_encode a answer cwd w = (Raise e, w') /\ fs w' = fs w /\
               exit_code (Raise e) = 1%Z.
Proof.
  intros Hg. destruct (get_path_missing a answer w Hg) as (e & w' & Hrun & Hfs & He).
  exists e, w'. unfold main. unfold io_bind at 1. now rewrite Hrun.
Qed.

Lemma main_missing (a : args) (answer : option string) (cwd : Path) (w : world)
    (p : Path) :
  given_path a answer = Some p -> path_exists (fs w) p = false ->
  exists w', main zip_encode a answer cwd w = (Raise (SystemExit 1), w') /\
             fs w' = fs w.
Proof.
  intros Hg Hex. unfold main.
  unfold io_bind at 1. rewrite (get_path_given _ _ _ _ Hg).
  unfold io_bind at 1. unfold query_fs at 1. cbn [fs stdout]. rewrite Hex.
  eexists. split; reflexivity.
Qed.

Lemma main_unlisted (a : args) (answer : option string) (cwd : Path) (w : world)
    (p : Path) (e : exn) :
  given_path a answer = Some p -> path_exists (fs w) p = true ->
  get_mods (fs w) p = Raise e ->
  exists w', main zip_encode a answer cwd w = (Raise e, w') /\ fs w' = fs w.
Proof.
  intros Hg Hex Hmods. unfold main.
  unfold io_bind at 1. rewrite (get_path_given _ _ _ _ Hg).
  unfold io_bind at 1. unfold query_fs at 1. cbn [fs stdout]. rewrite Hex. cbn [negb].
  unfold io_bind at 1. unfold print at 1, print_end at 1. cbn [fs stdout].
  unfold io_bind at 1. unfold query_fs at 1. cbn [fs stdout]. rewrite Hmods.
  eexists. split; reflexivity.
Qed.

Lemma main_no_mods (a : args) (answer : option string) (cwd : Path) (w : world)
    (p : Path) :
  given_path a answer = Some p -> path_exists (fs w) p = true ->
  get_mods (fs w) p = Ok [] ->
  exists w', main zip_encode a answer cwd w = (Raise (SystemExit 1), w') /\
             fs w' = fs w.
Proof.
  intros Hg Hex Hmods. rewrite (main_found a answer cwd w p [] Hg Hex Hmods).
  eexists. split; reflexivity.
Qed.

Lemma main_list (a : args) (answer : option string) (cwd : Path) (w : world)
    (p : Path) (mods : list (Path * nat)) :
  given_path a answer = Some p -> path_exists (fs w) p = true ->
  get_mods (fs w) p = Ok mods -> mods <> [] -> arg_list a = true ->
  main zip_encode a answer cwd w =
  (Raise (SystemExit 0),
   mk_world (fs w) (stdout w ++ prompted a ++ found_lines p mods ++
                    [mods_heading] ++ map list_line mods)).
Proof.
  intros Hg Hex Hmods Hne Hl. rewrite (main_found a answer cwd w p mods Hg Hex Hmods).
  destruct mods as [| m mods]; [congruence |].
  cbn [truthy negb]. rewrite Hl.
  unfold io_bind at 1. unfold print at 1, print_end at 1. cbn [fs stdout].
  unfold io_bind at 1. rewrite print_lines. cbn [fs stdout].
  unfold sys_exit, io_raise. now rewrite <- !app_assoc.
Qed.

Lemma string_app_assoc (a b c : string) : (a ++ b ++ c = (a ++ b) ++ c)%string.
Proof.
  induction a as [| x a IH]; [reflexivity |].
  change (String x (a ++ b ++ c) = String x ((a ++ b) ++ c))%string. now rewrite IH.
Qed.

Lemma startswith_app (s p t : string) :
  startswith s p = true -> startswith (s ++ t) p = true.
Proof.
  revert s. induction p as [| b p IH]; intros s; [reflexivity |].
  destruct s as [| a s]; [discriminate |].
  change (String a s ++ t)%string with (String a (s ++ t)). cbn [startswith].
  intros [-> H]%andb_true_iff. now rewrite (IH _ H).
Qed.

Lemma startswith_refl (p : string) : startswith p p = true.
Proof.
  induction p as [| a p IH]; [reflexivity |]. cbn [startswith].
  now rewrite Ascii.eqb_refl, IH.
Qed.

Lemma arc_path_member_of (mod_path file : Path) (data : string) :
  member_of mod_path ((name mod_path ++ "/gamedata/scripts/" ++ name file)%string, data).
Proof.
  unfold member_of. cbn [fst]. rewrite string_app_assoc.
  apply startswith_app, startswith_refl.
Qed.

Lemma zf_write_Ok (fs1 : node) (mod_path file : Path)
    (members members' : list (string * string)) :
  zf_write fs1 file (name mod_path ++ "/gamedata/scripts/" ++ name file)%string members
    = (Ok tt, members') ->
  exists m, members' = members ++ [m] /\ member_of mod_path m.
Proof.
  unfold zf_write. destruct (resolve fs1 file) as [[[] data | l es] |]; try discriminate.
  - intros [= <-]. eexists. split; [reflexivity | apply arc_path_member_of].
  - intros [= <-]. eexists. split; [reflexivity |].
    unfold member_of. cbn [fst]. apply startswith_app, (arc_path_member_of _ _ "").
Qed.

Lemma zf_loop_Ok (fs1 : node) (mod_path : Path) (files : list Path) :
  forall (members members' : list (string * string)),
  io_for files
    (fun file =>
       zf_write fs1 file (name mod_path ++ "/gamedata/scripts/" ++ name file)%string)
    members = (Ok tt, members') ->
  exists group, members' = members ++ group /\ length group = length files /\
                Forall (member_of mod_path) group.
Proof.
  induction files as [| file files IH]; intros members members'; simpl.
  - unfold io_ret. intros [= <-]. exists []. now rewrite app_nil_r.
  - unfold io_bind at 1.
    destruct (zf_write fs1 file _ members) as [[[] | e] members1] eqn:E; [| discriminate].
    apply zf_write_Ok in E as (m & -> & Hm).
    intros (group & -> & Hlen & Hall)%IH.
    exists (m :: group). rewrite <- app_assoc. simpl. repeat split; auto.
Qed.

(** The members a chunk puts into its archive come mod by mod, and a mod
    gives at least as many as it has [.script] entries. *)
Lemma zip_mods_Ok (fs1 : node) (chunk : list (Path * nat)) :
  forall (members members' : list (string * string)),
  zip_mods fs1 chunk members = (Ok tt, members') ->
  exists groups,
    members' = members ++ concat groups /\
    Forall2 (fun m group =>
               length (glob_here fs1 (fst m ++ ["gamedata"; "scripts"]) ".script")
                 <= length group /\
               Forall (member_of (fst m)) group)
            chunk groups.
Proof.
  unfold zip_mods.
  induction chunk as [| [mod_path count] chunk IH]; intros members members'; simpl.
  - unfold io_ret. intros [= <-]. exists []. simpl. rewrite app_nil_r. split; constructor.
  - unfold io_bind at 1. unfold io_bind at 1.
    destruct (io_for (glob_here fs1 _ ".script") _ members) as [[[] | e] members1] eqn:E1;
      [| discriminate].
    apply zf_loop_Ok in E1 as (g1 & -> & Hlen1 & Hall1).
    destruct (io_for (glob_here fs1 _ ".bak") _ _) as [[[] | e] members2] eqn:E2;
      [| discriminate].
    apply zf_loop_Ok in E2 as (g2 & -> & Hlen2 & Hall2).
    intros (groups & -> & Hgroups)%IH.
    exists ((g1 ++ g2) :: groups). simpl. rewrite <- !app_assoc. split; [reflexivity |].
    constructor; [| exact Hgroups]. cbn [fst]. rewrite length_app. split; [lia |].
    apply Forall_app. now split.
Qed.

Lemma get_mods_scripts (fs0 : node) (mods_path : Path) (mods : list (Path * nat)) :
  get_mods fs0 mods_path = Ok mods ->
  Forall (fun m => 0 < length (glob_here fs0 (fst m ++ ["gamedata"; "scripts"]) ".script"))
         mods.
Proof.
  unfold get_mods.
  destruct (iterdir fs0 mods_path) as [items |]; simpl; [| discriminate].
  intros [= <-].
  set (has_scripts := fun m : Path * nat =>
         0 < length (glob_here fs0 (fst m ++ ["gamedata"; "scripts"]) ".script")).
  assert (Hfold : forall l acc, Forall has_scripts acc ->
    Forall has_scripts (fold_left
      (fun (mods : list (Path * nat)) (item : Path) =>
         if is_dir fs0 item then
           if path_exists fs0 (item ++ ["gamedata"; "scripts"]) then
             if (0 <? length (glob_here fs0 (item ++ ["gamedata"; "scripts"]) ".script"))%nat
             then mods ++ [(item, length (glob_here fs0 (item ++ ["gamedata"; "scripts"]) ".script"))]
             else mods
           else mods
         else mods) l acc)).
  { induction l as [| item l IH]; intros acc Hacc; simpl; [exact Hacc |].
    apply IH. destruct (is_dir fs0 item); [| exact Hacc].
    destruct (path_exists fs0 (item ++ _)); [| exact Hacc].
    destruct (Nat.ltb_spec 0 (length (glob_here fs0 (item ++ ["gamedata"; "scripts"]) ".script")));
      [| exact Hacc].
    apply Forall_app. split; [exact Hacc |]. now constructor. }
  apply Hfold. constructor.
Qed.

(** A chunk archive that was written: its path, its contents, and every
    other file as before. *)
Lemma create_chunk_zip_Ok (chunk : list (Path * nat)) (num : nat) (out : Path)
    (w w' : world) (zp : Path) :
  create_chunk_zip zip_encode chunk num out w = (Ok zp, w') ->
  zp = out ++ [chunk_name num] /\
  (exists fs1 members,
     keeps_listing (fs w) fs1 /\
     zip_mods fs1 chunk [] = (Ok tt, members) /\
     resolve (fs w') zp = Some (File true (zip_encode members))) /\
  (forall q r x, q <> zp ->
     (resolve (fs w') q = Some (File r x) <-> resolve (fs w) q = Some (File r x))) /\
  keeps_listing (fs w) (fs w').
Proof.
  unfold create_chunk_zip, io_bind, update_fs. fold (chunk_name num).
  destruct (write_file (fs w) (out ++ [chunk_name num]) (zip_encode [])) as [fs1 |] eqn:E1;
    [| discriminate].
  cbn [fs stdout].
  destruct (zip_mods fs1 chunk []) as [r members] eqn:Ez.
  destruct (write_file fs1 (out ++ [chunk_name num]) (zip_encode members)) as [fs2 |] eqn:E2;
    [| discriminate].
  destruct r as [[] | e]; [| discriminate]. intros [= <- <-]. cbn [fs].
  pose proof (grows_keeps_listing _ _ (write_file_grows _ _ _ _ E1)) as Hk1.
  pose proof (grows_keeps_listing _ _ (write_file_grows _ _ _ _ E2)) as Hk2.
  split; [reflexivity |]. split; [| split].
  - exists fs1, members. split; [exact Hk1 |]. split; [exact Ez |].
    eapply write_file_result, E2.
  - intros q r x Hq.
    rewrite (write_file_frame _ _ _ _ _ r x E2 Hq).
    apply (write_file_frame _ _ _ _ _ r x E1 Hq).
  - eapply keeps_listing_trans; eassumption.
Qed.

Lemma write_chunk_Ok (mods : list (Path * nat)) (c k : Z) (out : Path) (i : nat)
    (w w' : world) :
  write_chunk zip_encode mods c k out i w = (Ok tt, w') ->
  (exists fs1 members,
     keeps_listing (fs w) fs1 /\
     zip_mods fs1 (chunk_of mods c i) [] = (Ok tt, members) /\
     resolve (fs w') (out ++ [chunk_name (i + 1)])
       = Some (File true (zip_encode members))) /\
  (forall q r x, q <> out ++ [chunk_name (i + 1)] ->
     (resolve (fs w') q = Some (File r x) <-> resolve (fs w) q = Some (File r x))) /\
  keeps_listing (fs w) (fs w').
Proof.
  unfold write_chunk. fold (chunk_of mods c i).
  unfold io_bind at 1. unfold print_end at 1.
  unfold io_bind at 1.
  destruct (create_chunk_zip zip_encode (chunk_of mods c i) (i + 1) out _)
    as [[zp | e] w1] eqn:Ezip; [| discriminate].
  apply create_chunk_zip_Ok in Ezip as (-> & Harch & Hframe & Hkeep).
  cbn [fs stdout] in Harch, Hframe, Hkeep.
  unfold io_bind, query_fs, print, print_end.
  destruct (st_size (fs w1) (out ++ [chunk_name (i + 1)])); [| discriminate].
  intros [= <-]. cbn [fs].
  split; [exact Harch | split; [exact Hframe | exact Hkeep]].
Qed.

Lemma chunk_loop_Ok (mods : list (Path * nat)) (c k : Z) (out : Path) :
  forall (l : list nat) (w w' : world),
  List.NoDup l ->
  io_for l (write_chunk zip_encode mods c k out) w = (Ok tt, w') ->
  (forall i, In i l -> exists fs1 members,
     keeps_listing (fs w) fs1 /\
     zip_mods fs1 (chunk_of mods c i) [] = (Ok tt, members) /\
     resolve (fs w') (out ++ [chunk_name (i + 1)])
       = Some (File true (zip_encode members))) /\
  (forall q r x, (forall i, In i l -> q <> out ++ [chunk_name (i + 1)]) ->
     (resolve (fs w') q = Some (File r x) <-> resolve (fs w) q = Some (File r x))).
Proof.
  induction l as [| i l IH]; intros w w' Hnd; simpl.
  - unfold io_ret. intros [= <-]. split; [intros i [] | reflexivity].
  - apply List.NoDup_cons_iff in Hnd as [Hi Hnd]. unfold io_bind at 1.
    destruct (write_chunk zip_encode mods c k out i w) as [[[] | e] w1] eqn:E1;
      [| discriminate].
    intros Hloop.
    apply write_chunk_Ok in E1 as ((fs1 & members & Hk1 & Hz & Hres) & Hframe1 & Hkeep1).
    destruct (IH w1 w' Hnd Hloop) as [Harch Hframe]. split.
    + intros j [<- | Hj].
      * exists fs1, members. split; [exact Hk1 |]. split; [exact Hz |].
        apply Hframe; [| exact Hres].
        intros j Hj Heq. apply app_inv_head in Heq.
        apply (f_equal (fun names => List.hd "" names)) in Heq. cbn [List.hd] in Heq.
        apply chunk_name_inj in Heq. assert (i = j) by lia. congruence.
      * destruct (Harch j Hj) as (fs2 & members2 & Hk2 & Hrest).
        exists fs2, members2. split; [| exact Hrest].
        eapply keeps_listing_trans; eassumption.
    + intros q r x Hq. rewrite Hframe by (intros j Hj; apply Hq; now right).
      apply Hframe1. apply Hq. now left.
Qed.

Lemma split_mods_Ok (a : args) (cwd : Path) (mods : list (Path * nat)) (w w' : world) :
  (0 < arg_chunks a)%Z ->
  split_mods zip_encode a cwd mods w = (Ok tt, w') ->
  let k := Z.to_nat (ceil_div (Z.of_nat (length mods)) (arg_chunks a)) in
  let out := output_dir a cwd in
  (forall i, i < k -> exists fs1 members,
     keeps_listing (fs w) fs1 /\
     zip_mods fs1 (chunk_of mods (arg_chunks a) i) [] = (Ok tt, members) /\
     resolve (fs w') (out ++ [chunk_name (i + 1)])
       = Some (File true (zip_encode members))) /\
  (forall q r x, (forall i, i < k -> q <> out ++ [chunk_name (i + 1)]) ->
     (resolve (fs w') q = Some (File r x) <-> resolve (fs w) q = Some (File r x))).
Proof.
  intros Hc. unfold split_mods. fold (output_dir a cwd).
  destruct (Z.eqb_spec (arg_chunks a) 0) as [? | _]; [lia |].
  unfold io_bind at 1. unfold io_ret at 1.
  unfold io_bind at 1. unfold print at 1, print_end at 1.
  unfold io_bind at 1. unfold update_fs at 1. cbn [fs stdout].
  destruct (mkdir_parents (fs w) (output_dir a cwd)) as [fs1 |] eqn:Em; [| discriminate].
  unfold io_bind at 1.
  destruct (io_for _ _ _) as [[[] | e] w2] eqn:Eloop; [| discriminate].
  unfold print, print_end. intros [= <-]. cbv zeta. cbn [fs].
  apply chunk_loop_Ok in Eloop as [Harch Hframe]; [| apply seq_NoDup].
  cbn [fs] in Harch, Hframe. split.
  - intros i Hi. destruct (Harch i) as (fs2 & members & Hk & Hrest); [apply in_seq; lia |].
    exists fs2, members. split; [| exact Hrest].
    eapply keeps_listing_trans; [| exact Hk].
    eapply grows_keeps_listing, mkdir_parents_grows, Em.
  - intros q r x Hq. rewrite Hframe.
    + apply (mkdir_parents_frame _ _ _ _ _ _ Em).
    + intros i Hi. apply Hq. apply in_seq in Hi. lia.
Qed.

(** The mods of a chunk are among the mods. *)
Lemma chunk_of_incl (mods : list (Path * nat)) (c : Z) (i : nat) :
  incl (chunk_of mods c i) mods.
Proof.
  unfold chunk_of, slice. intros m Hm.
  apply list_elem_of_In in Hm. apply list_elem_of_In.
  eapply elem_of_sublist; [| apply sublist_drop].
  eapply elem_of_sublist; [exact Hm | apply sublist_take].
Qed.

(** What an archive holds, mod by mod. *)
Lemma archive_holds_mods (fs0 fs1 : node) (chunk : list (Path * nat))
    (members : list (string * string)) :
  Forall (fun m => 0 < length (glob_here fs0 (fst m ++ ["gamedata"; "scripts"]) ".script"))
         chunk ->
  keeps_listing fs0 fs1 ->
  zip_mods fs1 chunk [] = (Ok tt, members) ->
  exists groups, members = concat groups /\ holds_mods chunk groups.
Proof.
  intros Hscripts Hkeep (groups & -> & Hgroups)%zip_mods_Ok.
  exists groups. split; [reflexivity |]. unfold holds_mods.
  induction Hgroups as [| m group chunk groups [Hlen Hall] _ IH]; [constructor |].
  apply Forall_cons in Hscripts as [Hm Hscripts].
  constructor; [| now apply IH]. split; [| exact Hall].
  destruct (glob_here fs0 (fst m ++ ["gamedata"; "scripts"]) ".script") as [| q l] eqn:E;
    [simpl in Hm; lia |].
  assert (Hq : In q (glob_here fs1 (fst m ++ ["gamedata"; "scripts"]) ".script")).
  { apply Hkeep. rewrite E. now left. }
  destruct (glob_here fs1 _ ".script"); [destruct Hq |].
  destruct group; [simpl in Hlen; lia | discriminate].
Qed.

(** ** C9: exit codes and the dry run *)

(** C9. The splitter exits with code 1 when no path is given, when the
    given path does not exist, and when no mods are found under it.  With
    [--list] it leaves the file system as it found it, whatever it finds:
    no archive is created; and when there are mods it prints one line per
    mod with its name and script count, and exits with code 0. *)
Theorem main_exit_codes (a : args) (answer : option string) (cwd : Path) (w : world) :
  let outcome := main zip_encode a answer cwd w in
  (given_path a answer = None -> exit_code (fst outcome) = 1%Z) /\
  (forall p, given_path a answer = Some p ->
     path_exists (fs w) p = false -> exit_code (fst outcome) = 1%Z) /\
  (forall p, given_path a answer = Some p ->
     path_exists (fs w) p = true -> get_mods (fs w) p = Ok [] ->
     exit_code (fst outcome) = 1%Z) /\
  (arg_list a = true ->
   fs (snd outcome) = fs w /\
   forall p mods, given_path a answer = Some p ->
     path_exists (fs w) p = true -> get_mods (fs w) p = Ok mods -> mods <> [] ->
     exit_code (fst outcome) = 0%Z /\
     stdout (snd outcome) =
       stdout w ++ prompted a ++ found_lines p mods ++
       [mods_heading] ++ map list_line mods).
Proof.
  intros outcome. unfold outcome. split; [| split; [| split]].
  - intros Hg. destruct (main_no_path a answer cwd w Hg) as (e & w' & -> & _ & He).
    exact He.
  - intros p Hg Hex. now destruct (main_missing a answer cwd w p Hg Hex) as (w' & -> & _).
  - intros p Hg Hex Hmods.
    now destruct (main_no_mods a answer cwd w p Hg Hex Hmods) as (w' & -> & _).
  - intros Hl. split.
    + destruct (given_path a answer) as [p |] eqn:Hg.
      2:{ now destruct (main_no_path a answer cwd w Hg) as (e & w' & -> & Hfs & _). }
      destruct (path_exists (fs w) p) eqn:Hex.
      2:{ now destruct (main_missing a answer cwd w p Hg Hex) as (w' & -> & Hfs). }
      destruct (get_mods (fs w) p) as [mods | e] eqn:Hmods.
      2:{ now destruct (main_unlisted a answer cwd w p e Hg Hex Hmods) as (w' & -> & Hfs). }
      destruct mods as [| m mods].
      { now destruct (main_no_mods a answer cwd w p Hg Hex Hmods) as (w' & -> & Hfs). }
      now rewrite (main_list a answer cwd w p (m :: mods) Hg Hex Hmods).
    + intros p mods Hg Hex Hmods Hne.
      now rewrite (main_list a answer cwd w p mods).
Qed.

End Splitter.

Lemma main_exit_codes_witness :
  let a := split_args 2 true in
  let w := mk_world five_mods [] in
  let outcome := main listing_encode a None [] w in
  arg_list a = true /\
  given_path a None = Some ["mods"] /\
  path_exists five_mods ["mods"] = true /\
  fs (snd outcome) = fs w /\
  exit_code (fst outcome) = 0%Z /\
  stdout (snd outcome) =
    map (fun line => (line ++ LF)%string)
        ["Scanning: mods"; "Found 5 mods with 5 script files";
         (LF ++ "Mods:")%string;
         "  mod0: 1 scripts"; "  mod1: 1 scripts"; "  mod2: 1 scripts";
         "  mod3: 1 scripts"; "  mod4: 1 scripts"].
Proof.
  intros a w outcome.
  destruct (main_exit_codes listing_encode a None [] w) as (_ & _ & _ & Hlist).
  destruct (Hlist eq_refl) as [Hfs Hout].
  destruct (Hout ["mods"] _ eq_refl eq_refl eq_refl) as [Hcode Hlines]; [discriminate |].
  split; [reflexivity |]. split; [reflexivity |]. split; [reflexivity |].
  split; [exact Hfs |]. split; [exact Hcode |].
  exact Hlines.
Defined.

(** The splitter run on 120 mods with chunk size 50: what it prints, and
    the archives it leaves in the output directory. *)
Example split_120_by_50 :
  let outcome :=
    main listing_encode (split_args 50 false) None []
         (mk_world (many_mods 120) []) in
  fst outcome = Ok tt /\
  stdout (snd outcome) =
    [("Scanning: mods" ++ LF)%string;
     ("Found 120 mods with 120 script files" ++ LF)%string;
     ((LF ++ "Splitting into 3 chunks of ~50 mods each") ++ LF)%string;
     "  Chunk 1/3: 50 mods, 50 scripts... ";
     ("-> mods_chunk_01.zip (0.0 MB)" ++ LF)%string;
     "  Chunk 2/3: 50 mods, 50 scripts... ";
     ("-> mods_chunk_02.zip (0.0 MB)" ++ LF)%string;
     "  Chunk 3/3: 20 mods, 20 scripts... ";
     ("-> mods_chunk_03.zip (0.0 MB)" ++ LF)%string;
     ((LF ++ "Done! Created 3 archives in out") ++ LF)%string] /\
  (iterdir (fs (snd outcome)) ["out"] =
   Ok [["out"; "mods_chunk_01.zip"]; ["out"; "mods_chunk_02.zip"];
       ["out"; "mods_chunk_03.zip"]]).
Proof. vm_compute. repeat split. Qed.

(** Any 120 mods with chunk size 50 make three chunks, of 50, 50 and 20. *)
Example chunks_120_by_50 (mods : list (Path * nat)) :
  length mods = 120 ->
  Z.to_nat (ceil_div (Z.of_nat (length mods)) 50) = 3 /\
  map (fun i => length (chunk_of mods 50 i)) (seq 0 3) = [50; 50; 20].
Proof.
  intros Hlen.
  assert (Hk : Z.to_nat (ceil_div (Z.of_nat (length mods)) 50) = 3)
    by (rewrite Hlen; reflexivity).
  split; [exact Hk |].
  assert (H : forall i, i < 3 ->
            Z.of_nat (length (chunk_of mods 50 i)) = Z.min 50 (120 - Z.of_nat i * 50)).
  { intros i Hi. rewrite (chunk_of_length mods 50 ltac:(lia) i) by (rewrite Hk; exact Hi).
    now rewrite Hlen. }
  simpl. pose proof (H 0 ltac:(lia)). pose proof (H 1 ltac:(lia)). pose proof (H 2 ltac:(lia)).
  repeat f_equal; lia.
Qed.

(** * Further properties *)

(** ** More on [find_scripts] *)

Lemma in_find_scripts (fs : node) (scripts_dir p : Path) :
  In p (Discovery.find_scripts fs scripts_dir) <-> Discovery.is_script fs scripts_dir p.
Proof.
  unfold Discovery.find_scripts.
  rewrite <- (Permutation_in' eq_refl (sorted_perm _)). simpl.
  rewrite (proj2 (extend_new_spec _ _)), (proj2 (extend_new_spec _ _)).
  rewrite in_app_iff, !in_glob_rec. unfold Discovery.is_script, Discovery.recognized.
  split.
  - intros [[[H | H] | H] | H].
    + apply glob_here_rec, in_glob_rec in H as (n & rel & ? & ? & ? & ?).
      exists n, rel. tauto.
    + apply glob_here_rec, in_glob_rec in H as (n & rel & ? & ? & ? & ?).
      exists n, rel. tauto.
    + destruct H as (n & rel & ? & ? & ? & ?). exists n, rel. tauto.
    + destruct H as (n & rel & ? & ? & ? & ?). exists n, rel. tauto.
  - intros (n & rel & ? & ? & ? & [H | H]).
    + left. right. now exists n, rel.
    + right. now exists n, rel.
Qed.

Lemma NoDup_find_scripts (fs : node) (scripts_dir : Path) :
  wf fs -> List.NoDup (Discovery.find_scripts fs scripts_dir).
Proof.
  intros Hwf. unfold Discovery.find_scripts.
  eapply Permutation_NoDup; [apply sorted_perm |]. simpl.
  apply extend_new_spec, extend_new_spec.
  apply NoDup_ListNoDup, NoDup_app. repeat split.
  - apply NoDup_ListNoDup, NoDup_glob_here, Hwf.
  - intros p H1%list_elem_of_In%glob_here_name H2%list_elem_of_In%glob_here_name.
    eapply endswith_lua_script; eassumption.
  - apply NoDup_ListNoDup, NoDup_glob_here, Hwf.
Qed.

Lemma resolve_app (p : Path) : forall (fs : node) (q : Path),
  resolve fs (p ++ q) =
  match resolve fs p with Some n => resolve n q | None => None end.
Proof.
  induction p as [| c p IH]; intros fs q; simpl; [reflexivity |].
  destruct fs as [r d | l es]; [reflexivity |].
  destruct (entry_lookup c es) as [ch |]; [apply IH | reflexivity].
Qed.

Lemma visible_resolve (n : node) (rel : Path) :
  wf n -> visible n rel -> exists n', resolve n rel = Some n'.
Proof.
  intros Hwf Hv. induction Hv as [es c ch Hin | es c ch rel Hin Hv IH].
  - apply wf_Dir in Hwf as [Hnd _]. simpl.
    rewrite (In_entry_lookup _ _ _ Hnd Hin). now exists ch.
  - apply wf_Dir in Hwf as [Hnd Hall]. simpl.
    rewrite (In_entry_lookup _ _ _ Hnd Hin). apply IH.
    rewrite List.Forall_forall in Hall. apply (Hall (c, ch) Hin).
Qed.

(** X1. For a scripts folder that is missing, that is a regular file, or
    that is a directory without read permission, [find_scripts] returns the
    empty list: the globs yield nothing there.  (The tree model has every
    directory searchable; a folder that cannot even be looked up is outside
    this statement.) *)
Theorem find_scripts_unlistable (fs : node) (scripts_dir : Path) :
  (resolve fs scripts_dir = None \/
   (exists r data, resolve fs scripts_dir = Some (File r data)) \/
   (exists es, resolve fs scripts_dir = Some (Dir false es))) ->
  Discovery.find_scripts fs scripts_dir = [].
Proof.
  unfold Discovery.find_scripts, glob_here, glob_rec.
  intros [-> | [(r & data & ->) | (es & ->)]]; reflexivity.
Qed.

Lemma find_scripts_unlistable_witness :
  resolve locked_root ["mods"; "locked"] = Some (Dir false []) /\
  Discovery.find_scripts locked_root ["mods"; "locked"] = [].
Proof.
  split; [reflexivity |].
  apply (find_scripts_unlistable locked_root ["mods"; "locked"]).
  right. right. exists []. reflexivity.
Defined.

(** ** More on [get_mod_info] *)

(** X2. When [modinfo.txt] can be read and has a first line, the name is
    that line, stripped, whatever [meta.ini] says. *)
Theorem get_mod_info_modinfo_overrides (fs : node) (mod_path : Path)
    (content line0 : string) (rest : list string) :
  read_text fs (mod_path ++ ["modinfo.txt"]) = Ok content ->
  splitlines content = line0 :: rest ->
  exists info,
    Discovery.get_mod_info fs mod_path = Ok info /\
    info !! "name" = Some (strip line0).
Proof.
  intros Hread Hlines. unfold Discovery.get_mod_info.
  destruct (meta_ini_step fs (mod_path ++ ["meta.ini"]) {["name" := name mod_path]})
    as (info1 & Hstep & _).
  assert (Hmeta : exists info1,
    (if path_exists fs (mod_path ++ ["meta.ini"])
     then try_except_OSError
            (do content <- read_text fs (mod_path ++ ["meta.ini"]);
             for_each Discovery.meta_line (splitlines content)
                      {["name" := name mod_path]})
            {["name" := name mod_path]}
     else Ok {["name" := name mod_path]}) = Ok info1).
  { destruct (path_exists fs (mod_path ++ ["meta.ini"])); eauto. }
  destruct Hmeta as (info2 & ->). cbn [bind].
  rewrite (read_text_exists _ _ _ Hread), Hread. cbn [bind].
  rewrite Hlines. cbn [try_except_OSError bind].
  eexists. split; [reflexivity |]. apply lookup_insert_eq.
Qed.

Lemma get_mod_info_modinfo_overrides_witness :
  read_text named_root (["mod"] ++ ["modinfo.txt"])
    = Ok ("  Shown name " ++ LF ++ "more")%string /\
  splitlines ("  Shown name " ++ LF ++ "more") = ["  Shown name "; "more"] /\
  exists info,
    Discovery.get_mod_info named_root ["mod"] = Ok info /\
    info !! "name" = Some (strip "  Shown name ").
Proof.
  split; [reflexivity |]. split; [reflexivity |].
  apply (get_mod_info_modinfo_overrides named_root ["mod"]
           ("  Shown name " ++ LF ++ "more")%string "  Shown name " ["more"]);
    reflexivity.
Defined.

Lemma startswith_split (s p : string) :
  startswith s p = true -> exists rest, s = (p ++ rest)%string.
Proof.
  revert s. induction p as [| b p IH]; intros s; simpl.
  - exists s. reflexivity.
  - destruct s as [| a s]; [discriminate |].
    intros [H1 H2]%andb_true_iff. apply Ascii.eqb_eq in H1 as ->.
    destruct (IH _ H2) as [rest ->]. exists rest. reflexivity.
Qed.

Lemma meta_line_dom (info info' : gmap string string) (line : string) :
  Discovery.meta_line info line = Ok info' ->
  forall k, is_Some (info' !! k) ->
    is_Some (info !! k) \/ In k ["name"; "version"; "author"].
Proof.
  unfold Discovery.meta_line. intros H k Hk.
  destruct (startswith line "name=");
    [| destruct (startswith line "version=");
       [| destruct (startswith line "author=")]];
    try (destruct (split1_snd "=" line) as [v |]; [| discriminate H]);
    cbn [bind] in H; injection H as <-;
    try (apply lookup_insert_is_Some in Hk as [<- | [_ Hk]]; simpl; tauto).
  now left.
Qed.

Lemma for_each_meta_line_dom (lines : list string) :
  forall (info info' : gmap string string),
  for_each Discovery.meta_line lines info = Ok info' ->
  forall k, is_Some (info' !! k) ->
    is_Some (info !! k) \/ In k ["name"; "version"; "author"].
Proof.
  induction lines as [| line lines IH]; intros info info' H k Hk.
  - injection H as <-. now left.
  - cbn [for_each] in H.
    destruct (Discovery.meta_line info line) as [info1 |] eqn:E; [| discriminate H].
    cbn [bind] in H. destruct (IH _ _ H k Hk) as [H1 | H1]; [| now right].
    exact (meta_line_dom _ _ _ E k H1).
Qed.

Lemma for_each_meta_line_key (lines : list string) :
  forall (info info' : gmap string string) (key : string),
  In key ["name"; "version"; "author"] ->
  for_each Discovery.meta_line lines info = Ok info' ->
  (is_Some (info' !! key) <->
   is_Some (info !! key) \/
   Exists (fun l => startswith l (key ++ "=")%string = true) lines).
Proof.
  induction lines as [| line lines IH]; intros info info' key Hkey H.
  - injection H as <-. rewrite Exists_nil. tauto.
  - cbn [for_each] in H.
    destruct (Discovery.meta_line info line) as [info1 |] eqn:E; [| discriminate H].
    cbn [bind] in H. rewrite (IH _ _ _ Hkey H), Exists_cons.
    destruct (startswith line (key ++ "=")%string) eqn:Es.
    + destruct (startswith_split _ _ Es) as [rest ->].
      assert (Ha : Discovery.meta_line info (key ++ "=" ++ rest)%string
                   = Ok (<[key := strip rest]> info)).
      { apply meta_line_assigns, Hkey. }
      rewrite <- string_app_assoc in E.
      rewrite Ha in E. injection E as <-.
      rewrite lookup_insert_eq. split; intros _; [right; now left | left; eauto].
    + rewrite (meta_line_other _ _ _ _ Hkey Es E).
      split; [intros [? | ?]; tauto | intros [? | [? | ?]]; try tauto; discriminate].
Qed.

Lemma modinfo_step_keeps (fs : node) (p : Path) (info : gmap string string) :
  exists info',
    try_except_OSError
      (do content <- read_text fs p;
       match splitlines content with
       | line0 :: _ => Ok (<["name" := strip line0]> info)
       | [] => Ok info
       end) info = Ok info' /\
    (forall key, is_Some (info' !! key) <-> is_Some (info !! key) \/
       (key = "name" /\ is_Some (info' !! key))).
Proof.
  destruct (read_text fs p) as [content | e] eqn:E; cbn [bind].
  - destruct (splitlines content) as [| line0 rest]; cbn [try_except_OSError].
    + exists info. split; [reflexivity |]. tauto.
    + eexists. split; [reflexivity |]. intros key.
      rewrite lookup_insert_is_Some.
      destruct (decide ("name" = key)) as [<- | Hne]; [| tauto].
      split; [intros _; right | intros _; left]; auto.
  - cbn [try_except_OSError]. rewrite (read_text_OSError _ _ _ E).
    exists info. split; [reflexivity |]. tauto.
Qed.

(** What [get_mod_info] returns in the tree model, where its lookups do not
    fail: the keys of the dictionary. *)
Lemma get_mod_info_result (fs : node) (mod_path : Path) :
  exists info,
    Discovery.get_mod_info fs mod_path = Ok info /\
    is_Some (info !! "name") /\
    (forall key, is_Some (info !! key) -> In key ["name"; "version"; "author"]) /\
    (forall key, In key ["version"; "author"] ->
       (is_Some (info !! key) <->
        exists content,
          read_text fs (mod_path ++ ["meta.ini"]) = Ok content /\
          Exists (fun l => startswith l (key ++ "=")%string = true)
                 (splitlines content))).
Proof.
  unfold Discovery.get_mod_info.
  set (info0 := {["name" := name mod_path]} : gmap string string).
  assert (H0 : forall key, is_Some (info0 !! key) <-> key = "name").
  { intros key. unfold info0. rewrite lookup_singleton_is_Some. split; congruence. }
  destruct (meta_ini_step fs (mod_path ++ ["meta.ini"]) info0)
    as (infoA & HA & HAfail & HAread).
  assert (H1 : exists info1,
    (if path_exists fs (mod_path ++ ["meta.ini"])
     then try_except_OSError
            (do content <- read_text fs (mod_path ++ ["meta.ini"]);
             for_each Discovery.meta_line (splitlines content) info0) info0
     else Ok info0) = Ok info1 /\
    (forall key, In key ["name"; "version"; "author"] ->
       (is_Some (info1 !! key) <->
        key = "name" \/
        exists content,
          read_text fs (mod_path ++ ["meta.ini"]) = Ok content /\
          Exists (fun l => startswith l (key ++ "=")%string = true)
                 (splitlines content))) /\
    (forall key, is_Some (info1 !! key) -> In key ["name"; "version"; "author"])).
  { destruct (path_exists fs (mod_path ++ ["meta.ini"])) eqn:Ex.
    - exists infoA. split; [exact HA |].
      destruct (read_text fs (mod_path ++ ["meta.ini"])) as [content | e] eqn:Er.
      + specialize (HAread content eq_refl). split.
        * intros key Hkey. rewrite (for_each_meta_line_key _ _ _ _ Hkey HAread), H0.
          split; [intros [? | ?]; eauto | intros [? | (c & [= <-] & ?)]; tauto].
        * intros key Hk. destruct (for_each_meta_line_dom _ _ _ HAread key Hk) as [Hk' | Hk'];
            [apply H0 in Hk' as ->; simpl; tauto | exact Hk'].
      + rewrite (HAfail (ex_intro _ e eq_refl)). split.
        * intros key _. rewrite H0.
          split; [tauto | intros [? | (c & [=] & _)]; assumption].
        * intros key ->%H0. simpl. tauto.
    - exists info0. split; [reflexivity |]. split.
      + intros key _. rewrite H0. split; [tauto |].
        intros [? | (c & Hc & _)]; [assumption |].
        apply read_text_exists in Hc. congruence.
      + intros key ->%H0. simpl. tauto. }
  destruct H1 as (info1 & -> & Hkeys & Hdom). cbn [bind].
  destruct (modinfo_step_keeps fs (mod_path ++ ["modinfo.txt"]) info1)
    as (infoB & HB & HBkeys).
  assert (H2 : exists info2,
    (if path_exists fs (mod_path ++ ["modinfo.txt"])
     then try_except_OSError
            (do content <- read_text fs (mod_path ++ ["modinfo.txt"]);
             match splitlines content with
             | line0 :: _ => Ok (<["name" := strip line0]> info1)
             | [] => Ok info1
             end) info1
     else Ok info1) = Ok info2 /\
    forall key, is_Some (info2 !! key) <->
      is_Some (info1 !! key) \/ (key = "name" /\ is_Some (info2 !! key))).
  { destruct (path_exists fs (mod_path ++ ["modinfo.txt"])).
    - exists infoB. split; assumption.
    - exists info1. split; [reflexivity |]. tauto. }
  destruct H2 as (info2 & -> & H2). cbn [bind].
  exists info2. split; [reflexivity |].
  assert (Hname : is_Some (info1 !! "name")).
  { apply Hkeys; simpl; tauto. }
  split; [apply H2; now left |]. split.
  - intros key [Hk | [-> _]]%H2; [apply Hdom, Hk | simpl; tauto].
  - intros key Hkey.
    assert (Hkey' : In key ["name"; "version"; "author"]) by (simpl in *; tauto).
    assert (Hne : key <> "name") by (destruct Hkey as [<- | [<- | []]]; discriminate).
    rewrite H2, (Hkeys key Hkey'). tauto.
Qed.

(** X3. Whenever [get_mod_info] returns, the dictionary has a name and no
    key besides [name], [version] and [author]; it has a version, or an
    author, exactly when [meta.ini] can be read and one of its lines starts
    with that key and an equals sign. *)
Theorem get_mod_info_keys (fs : node) (mod_path : Path) (info : gmap string string) :
  Discovery.get_mod_info fs mod_path = Ok info ->
  is_Some (info !! "name") /\
  (forall key, is_Some (info !! key) -> In key ["name"; "version"; "author"]) /\
  (forall key, In key ["version"; "author"] ->
     (is_Some (info !! key) <->
      exists content,
        read_text fs (mod_path ++ ["meta.ini"]) = Ok content /\
        Exists (fun l => startswith l (key ++ "=")%string = true)
               (splitlines content))).
Proof.
  intros H. destruct (get_mod_info_result fs mod_path) as (info' & H' & Hkeys).
  rewrite H in H'. injection H' as <-. exact Hkeys.
Qed.

Lemma get_mod_info_keys_witness :
  exists info,
    Discovery.get_mod_info named_root ["mod"] = Ok info /\
    is_Some (info !! "name") /\
    (forall key, is_Some (info !! key) -> In key ["name"; "version"; "author"]) /\
    (forall key, In key ["version"; "author"] ->
       (is_Some (info !! key) <->
        exists content,
          read_text named_root (["mod"] ++ ["meta.ini"]) = Ok content /\
          Exists (fun l => startswith l (key ++ "=")%string = true)
                 (splitlines content))).
Proof.
  assert (H : exists info, Discovery.get_mod_info named_root ["mod"] = Ok info)
    by (eexists; vm_compute; reflexivity).
  destruct H as (info & H). exists info. split; [exact H |].
  exact (get_mod_info_keys named_root ["mod"] info H).
Defined.

(** ** More on [discover_mods] *)

Lemma iterdir_In (fs : node) (p : Path) (items : list Path) (item : Path) :
  iterdir fs p = Ok items -> In item items -> exists c, item = p ++ [c].
Proof.
  unfold iterdir. destruct (resolve fs p) as [[r d | [] es] |]; try discriminate.
  intros [= <-] (e & <- & _)%in_map_iff. now exists (fst e).
Qed.

Lemma iterdir_NoDup (fs : node) (p : Path) (items : list Path) :
  wf fs -> iterdir fs p = Ok items -> List.NoDup items.
Proof.
  intros Hwf. unfold iterdir. destruct (resolve fs p) as [[r d | [] es] |] eqn:E;
    try discriminate.
  intros [= <-]. apply (wf_resolve _ _ _ Hwf) in E. apply wf_Dir in E as [Hnd _].
  induction es as [| [c ch] es IH]; simpl; [constructor |].
  simpl in Hnd. apply List.NoDup_cons_iff in Hnd as [Hc Hnd].
  constructor; [| now apply IH].
  intros (e & Heq & Hin)%in_map_iff. apply app_inj_tail in Heq as [_ Heq].
  apply Hc. apply in_map_iff. exists e. split; [exact Heq | exact Hin].
Qed.

Lemma check_prefix (fs : node) (root : Path) (key : string) (dir : Path) :
  check fs root key dir -> root `prefix_of` dir.
Proof.
  intros [Hroot | | item (items & Hit & Hin) _
                | item subitem (items & Hit & Hin) _ _ (subitems & Hsub & Hin') _].
  - now exists ["scripts"].
  - now exists ["gamedata"; "scripts"].
  - destruct (iterdir_In _ _ _ _ Hit Hin) as [c ->].
    exists ([c] ++ ["gamedata"; "scripts"]). now rewrite <- app_assoc.
  - destruct (iterdir_In _ _ _ _ Hit Hin) as [c ->].
    destruct (iterdir_In _ _ _ _ Hsub Hin') as [c' ->].
    exists ([c] ++ [c'] ++ ["gamedata"; "scripts"]). now rewrite <- !app_assoc.
Qed.

Lemma discover_mods_from_check (fs : node) (root : Path) mods key scripts :
  Discovery.discover_mods fs root = Ok mods ->
  mods !! key = Some scripts ->
  exists dir, check fs root key dir /\ scripts = Discovery.find_scripts fs dir.
Proof.
  intros H Hk.
  destruct (decide (name root = "gamedata")) as [Hname | Hname].
  - rewrite discover_mods_gamedata in H by exact Hname. injection H as <-.
    destruct (entry fs "(root)" (root ++ ["scripts"])) as [[k v] |] eqn:E; simpl in Hk.
    + apply entry_Some in E as (-> & _ & -> & Hne).
      destruct (decide (key = "(root)")) as [-> | Hkey].
      * rewrite lookup_insert_eq in Hk. injection Hk as <-.
        eexists. split; [now apply check_root | reflexivity].
      * rewrite lookup_insert_ne, lookup_empty in Hk by congruence. discriminate.
    + rewrite lookup_empty in Hk. discriminate.
  - destruct (discover_mods_registers fs root mods Hname H) as [_ Hsound].
    destruct (Hsound key scripts Hk) as (dir & Hc & _ & Hv & Hne). eauto.
Qed.

(** X4. On a tree whose directories list every name once, each list in
    the result of [discover_mods] is free of duplicates and sorted, and each
    of its paths exists, lies below the root that was given, and has a name
    ending in [.lua] or [.script]. *)
Theorem discover_mods_lists_scripts (fs : node) (root : Path) mods key scripts :
  wf fs ->
  Discovery.discover_mods fs root = Ok mods ->
  mods !! key = Some scripts ->
  List.NoDup scripts /\
  StronglySorted path_le scripts /\
  Forall (fun p => root `prefix_of` p /\ path_exists fs p = true /\
                   Discovery.recognized (name p)) scripts.
Proof.
  intros Hwf H Hk.
  destruct (discover_mods_from_check _ _ _ _ _ H Hk) as (dir & Hc & ->).
  split; [now apply NoDup_find_scripts |]. split; [apply sorted_sorted |].
  apply List.Forall_forall. intros p (n & rel & Hdir & Hv & -> & Hrec)%in_find_scripts.
  pose proof (visible_nonempty _ _ Hv) as Hrel.
  split; [| split].
  - destruct (check_prefix _ _ _ _ Hc) as [q ->]. exists (q ++ rel).
    now rewrite <- app_assoc.
  - unfold path_exists. rewrite resolve_app, Hdir.
    destruct (visible_resolve n rel (wf_resolve _ _ _ Hwf Hdir) Hv) as [n' ->].
    reflexivity.
  - now rewrite name_app.
Qed.

Lemma discover_mods_lists_scripts_witness :
  let scripts := [["mods"; "pack"; "addon"; "gamedata"; "scripts"; "b.lua"]] in
  wf mods_root /\
  (exists mods, Discovery.discover_mods mods_root ["mods"] = Ok mods /\
                mods !! "pack/addon" = Some scripts) /\
  List.NoDup scripts /\
  StronglySorted path_le scripts /\
  Forall (fun p => ["mods"] `prefix_of` p /\ path_exists mods_root p = true /\
                   Discovery.recognized (name p)) scripts.
Proof.
  intros scripts.
  assert (Hwf : wf mods_root) by (apply wfb_wf; reflexivity).
  assert (H : exists mods, Discovery.discover_mods mods_root ["mods"] = Ok mods /\
                           mods !! "pack/addon" = Some scripts).
  { eexists. split; [vm_compute; reflexivity | reflexivity]. }
  split; [exact Hwf |]. split; [exact H |].
  destruct H as (mods & Hd & Hk).
  exact (discover_mods_lists_scripts mods_root ["mods"] mods "pack/addon" scripts
           Hwf Hd Hk).
Defined.

Lemma items_entries_app (fs : node) (l1 l2 : list Path) :
  items_entries fs (l1 ++ l2) =
  do c1 <- items_entries fs l1; do c2 <- items_entries fs l2; Ok (c1 ++ c2).
Proof.
  induction l1 as [| x l1 IH]; simpl.
  - now destruct (items_entries fs l2).
  - destruct (item_entries fs x) as [c |]; simpl; [| reflexivity].
    rewrite IH. destruct (items_entries fs l1) as [c1 |]; simpl; [| reflexivity].
    destruct (items_entries fs l2) as [c2 |]; simpl; [| reflexivity].
    now rewrite app_assoc.
Qed.

Lemma registered_skip cs (mods : gmap string (list Path)) k :
  (forall v, ~ In (Some (k, v)) cs) -> registered cs mods !! k = mods !! k.
Proof.
  unfold registered. revert mods. induction cs as [| c cs IH]; intros mods Hk; simpl;
    [reflexivity |].
  rewrite IH by (intros v Hv; apply (Hk v); now right).
  destruct c as [[k' v'] |]; simpl; [| reflexivity].
  apply lookup_insert_ne. intros ->. apply (Hk v'). now left.
Qed.

Lemma registered_cons c cs (mods : gmap string (list Path)) :
  registered (c :: cs) mods = registered cs (register c mods).
Proof. reflexivity. Qed.

Lemma contains_app (x y : string) (c : ascii) :
  contains (x ++ y) c = contains x c || contains y c.
Proof.
  induction x as [| a x IH]; simpl; [reflexivity |].
  rewrite IH. now rewrite orb_assoc.
Qed.

(** X5. A subdirectory of the root that the loop looks into and that has
    scripts of its own is registered under its name with exactly those
    scripts, also when an earlier check has used the same key (the root's
    own name): the later assignment replaces the earlier.  This holds where
    a directory lists every name once and the name holds no separator. *)
Theorem discover_mods_child_entry (fs : node) (root : Path) mods (item : Path) :
  wf fs ->
  name root <> "gamedata" ->
  Discovery.discover_mods fs root = Ok mods ->
  listed fs root item ->
  candidate fs item ->
  contains (name item) "/" = false ->
  Discovery.find_scripts fs (item ++ ["gamedata"; "scripts"]) <> [] ->
  mods !! name item = Some (Discovery.find_scripts fs (item ++ ["gamedata"; "scripts"])).
Proof.
  intros Hwf Hname H (items & Hit & Hin) Hcand Hslash Hne.
  assert (Hex : path_exists fs (item ++ ["gamedata"; "scripts"]) = true).
  { destruct (Discovery.find_scripts fs (item ++ ["gamedata"; "scripts"]))
      as [| p l] eqn:E; [congruence |].
    assert (Hp : In p (Discovery.find_scripts fs (item ++ ["gamedata"; "scripts"])))
      by (rewrite E; now left).
    apply in_find_scripts in Hp as (n & rel & Hdir & _).
    unfold path_exists. now rewrite Hdir. }
  rewrite discover_mods_entries in H by exact Hname.
  rewrite Hit in H. cbn [bind] in H.
  destruct (items_entries fs items) as [cs |] eqn:Ecs; cbn [bind] in H; [| discriminate].
  injection H as <-.
  pose proof (iterdir_NoDup _ _ _ Hwf Hit) as Hnd.
  destruct (in_split _ _ Hin) as (l1 & l2 & ->).
  rewrite items_entries_app in Ecs.
  destruct (items_entries fs l1) as [c1 |]; cbn [bind] in Ecs; [| discriminate].
  cbn [items_entries] in Ecs.
  assert (Hitem : item_entries fs item =
                  Ok [Some (name item,
                            Discovery.find_scripts fs (item ++ ["gamedata"; "scripts"]))]).
  { unfold item_entries. destruct Hcand as [-> ->]. cbn [negb]. rewrite Hex.
    do 2 f_equal. apply entry_Some. auto. }
  rewrite Hitem in Ecs. cbn [bind] in Ecs.
  destruct (items_entries fs l2) as [c2 |] eqn:Ec2; cbn [bind] in Ecs; [| discriminate].
  injection Ecs as <-.
  rewrite app_comm_cons, registered_app, registered_cons, registered_skip.
  { simpl. apply lookup_insert_eq. }
  intros v Hv.
  apply (in_items_entries _ _ _ _ _ Ec2) in Hv as (item' & c & Hin' & Hci & Hv).
  apply (in_item_entries _ _ _ _ _ Hci) in Hv
    as [_ [[_ Hv] | [_ (subitem & _ & _ & Hv)]]];
    apply entry_Some in Hv as (Hkey & _).
  - apply NoDup_remove_2 in Hnd. apply Hnd. apply in_app_iff. right.
    assert (Hin2 : In item' (l1 ++ item :: l2)) by (apply in_app_iff; right; now right).
    destruct (iterdir_In _ _ _ _ Hit Hin) as [c0 E0].
    destruct (iterdir_In _ _ _ _ Hit Hin2) as [c' E'].
    rewrite E0, E', !name_snoc in Hkey. rewrite E0, Hkey, <- E'. exact Hin'.
  - rewrite Hkey, contains_app in Hslash. simpl in Hslash.
    rewrite orb_true_r in Hslash. discriminate.
Qed.

Lemma discover_mods_child_entry_witness :
  wf same_name_root /\
  name ["pack"] <> "gamedata" /\
  (exists mods, Discovery.discover_mods same_name_root ["pack"] = Ok mods /\
     mods !! name ["pack"; "pack"] =
     Some (Discovery.find_scripts same_name_root
             (["pack"; "pack"] ++ ["gamedata"; "scripts"]))) /\
  Discovery.find_scripts same_name_root (["pack"] ++ ["gamedata"; "scripts"])
    = [["pack"; "gamedata"; "scripts"; "r.lua"]] /\
  Discovery.find_scripts same_name_root (["pack"; "pack"] ++ ["gamedata"; "scripts"])
    = [["pack"; "pack"; "gamedata"; "scripts"; "c.lua"]].
Proof.
  assert (Hwf : wf same_name_root) by (apply wfb_wf; reflexivity).
  assert (Hname : name ["pack"] <> "gamedata") by discriminate.
  split; [exact Hwf |]. split; [exact Hname |]. split; [| split; reflexivity].
  assert (Hd : exists mods, Discovery.discover_mods same_name_root ["pack"] = Ok mods).
  { eexists. vm_compute. reflexivity. }
  destruct Hd as (mods & Hd). exists mods. split; [exact Hd |].
  apply (discover_mods_child_entry same_name_root ["pack"] mods ["pack"; "pack"]
           Hwf Hname Hd).
  - exists [["pack"; "gamedata"]; ["pack"; "pack"]]. split; [reflexivity |].
    right. now left.
  - split; reflexivity.
  - reflexivity.
  - discriminate.
Defined.

(** ** More on [find_script_files] and [extract_scripts] *)

Lemma relative_to_app (base p : Path) : relative_to (base ++ p) base = Ok p.
Proof.
  induction base as [| b base IH]; simpl; [now destruct p |].
  now rewrite String.eqb_refl.
Qed.

Lemma glob_rec_below (fs : node) (dir : Path) (suffix : string) (p : Path) :
  In p (glob_rec fs dir suffix) ->
  exists rel, rel <> [] /\ p = dir ++ rel /\ endswith (name p) suffix = true /\
              path_exists fs dir = true.
Proof.
  intros (n & rel & Hdir & Hv & -> & Hend)%in_glob_rec.
  pose proof (visible_nonempty _ _ Hv) as Hrel.
  exists rel. rewrite name_app by exact Hrel. unfold path_exists. rewrite Hdir. auto.
Qed.

(** The inner loop of [find_script_files]: no path below [mods_path] makes
    [relative_to] fail. *)
Lemma find_script_files_inner (mods_path : Path) (m : string) (l : list Path) :
  forall (acc : list (string * Path * Path)),
  (forall f, In f l -> mods_path `prefix_of` f) ->
  for_each
    (fun scripts script_file =>
       do rel_path <- relative_to script_file mods_path;
       Ok (scripts ++ [(m, script_file, rel_path)]))
    l acc
  = Ok (acc ++ map (fun f => (m, f, skipn (length mods_path) f)) l).
Proof.
  induction l as [| f l IH]; intros acc Hl; simpl.
  - now rewrite app_nil_r.
  - destruct (Hl f (or_introl eq_refl)) as [rel ->].
    rewrite relative_to_app. cbn [bind].
    rewrite IH by (intros g Hg; apply Hl; now right).
    rewrite <- app_assoc. simpl. now rewrite drop_app_length.
Qed.

Lemma find_script_files_flat (fs : node) (mods_path : Path) (mod_dirs : list Path) :
  iterdir fs mods_path = Ok mod_dirs ->
  find_script_files fs mods_path =
  Ok (flat_map
        (fun mod_dir =>
           if is_dir fs mod_dir then
             map (fun f => (name mod_dir, f, skipn (length mods_path) f))
                 (glob_rec fs (mod_dir ++ ["gamedata"; "scripts"]) ".script")
           else [])
        mod_dirs).
Proof.
  intros Hit. unfold find_script_files. rewrite Hit. cbn [bind].
  assert (Hpre : forall d, In d mod_dirs -> mods_path `prefix_of` d).
  { intros d Hd. destruct (iterdir_In _ _ _ _ Hit Hd) as [c ->]. now exists [c]. }
  clear Hit.
  enough (Hgen : forall acc,
    for_each
      (fun scripts mod_dir =>
         if negb (is_dir fs mod_dir) then Ok scripts
         else if negb (path_exists fs (mod_dir ++ ["gamedata"; "scripts"]))
         then Ok scripts
         else
           for_each
             (fun scripts script_file =>
                do rel_path <- relative_to script_file mods_path;
                Ok (scripts ++ [(name mod_dir, script_file, rel_path)]))
             (glob_rec fs (mod_dir ++ ["gamedata"; "scripts"]) ".script") scripts)
      mod_dirs acc
    = Ok (acc ++ flat_map
            (fun mod_dir =>
               if is_dir fs mod_dir then
                 map (fun f => (name mod_dir, f, skipn (length mods_path) f))
                     (glob_rec fs (mod_dir ++ ["gamedata"; "scripts"]) ".script")
               else [])
            mod_dirs)) by apply (Hgen []).
  induction mod_dirs as [| d mod_dirs IH]; intros acc; simpl.
  - now rewrite app_nil_r.
  - assert (Hd : mods_path `prefix_of` d) by (apply Hpre; now left).
    assert (IH' := IH (fun d' H => Hpre d' (or_intror H))).
    destruct (is_dir fs d); cbn [negb].
    + destruct (path_exists fs (d ++ ["gamedata"; "scripts"])) eqn:Ex; cbn [negb].
      * rewrite find_script_files_inner.
        -- cbn [bind]. rewrite IH'. now rewrite <- app_assoc.
        -- intros f (rel & _ & -> & _)%glob_rec_below.
           destruct Hd as [k ->]. exists (k ++ ["gamedata"; "scripts"] ++ rel).
           now rewrite <- !app_assoc.
      * cbn [bind]. rewrite IH'. do 2 f_equal.
        unfold glob_rec. unfold path_exists in Ex.
        now destruct (resolve fs (d ++ ["gamedata"; "scripts"])).
    + cbn [bind]. apply IH'.
Qed.

(** X6. Whenever [find_script_files] returns, a triple is in the result
    exactly when its script is found by the recursive glob for [.script] in
    the [gamedata/scripts] of a listed directory, its mod name is that
    directory's name, and its relative path, appended to the mods path, is
    the script's path. *)
Theorem find_script_files_finds (fs : node) (mods_path : Path) (mod_dirs : list Path)
    (scripts : list (string * Path * Path)) :
  iterdir fs mods_path = Ok mod_dirs ->
  find_script_files fs mods_path = Ok scripts ->
  forall m src rel,
    In (m, src, rel) scripts <->
    exists mod_dir,
      In mod_dir mod_dirs /\ is_dir fs mod_dir = true /\ m = name mod_dir /\
      In src (glob_rec fs (mod_dir ++ ["gamedata"; "scripts"]) ".script") /\
      src = mods_path ++ rel.
Proof.
  intros Hit Hfind. rewrite (find_script_files_flat _ _ _ Hit) in Hfind.
  injection Hfind as <-.
  intros m src rel. rewrite in_flat_map. split.
  - intros (d & Hd & Hin). exists d. destruct (is_dir fs d); [| contradiction].
    apply in_map_iff in Hin as (f & [= <- <- <-] & Hf).
    repeat split; try assumption.
    destruct (iterdir_In _ _ _ _ Hit Hd) as [c ->].
    apply glob_rec_below in Hf as (r & _ & -> & _).
    rewrite <- !app_assoc. now rewrite drop_app_length.
  - intros (d & Hd & Hdir & -> & Hsrc & ->). exists d. split; [exact Hd |].
    rewrite Hdir. apply in_map_iff. exists (mods_path ++ rel).
    split; [| exact Hsrc]. now rewrite drop_app_length.
Qed.

Lemma find_script_files_finds_witness :
  iterdir export_root ["m"] = Ok [["m"; "A"]] /\
  exists scripts,
    find_script_files export_root ["m"] = Ok scripts /\
    forall m src rel,
      In (m, src, rel) scripts <->
      exists mod_dir,
        In mod_dir [["m"; "A"]] /\ is_dir export_root mod_dir = true /\
        m = name mod_dir /\
        In src (glob_rec export_root (mod_dir ++ ["gamedata"; "scripts"]) ".script") /\
        src = ["m"] ++ rel.
Proof.
  split; [reflexivity |].
  assert (H : exists scripts, find_script_files export_root ["m"] = Ok scripts)
    by (eexists; reflexivity).
  destruct H as (scripts & H). exists scripts. split; [exact H |].
  exact (find_script_files_finds export_root ["m"] [["m"; "A"]] scripts eq_refl H).
Defined.

(** X7. Each triple [find_script_files] returns is laid out as the
    extractor expects it: the relative path starts with the mod's name,
    [gamedata] and [scripts] and goes on to a name ending in [.script]; it
    is the script's path without the mods path; and the mod is a directory
    directly below the mods path. *)
Theorem find_script_files_layout (fs : node) (mods_path : Path)
    (scripts : list (string * Path * Path)) (m : string) (src rel : Path) :
  find_script_files fs mods_path = Ok scripts ->
  In (m, src, rel) scripts ->
  src = mods_path ++ rel /\
  is_dir fs (mods_path ++ [m]) = true /\
  exists rest,
    rel = m :: "gamedata" :: "scripts" :: rest /\ rest <> [] /\
    endswith (name rest) ".script" = true.
Proof.
  intros Hfind Hin. unfold find_script_files in Hfind.
  destruct (iterdir fs mods_path) as [mod_dirs |] eqn:Hit; [| discriminate].
  fold (find_script_files fs mods_path) in Hfind.
  assert (Hfind' : find_script_files fs mods_path = Ok scripts).
  { unfold find_script_files. rewrite Hit. exact Hfind. }
  rewrite (find_script_files_flat _ _ _ Hit) in Hfind'. injection Hfind' as <-.
  apply in_flat_map in Hin as (d & Hd & Hin).
  destruct (is_dir fs d) eqn:Hdir; [| contradiction].
  apply in_map_iff in Hin as (f & [= <- <- <-] & Hf).
  destruct (iterdir_In _ _ _ _ Hit Hd) as [c ->].
  apply glob_rec_below in Hf as (r & Hr & -> & Hend & _).
  rewrite name_snoc, <- !app_assoc, drop_app_length.
  split; [reflexivity |]. split; [exact Hdir |].
  exists r. repeat split; [exact Hr |].
  rewrite name_app in Hend by exact Hr. exact Hend.
Qed.

Lemma find_script_files_layout_witness :
  let src := ["m"; "A"; "gamedata"; "scripts"; "lib"; "y.script"] in
  let rel := ["A"; "gamedata"; "scripts"; "lib"; "y.script"] in
  (exists scripts, find_script_files export_root ["m"] = Ok scripts /\
                   In ("A", src, rel) scripts) /\
  src = ["m"] ++ rel /\
  is_dir export_root (["m"] ++ ["A"]) = true /\
  exists rest,
    rel = "A" :: "gamedata" :: "scripts" :: rest /\ rest <> [] /\
    endswith (name rest) ".script" = true.
Proof.
  intros src rel.
  assert (H : exists scripts, find_script_files export_root ["m"] = Ok scripts /\
                              In ("A", src, rel) scripts).
  { eexists. split; [reflexivity |]. right. now left. }
  split; [exact H |]. destruct H as (scripts & Hfind & Hin).
  exact (find_script_files_layout export_root ["m"] scripts "A" src rel Hfind Hin).
Defined.

(** A successful copy, with the file it wrote. *)
Lemma copy2_target (fs fs' : node) (src dst : Path) :
  copy2 fs src dst = Ok fs' ->
  exists data,
    resolve fs src = Some (File true data) /\
    src <> (if is_dir fs dst then dst ++ [name src] else dst) /\
    write_file fs (if is_dir fs dst then dst ++ [name src] else dst) data = Ok fs'.
Proof.
  unfold copy2.
  destruct (read_text fs src) as [data |] eqn:Er.
  - rewrite (read_text_exists _ _ _ Er). simpl. case_bool_decide as Hne; [discriminate |].
    intros Hw. exists data. repeat split; auto.
    unfold read_text in Er.
    destruct (resolve fs src) as [[[] d | l es] |]; congruence.
  - destruct (path_exists fs src && _); discriminate.
Qed.

(** One turn of the copy loop, step by step: either the parent directories
    are made, the source is read and written to its target and the script
    is counted; or the failure is recorded, with nothing written besides,
    possibly, the directories. *)
Lemma copy_one_cases (output_path : Path) (verbose : bool)
    (mod_name : string) (src_path rel_path : Path) (st : stats) (fs : node) :
  exists st' fs',
    copy_one output_path verbose (mod_name, src_path, rel_path) (st, fs)
      = (Ok tt, (st', fs')) /\
    ((exists fs1 data,
        mkdir_parents fs (parent (output_path ++ rel_path)) = Ok fs1 /\
        resolve fs1 src_path = Some (File true data) /\
        src_path <> (if is_dir fs1 (output_path ++ rel_path)
                     then (output_path ++ rel_path) ++ [name src_path]
                     else output_path ++ rel_path) /\
        write_file fs1 (if is_dir fs1 (output_path ++ rel_path)
                        then (output_path ++ rel_path) ++ [name src_path]
                        else output_path ++ rel_path) data = Ok fs' /\
        st' = mk_stats ({[mod_name]} ∪ mods st) (files st + 1)
                       (total_size st + String.length data) (errors st)) \/
     (exists e,
        st' = mk_stats (mods st) (files st) (total_size st)
                       (errors st ++ [(rel_path, e)]) /\
        (fs' = fs \/ mkdir_parents fs (parent (output_path ++ rel_path)) = Ok fs'))).
Proof.
  unfold copy_one, try_except, io_bind, on_fs, on_stats, read_fs.
  destruct (mkdir_parents fs (parent (output_path ++ rel_path))) as [fs1 |] eqn:Em.
  2:{ rewrite (OSError_Exception _ (mkdir_parents_OSError _ _ _ Em)).
      eexists _, fs. split; [reflexivity |]. right. eauto. }
  destruct (copy2 fs1 src_path (output_path ++ rel_path)) as [fs2 |] eqn:Ec.
  2:{ rewrite (OSError_Exception _ (copy2_OSError _ _ _ _ Ec)).
      eexists _, fs1. split; [reflexivity |]. right. eauto. }
  apply copy2_target in Ec as (data & Hsrc & Hne & Hw).
  assert (Hsrc2 : resolve fs2 src_path = Some (File true data))
    by (apply (write_file_frame _ _ _ _ _ _ _ Hw Hne); exact Hsrc).
  unfold st_size. rewrite Hsrc2. simpl.
  eexists _, fs2. split; [reflexivity |]. left. exists fs1, data. auto.
Qed.

Lemma io_for_cons_Ok {S A} (body : A -> io S unit) (x : A) (l : list A) (s s' : S) :
  io_for (x :: l) body s = (Ok tt, s') ->
  exists s1, body x s = (Ok tt, s1) /\ io_for l body s1 = (Ok tt, s').
Proof.
  cbn [io_for]. unfold io_bind at 1.
  destruct (body x s) as [[[] | e] s1]; [| discriminate]. eauto.
Qed.

Lemma copy_one_frame (output_path : Path) (verbose : bool)
    (script : string * Path * Path) (st st' : stats) (fs fs' : node) :
  copy_one output_path verbose script (st, fs) = (Ok tt, (st', fs')) ->
  forall q r x, ~ output_path `prefix_of` q ->
    (resolve fs' q = Some (File r x) <-> resolve fs q = Some (File r x)).
Proof.
  destruct script as [[m src] rel]. intros Hrun q r x Hq.
  destruct (copy_one_cases output_path verbose m src rel st fs)
    as (st1 & fs1 & Hrun' & Hcase).
  rewrite Hrun in Hrun'. injection Hrun' as <- <-.
  destruct Hcase as [(fsA & data & Hm & _ & _ & Hw & _) | (e & _ & [-> | Hm])].
  - rewrite <- (mkdir_parents_frame _ _ _ q r x Hm).
    apply (write_file_frame _ _ _ _ _ _ _ Hw).
    intros ->. apply Hq. destruct (is_dir fsA (output_path ++ rel)).
    + exists (rel ++ [name src]). now rewrite app_assoc.
    + now exists rel.
  - reflexivity.
  - apply (mkdir_parents_frame _ _ _ q r x Hm).
Qed.

Lemma copy_loop_frame (output_path : Path) (verbose : bool)
    (scripts : list (string * Path * Path)) :
  forall (st st' : stats) (fs fs' : node) (res : result unit),
  io_for scripts (copy_one output_path verbose) (st, fs) = (res, (st', fs')) ->
  forall q r x, ~ output_path `prefix_of` q ->
    (resolve fs' q = Some (File r x) <-> resolve fs q = Some (File r x)).
Proof.
  induction scripts as [| [[m src] rel] scripts IH]; intros st st' fs fs' res Hrun q r x Hq.
  - injection Hrun as _ _ <-. reflexivity.
  - destruct (copy_one_cases output_path verbose m src rel st fs)
      as (st1 & fs1 & Hone & _).
    cbn [io_for] in Hrun. unfold io_bind at 1 in Hrun. rewrite Hone in Hrun.
    rewrite (IH _ _ _ _ _ Hrun q r x Hq).
    apply (copy_one_frame _ _ _ _ _ _ _ Hone q r x Hq).
Qed.

(** X8. Whatever its outcome, [extract_scripts] leaves every regular file
    outside the output directory as it was: none is created, changed or
    removed. *)
Theorem extract_scripts_outside_untouched (fs : node) (mods_path output_path : Path)
    (verbose : bool) (q : Path) (r : bool) (x : string) :
  ~ output_path `prefix_of` q ->
  (resolve (snd (extract_scripts mods_path output_path verbose fs)) q = Some (File r x)
   <-> resolve fs q = Some (File r x)).
Proof.
  intros Hq. unfold extract_scripts.
  destruct (find_script_files fs mods_path) as [scripts | e]; [| reflexivity].
  destruct (negb (truthy scripts)); [reflexivity |].
  destruct (mkdir_parents fs output_path) as [fs1 | e] eqn:Em; [| reflexivity].
  rewrite <- (mkdir_parents_frame _ _ _ q r x Em).
  destruct (io_for scripts (copy_one output_path verbose) (mk_stats ∅ 0 0 [], fs1))
    as [res [st fs2]] eqn:Eloop.
  pose proof (copy_loop_frame _ _ _ _ _ _ _ _ Eloop q r x Hq) as Hframe.
  destruct res; exact Hframe.
Qed.

Lemma extract_scripts_outside_untouched_witness :
  let src := ["m"; "A"; "gamedata"; "scripts"; "x.script"] in
  ~ ["out"] `prefix_of` src /\
  resolve (snd (extract_scripts ["m"] ["out"] false export_root)) src
    = Some (File true "a").
Proof.
  intros src.
  assert (Hq : ~ ["out"] `prefix_of` src) by (intros [k Hk]; discriminate Hk).
  split; [exact Hq |].
  apply (extract_scripts_outside_untouched export_root ["m"] ["out"] false src true "a" Hq).
  reflexivity.
Defined.

Lemma copy_loop_mods (output_path : Path) (verbose : bool)
    (scripts : list (string * Path * Path)) :
  forall (st st' : stats) (fs fs' : node),
  io_for scripts (copy_one output_path verbose) (st, fs) = (Ok tt, (st', fs')) ->
  length (errors st) <= length (errors st') /\
  (forall m, m ∈ mods st' ->
     m ∈ mods st \/ exists src rel, In (m, src, rel) scripts) /\
  (length (errors st') = length (errors st) ->
   (forall m, m ∈ mods st -> m ∈ mods st') /\
   forall m src rel, In (m, src, rel) scripts -> m ∈ mods st').
Proof.
  induction scripts as [| [[m0 src0] rel0] scripts IH]; intros st st' fs fs' Hrun.
  - injection Hrun as <- <-. split; [lia |]. split; [auto |].
    intros _. split; [auto | intros m src rel []].
  - apply io_for_cons_Ok in Hrun as ([st1 fs1] & Hone & Hrest).
    destruct (IH _ _ _ _ Hrest) as (Hmono & Hsound & Hall).
    destruct (copy_one_cases output_path verbose m0 src0 rel0 st fs)
      as (st1' & fs1' & Hone' & Hcase).
    rewrite Hone in Hone'. injection Hone' as <- <-.
    destruct Hcase as [(fsA & data & _ & _ & _ & _ & ->) | (e & -> & _)];
      cbn [mods errors] in *.
    + split; [exact Hmono |]. split.
      * intros m Hm. destruct (Hsound m Hm) as [Hm' | (src & rel & Hin)].
        -- apply elem_of_union in Hm' as [->%elem_of_singleton | Hm'];
             [right; exists src0, rel0; now left | now left].
        -- right. exists src, rel. now right.
      * intros Hlen. destruct (Hall Hlen) as [Hkeep Hin]. split.
        -- intros m Hm. apply Hkeep, elem_of_union. now right.
        -- intros m src rel [[= <- <- <-] | H]; [| eauto].
           apply Hkeep, elem_of_union. left. now apply elem_of_singleton.
    + rewrite length_app in Hmono. simpl in Hmono. split; [lia |]. split.
      * intros m Hm. destruct (Hsound m Hm) as [Hm' | (src & rel & Hin)];
          [now left | right; exists src, rel; now right].
      * intros Hlen. lia.
Qed.

(** X9. The [mods] set of the statistics holds only names of mods whose
    scripts were found; when no copy failed it holds the name of every mod
    with a script. *)
Theorem extract_scripts_mods (fs : node) (mods_path output_path : Path)
    (verbose : bool) (scripts : list (string * Path * Path)) (st : stats) (fs' : node) :
  find_script_files fs mods_path = Ok scripts ->
  extract_scripts mods_path output_path verbose fs = (Ok st, fs') ->
  (forall m, m ∈ mods st -> exists src rel, In (m, src, rel) scripts) /\
  (errors st = [] -> forall m src rel, In (m, src, rel) scripts -> m ∈ mods st).
Proof.
  intros Hfind. unfold extract_scripts. rewrite Hfind.
  destruct (truthy scripts) eqn:Et; cbn [negb].
  2:{ intros [= <- <-]. cbn [mods]. split; [intros m Hm; now apply elem_of_empty in Hm |].
      destruct scripts; [intros _ m src rel [] | discriminate]. }
  destruct (mkdir_parents fs output_path) as [fs1 | e]; [| discriminate].
  destruct (io_for scripts (copy_one output_path verbose) (mk_stats ∅ 0 0 [], fs1))
    as [[[] | e] [st2 fs2]] eqn:Eloop; [| discriminate].
  intros [= <- <-].
  destruct (copy_loop_mods _ _ _ _ _ _ _ Eloop) as (_ & Hsound & Hall).
  cbn [mods errors] in *. split.
  - intros m Hm. destruct (Hsound m Hm) as [Hm' | H]; [| exact H].
    now apply elem_of_empty in Hm'.
  - intros Herr. apply Hall. now rewrite Herr.
Qed.

Lemma extract_scripts_mods_witness :
  exists scripts st fs',
    find_script_files export_root ["m"] = Ok scripts /\
    extract_scripts ["m"] ["out"] false export_root = (Ok st, fs') /\
    errors st = [] /\
    (forall m, m ∈ mods st -> exists src rel, In (m, src, rel) scripts) /\
    (errors st = [] -> forall m src rel, In (m, src, rel) scripts -> m ∈ mods st).
Proof.
  assert (Hfind : exists scripts, find_script_files export_root ["m"] = Ok scripts)
    by (eexists; reflexivity).
  assert (Hrun : exists st fs',
            extract_scripts ["m"] ["out"] false export_root = (Ok st, fs') /\
            errors st = [])
    by (eexists _, _; split; reflexivity).
  destruct Hfind as (scripts & Hfind). destruct Hrun as (st & fs' & Hrun & Herr).
  exists scripts, st, fs'.
  split; [exact Hfind |]. split; [exact Hrun |]. split; [exact Herr |].
  exact (extract_scripts_mods export_root ["m"] ["out"] false scripts st fs' Hfind Hrun).
Defined.

Lemma copy_loop_returns (output_path : Path) (verbose : bool)
    (scripts : list (string * Path * Path)) : forall (st : stats) (fs : node),
  exists st' fs',
    io_for scripts (copy_one output_path verbose) (st, fs) = (Ok tt, (st', fs')).
Proof.
  induction scripts as [| [[m src] rel] scripts IH]; intros st fs.
  - now exists st, fs.
  - destruct (copy_one_cases output_path verbose m src rel st fs)
      as (st1 & fs1 & Hone & _).
    destruct (IH st1 fs1) as (st' & fs' & Hrest). exists st', fs'.
    cbn [io_for]. unfold io_bind at 1. now rewrite Hone.
Qed.

(** X10. When [extract_scripts] raises, the exception comes from finding
    the scripts or, with scripts found, from making the output directory;
    it is an [OSError], and nothing has been written: the file system is
    as it was.  A failing copy never makes [extract_scripts] raise. *)
Theorem extract_scripts_raises (fs : node) (mods_path output_path : Path)
    (verbose : bool) (e : exn) (fs' : node) :
  extract_scripts mods_path output_path verbose fs = (Raise e, fs') ->
  fs' = fs /\ is_OSError e = true /\
  (find_script_files fs mods_path = Raise e \/
   exists scripts,
     find_script_files fs mods_path = Ok scripts /\ scripts <> [] /\
     mkdir_parents fs output_path = Raise e).
Proof.
  unfold extract_scripts.
  destruct (find_script_files fs mods_path) as [scripts | e0] eqn:Hfind.
  - destruct (truthy scripts) eqn:Et; cbn [negb]; [| discriminate].
    apply truthy_nonempty in Et.
    destruct (mkdir_parents fs output_path) as [fs1 | e1] eqn:Em.
    + destruct (copy_loop_returns output_path verbose scripts (mk_stats ∅ 0 0 []) fs1)
        as (st' & fs2 & ->). discriminate.
    + intros [= <- <-]. split; [reflexivity |].
      split; [eapply mkdir_parents_OSError, Em |]. right. eauto.
  - intros [= <- <-]. split; [reflexivity |]. split; [| now left].
    destruct (iterdir fs mods_path) as [mod_dirs | e1] eqn:Hit.
    + rewrite (find_script_files_flat _ _ _ Hit) in Hfind. discriminate.
    + unfold find_script_files in Hfind. rewrite Hit in Hfind. injection Hfind as <-.
      unfold iterdir in Hit.
      destruct (resolve fs mods_path) as [[? ? | [] ?] |]; try discriminate Hit;
        injection Hit as <-; reflexivity.
Qed.

Lemma extract_scripts_raises_witness :
  extract_scripts ["m"; "readme.txt"] ["out"] false lua_only_root
    = (Raise NotADirectoryError, lua_only_root) /\
  lua_only_root = lua_only_root /\ is_OSError NotADirectoryError = true /\
  (find_script_files lua_only_root ["m"; "readme.txt"] = Raise NotADirectoryError \/
   exists scripts,
     find_script_files lua_only_root ["m"; "readme.txt"] = Ok scripts /\
     scripts <> [] /\
     mkdir_parents lua_only_root ["out"] = Raise NotADirectoryError).
Proof.
  split; [reflexivity |].
  apply (extract_scripts_raises lua_only_root ["m"; "readme.txt"] ["out"] false).
  reflexivity.
Defined.

(** ** The output tree of [extract_scripts] *)

Lemma resolve_below_File (fs : node) (p x : Path) (r : bool) (d : string) (n : node) :
  resolve fs p = Some (File r d) -> resolve fs (p ++ x) = Some n -> x = [].
Proof.
  rewrite resolve_app. intros ->. destruct x; [reflexivity | discriminate].
Qed.

Lemma resolve_prefix_exists (fs : node) (p x : Path) (n : node) :
  resolve fs (p ++ x) = Some n -> exists n', resolve fs p = Some n'.
Proof.
  rewrite resolve_app. destruct (resolve fs p) as [n' |]; [eauto | discriminate].
Qed.

(** What exists after [mkdir]: what existed, and the directories on the
    way. *)
Lemma mkdir_parents_resolve (p : Path) : forall (fs fs' : node) (q : Path) (n : node),
  mkdir_parents fs p = Ok fs' -> resolve fs' q = Some n ->
  (exists n', resolve fs q = Some n') \/ q `prefix_of` p.
Proof.
  induction p as [| c p IH]; intros fs fs' q n Hm Hq.
  - simpl in Hm. destruct fs; [discriminate |]. injection Hm as <-. eauto.
  - destruct q as [| c0 q]; [right; apply prefix_nil |].
    simpl in Hm. destruct fs as [r d | l es]; [discriminate |].
    destruct (entry_lookup c es) as [ch |] eqn:El.
    + destruct (mkdir_parents ch p) as [ch' |] eqn:Ech; [| discriminate].
      injection Hm as <-. simpl in Hq |- *.
      destruct (String.eqb_spec c0 c) as [-> | Hne].
      * rewrite (entry_lookup_update_eq _ _ _ _ El) in Hq. rewrite El.
        destruct (IH _ _ _ _ Ech Hq) as [H | H]; [now left | right].
        now apply prefix_cons.
      * rewrite entry_lookup_update_ne in Hq by exact Hne.
        destruct (entry_lookup c0 es); [eauto | discriminate].
    + destruct (mkdir_parents (Dir true []) p) as [ch' |] eqn:Ech; [| discriminate].
      injection Hm as <-. simpl in Hq |- *.
      destruct (String.eqb_spec c0 c) as [-> | Hne].
      * rewrite (entry_lookup_app_new _ _ _ El) in Hq. right.
        destruct (IH _ _ _ _ Ech Hq) as [[n' H] | H].
        -- destruct q; [apply prefix_cons, prefix_nil | discriminate].
        -- now apply prefix_cons.
      * rewrite entry_lookup_app_ne in Hq by exact Hne.
        destruct (entry_lookup c0 es); [eauto | discriminate].
Qed.

Lemma mkdir_parents_dirs (p : Path) : forall (fs fs' : node) (q : Path),
  mkdir_parents fs p = Ok fs' -> q `prefix_of` p ->
  exists l es, resolve fs' q = Some (Dir l es).
Proof.
  induction p as [| c p IH]; intros fs fs' q Hm Hq.
  - apply prefix_nil_inv in Hq as ->. simpl in Hm |- *.
    destruct fs; [discriminate |]. injection Hm as <-. eauto.
  - simpl in Hm. destruct fs as [r d | l es]; [discriminate |].
    destruct q as [| c0 q].
    + destruct (entry_lookup c es) as [ch |];
        [destruct (mkdir_parents ch p) | destruct (mkdir_parents (Dir true []) p)];
        try discriminate; injection Hm as <-; simpl; eauto.
    + pose proof (prefix_cons_inv_1 _ _ _ _ Hq) as ->.
      apply prefix_cons_inv_2 in Hq.
      destruct (entry_lookup c es) as [ch |] eqn:El.
      * destruct (mkdir_parents ch p) as [ch' |] eqn:Ech; [| discriminate].
        injection Hm as <-. simpl. rewrite (entry_lookup_update_eq _ _ _ _ El).
        apply (IH _ _ _ Ech Hq).
      * destruct (mkdir_parents (Dir true []) p) as [ch' |] eqn:Ech; [| discriminate].
        injection Hm as <-. simpl. rewrite (entry_lookup_app_new _ _ _ El).
        apply (IH _ _ _ Ech Hq).
Qed.

(** What exists after a write: what existed, and the file written. *)
Lemma write_file_resolve (p : Path) : forall (fs fs' : node) (d : string) (q : Path) (n : node),
  write_file fs p d = Ok fs' -> q <> p -> resolve fs' q = Some n ->
  exists n', resolve fs q = Some n'.
Proof.
  induction p as [| c p IH]; intros fs fs' d q n Hw Hne Hq.
  - simpl in Hw. destruct fs as [r0 d0 | l es]; [| discriminate]. injection Hw as <-.
    destruct q; [congruence | discriminate].
  - destruct q as [| c0 q]; [simpl; eauto |].
    simpl in Hw. destruct fs as [r0 d0 | l es]; [discriminate |].
    destruct (entry_lookup c es) as [ch |] eqn:El.
    + destruct (write_file ch p d) as [ch' |] eqn:Ech; [| discriminate].
      injection Hw as <-. simpl in Hq |- *.
      destruct (String.eqb_spec c0 c) as [-> | Hc].
      * rewrite (entry_lookup_update_eq _ _ _ _ El) in Hq. rewrite El.
        apply (IH _ _ _ _ n Ech); [congruence | exact Hq].
      * rewrite entry_lookup_update_ne in Hq by exact Hc.
        destruct (entry_lookup c0 es); [eauto | discriminate].
    + destruct p; [| discriminate]. injection Hw as <-. simpl in Hq |- *.
      destruct (String.eqb_spec c0 c) as [-> | Hc].
      * rewrite (entry_lookup_app_new _ _ _ El) in Hq.
        destruct q; [congruence | discriminate].
      * rewrite entry_lookup_app_ne in Hq by exact Hc.
        destruct (entry_lookup c0 es); [eauto | discriminate].
Qed.

Lemma parent_snoc (p : Path) (c : string) : parent (p ++ [c]) = p.
Proof. apply removelast_last. Qed.

(** The triples [find_script_files] returns, with the glob they come
    from. *)
Lemma find_script_files_In (fs : node) (mods_path : Path)
    (scripts : list (string * Path * Path)) (m : string) (src rel : Path) :
  find_script_files fs mods_path = Ok scripts ->
  In (m, src, rel) scripts ->
  src = mods_path ++ rel /\
  is_dir fs (mods_path ++ [m]) = true /\
  In src (glob_rec fs ((mods_path ++ [m]) ++ ["gamedata"; "scripts"]) ".script") /\
  exists rest,
    rel = m :: "gamedata" :: "scripts" :: rest /\ rest <> [] /\
    endswith (name rest) ".script" = true.
Proof.
  intros Hfind Hin.
  destruct (iterdir fs mods_path) as [mod_dirs |] eqn:Hit;
    [| unfold find_script_files in Hfind; rewrite Hit in Hfind; discriminate].
  rewrite (find_script_files_flat _ _ _ Hit) in Hfind. injection Hfind as <-.
  apply in_flat_map in Hin as (d & Hd & Hin).
  destruct (is_dir fs d) eqn:Hdir; [| contradiction].
  apply in_map_iff in Hin as (f & [= <- <- <-] & Hf).
  destruct (iterdir_In _ _ _ _ Hit Hd) as [c ->].
  pose proof Hf as Hf'.
  apply glob_rec_below in Hf as (r & Hr & -> & Hend & _).
  rewrite name_snoc. rewrite <- !app_assoc, drop_app_length.
  split; [reflexivity |]. split; [exact Hdir |].
  split; [now rewrite <- !app_assoc in Hf' |].
  exists r. repeat split; [exact Hr |].
  rewrite name_app in Hend by exact Hr. exact Hend.
Qed.

Lemma glob_rec_exists (fs : node) (dir : Path) (suffix : string) (p : Path) :
  wf fs -> In p (glob_rec fs dir suffix) -> path_exists fs p = true.
Proof.
  intros Hwf (n & rel & Hdir & Hv & -> & _)%in_glob_rec.
  unfold path_exists. rewrite resolve_app, Hdir.
  now destruct (visible_resolve n rel (wf_resolve _ _ _ Hwf Hdir) Hv) as [n' ->].
Qed.

Lemma copy_loop_mirrors (fs0 : node) (mods_path output_path : Path) (verbose : bool)
    (all : list (string * Path * Path)) (l : list (string * Path * Path)) :
  forall (st st' : stats) (fs fs' : node),
  incl l all ->
  (forall m src rel, In (m, src, rel) l ->
     src = mods_path ++ rel /\ rel <> [] /\ ~ output_path `prefix_of` src) ->
  (forall q r x, ~ output_path `prefix_of` q ->
     (resolve fs q = Some (File r x) <-> resolve fs0 q = Some (File r x))) ->
  mirrors fs0 mods_path output_path all fs ->
  io_for l (copy_one output_path verbose) (st, fs) = (Ok tt, (st', fs')) ->
  length (errors st') = length (errors st) ->
  mirrors fs0 mods_path output_path all fs' /\
  (forall r data,
     resolve fs (output_path ++ r) = Some (File true data) ->
     resolve fs0 (mods_path ++ r) = Some (File true data) ->
     resolve fs' (output_path ++ r) = Some (File true data)) /\
  (forall m src rel, In (m, src, rel) l ->
     exists data, resolve fs0 src = Some (File true data) /\
                  resolve fs' (output_path ++ rel) = Some (File true data)).
Proof.
  induction l as [| [[m src] rel] l IH]; intros st st' fs fs' Hincl Hshape HJ Hmir Hrun Hlen.
  { injection Hrun as <- <-. split; [exact Hmir |]. split; [auto |]. intros ? ? ? []. }
  apply io_for_cons_Ok in Hrun as ([st1 fs1] & Hone & Hrest).
  destruct (copy_loop_mods _ _ _ _ _ _ _ Hrest) as (Hmono & _).
  destruct (copy_one_cases output_path verbose m src rel st fs)
    as (st1' & fs1' & Hone' & Hcase).
  rewrite Hone in Hone'. injection Hone' as <- <-.
  destruct Hcase as [(fsA & data & Hm & HsrcA & _ & Hw & Hst) | (e & -> & _)].
  2:{ cbn [errors] in Hmono. rewrite length_app in Hmono. simpl in Hmono. lia. }
  destruct (Hshape m src rel (or_introl eq_refl)) as (-> & Hrel & Hout).
  assert (Hsrc0 : resolve fs0 (mods_path ++ rel) = Some (File true data)).
  { apply (HJ _ _ _ Hout). apply (mkdir_parents_frame _ _ _ _ _ _ Hm). exact HsrcA. }
  destruct (exists_last Hrel) as (rel' & c & Erel).
  assert (Epar : parent (output_path ++ rel) = output_path ++ rel').
  { rewrite Erel, app_assoc. apply parent_snoc. }
  rewrite Epar in Hm.
  assert (Hnodir : is_dir fsA (output_path ++ rel) = false).
  { unfold is_dir. destruct (resolve fsA (output_path ++ rel)) as [[? ? | lA esA] |] eqn:EA;
      try reflexivity.
    exfalso. destruct (mkdir_parents_resolve _ _ _ _ _ Hm EA) as [[n' Hn'] | Hpre].
    - destruct (Hmir rel n' Hrel Hn') as (m' & x & data' & _ & Hx0 & Hfile & _).
      rewrite app_assoc in Hx0.
      pose proof (resolve_below_File _ _ _ _ _ _ Hsrc0 Hx0) as ->.
      rewrite (Hfile eq_refl) in Hn'.
      apply (mkdir_parents_frame _ _ _ _ _ _ Hm) in Hn'. congruence.
    - apply prefix_length in Hpre. rewrite Erel, !length_app in Hpre. simpl in Hpre. lia. }
  rewrite Hnodir in Hw.
  pose proof (write_file_result _ _ _ _ Hw) as Hdst1.
  assert (HJ1 : forall q r x, ~ output_path `prefix_of` q ->
            (resolve fs1 q = Some (File r x) <-> resolve fs0 q = Some (File r x))).
  { intros q r x Hq. rewrite <- (HJ q r x Hq).
    apply (copy_one_frame _ _ _ _ _ _ _ Hone q r x Hq). }
  assert (Hmir1 : mirrors fs0 mods_path output_path all fs1).
  { intros r n Hr Hres.
    destruct (decide (output_path ++ r = output_path ++ rel)) as [Heq | Hne].
    - apply app_inv_head in Heq as ->. rewrite Hdst1 in Hres. injection Hres as <-.
      exists m, [], data. rewrite app_nil_r. split; [apply Hincl; now left |].
      split; [exact Hsrc0 |]. split; [reflexivity | congruence].
    - destruct (write_file_resolve _ _ _ _ _ _ Hw Hne Hres) as [nA HnA].
      destruct (mkdir_parents_resolve _ _ _ _ _ Hm HnA) as [[n0 Hn0] | Hpre].
      + destruct (Hmir r n0 Hr Hn0) as (m' & x & data' & Hin & Hx0 & Hfile & Hdir).
        exists m', x, data'. split; [exact Hin |]. split; [exact Hx0 |]. split.
        * intros Hx. rewrite (Hfile Hx) in Hn0.
          apply (mkdir_parents_frame _ _ _ _ _ _ Hm) in Hn0.
          apply (write_file_frame _ _ _ _ _ _ _ Hw Hne) in Hn0. congruence.
        * intros Hx. destruct (Hdir Hx) as (l0 & es0 & ->).
          destruct (mkdir_parents_grows _ _ _ Hm _ _ _ Hn0) as (es1 & H1 & _).
          destruct (write_file_grows _ _ _ _ Hw _ _ _ H1) as (es2 & H2 & _).
          rewrite H2 in Hres. injection Hres as <-. eauto.
      + apply prefix_app_inv in Hpre as [y Hy].
        exists m, (y ++ [c]), data.
        assert (Er : r ++ y ++ [c] = rel) by (rewrite Erel, Hy; now rewrite app_assoc).
        rewrite Er. split; [apply Hincl; now left |]. split; [exact Hsrc0 |]. split.
        * intros Hx. now apply app_eq_nil in Hx as [_ [=]].
        * intros _.
          destruct (mkdir_parents_dirs _ _ _ (output_path ++ r) Hm) as (l1 & es1 & H1).
          { rewrite Hy, app_assoc. now exists y. }
          destruct (write_file_grows _ _ _ _ Hw _ _ _ H1) as (es2 & H2 & _).
          rewrite H2 in Hres. injection Hres as <-. eauto. }
  assert (Hkeep1 : forall r data',
            resolve fs (output_path ++ r) = Some (File true data') ->
            resolve fs0 (mods_path ++ r) = Some (File true data') ->
            resolve fs1 (output_path ++ r) = Some (File true data')).
  { intros r data' Hr Hr0.
    apply (mkdir_parents_frame _ _ _ _ _ _ Hm) in Hr.
    destruct (decide (output_path ++ r = output_path ++ rel)) as [Heq | Hne].
    - pose proof (app_inv_head _ _ _ Heq) as ->. rewrite Hdst1. congruence.
    - apply (write_file_frame _ _ _ _ _ _ _ Hw Hne). exact Hr. }
  destruct (IH st1 st' fs1 fs') as (Hmir' & Hkeep' & Hall').
  - intros s Hs. apply Hincl. now right.
  - intros m' src' rel1 H'. apply (Hshape m'). now right.
  - exact HJ1.
  - exact Hmir1.
  - exact Hrest.
  - rewrite Hlen, Hst. reflexivity.
  - split; [exact Hmir' |]. split.
    + intros r data' Hr Hr0. apply Hkeep'; [| exact Hr0]. now apply Hkeep1.
    + intros m' src' rel'' [[= <- <- <-] | Hin]; [| now apply (Hall' m')].
      exists data. split; [exact Hsrc0 |]. apply Hkeep'; assumption.
Qed.

(** X11. Exporting into a directory that does not exist yet mirrors the
    scripts: when no copy failed, every script found has a copy with the
    same contents at the output path followed by its relative path; and
    every regular file below the output directory is such a copy.  The
    tree is one whose directories list every name once. *)
Theorem extract_scripts_mirrors (fs : node) (mods_path output_path : Path)
    (verbose : bool) (scripts : list (string * Path * Path)) (st : stats) (fs' : node) :
  wf fs ->
  path_exists fs output_path = false ->
  find_script_files fs mods_path = Ok scripts ->
  extract_scripts mods_path output_path verbose fs = (Ok st, fs') ->
  errors st = [] ->
  (forall m src rel, In (m, src, rel) scripts ->
     exists data, resolve fs src = Some (File true data) /\
                  resolve fs' (output_path ++ rel) = Some (File true data)) /\
  (forall rel r data, rel <> [] ->
     resolve fs' (output_path ++ rel) = Some (File r data) ->
     r = true /\
     exists m, In (m, mods_path ++ rel, rel) scripts /\
               resolve fs (mods_path ++ rel) = Some (File true data)).
Proof.
  intros Hwf Hfresh Hfind. unfold extract_scripts. rewrite Hfind.
  destruct (truthy scripts) eqn:Et; cbn [negb].
  2:{ intros [= <- <-] _. destruct scripts; [| discriminate]. split.
      - intros ? ? ? [].
      - intros rel r data _ Hres. apply resolve_prefix_exists in Hres as [n Hn].
        unfold path_exists in Hfresh. now rewrite Hn in Hfresh. }
  destruct (mkdir_parents fs output_path) as [fs1 | e] eqn:Em; [| discriminate].
  destruct (io_for scripts (copy_one output_path verbose) (mk_stats ∅ 0 0 [], fs1))
    as [[[] | e] [st2 fs2]] eqn:Eloop; [| discriminate].
  intros [= <- <-] Herr.
  destruct (copy_loop_mirrors fs mods_path output_path verbose scripts scripts
              (mk_stats ∅ 0 0 []) st2 fs1 fs2)
    as (Hmir & _ & Hall).
  - apply incl_refl.
  - intros m src rel Hin.
    destruct (find_script_files_In _ _ _ _ _ _ Hfind Hin)
      as (Hsrc & _ & Hglob & rest & -> & _).
    split; [exact Hsrc |]. split; [discriminate |].
    intros [k Hk]. apply (glob_rec_exists _ _ _ _ Hwf) in Hglob.
    unfold path_exists in Hglob, Hfresh. rewrite Hk, resolve_app in Hglob.
    now destruct (resolve fs output_path).
  - intros q r x _. apply (mkdir_parents_frame _ _ _ _ _ _ Em).
  - intros r n Hr Hres. exfalso.
    destruct (mkdir_parents_resolve _ _ _ _ _ Em Hres) as [[n' Hn'] | Hpre].
    + apply resolve_prefix_exists in Hn' as [n0 Hn0].
      unfold path_exists in Hfresh. now rewrite Hn0 in Hfresh.
    + apply prefix_length in Hpre. rewrite length_app in Hpre.
      destruct r; [congruence | simpl in Hpre; lia].
  - exact Eloop.
  - now rewrite Herr.
  - split; [exact Hall |].
    intros rel r data Hrel Hres.
    destruct (Hmir rel _ Hrel Hres) as (m & x & data' & Hin & Hx0 & Hfile & Hdir).
    destruct x as [| c x].
    + rewrite app_nil_r in Hin, Hx0. specialize (Hfile eq_refl).
      injection Hfile as -> ->. split; [reflexivity |]. eauto.
    + destruct (Hdir ltac:(discriminate)) as (l0 & es0 & [=]).
Qed.

Lemma extract_scripts_mirrors_witness :
  wf export_root /\
  path_exists export_root ["out"] = false /\
  exists scripts st fs',
    find_script_files export_root ["m"] = Ok scripts /\
    extract_scripts ["m"] ["out"] false export_root = (Ok st, fs') /\
    errors st = [] /\
    (forall m src rel, In (m, src, rel) scripts ->
       exists data, resolve export_root src = Some (File true data) /\
                    resolve fs' (["out"] ++ rel) = Some (File true data)) /\
    (forall rel r data, rel <> [] ->
       resolve fs' (["out"] ++ rel) = Some (File r data) ->
       r = true /\
       exists m, In (m, ["m"] ++ rel, rel) scripts /\
                 resolve export_root (["m"] ++ rel) = Some (File true data)).
Proof.
  assert (Hwf : wf export_root) by (apply wfb_wf; reflexivity).
  assert (Hfresh : path_exists export_root ["out"] = false) by reflexivity.
  assert (Hfind : exists scripts, find_script_files export_root ["m"] = Ok scripts)
    by (eexists; reflexivity).
  assert (Hrun : exists st fs',
            extract_scripts ["m"] ["out"] false export_root = (Ok st, fs') /\
            errors st = [])
    by (eexists _, _; split; reflexivity).
  destruct Hfind as (scripts & Hfind). destruct Hrun as (st & fs' & Hrun & Herr).
  split; [exact Hwf |]. split; [exact Hfresh |]. exists scripts, st, fs'.
  split; [exact Hfind |]. split; [exact Hrun |]. split; [exact Herr |].
  exact (extract_scripts_mirrors export_root ["m"] ["out"] false scripts st fs'
           Hwf Hfresh Hfind Hrun Herr).
Defined.

(** ** More on [get_mods] *)

Lemma get_mods_eq (fs : node) (mods_path : Path) (items : list Path) :
  iterdir fs mods_path = Ok items ->
  get_mods fs mods_path =
  Ok (map (fun item =>
             (item, length (glob_here fs (item ++ ["gamedata"; "scripts"]) ".script")))
          (List.filter
             (fun item =>
                is_dir fs item && path_exists fs (item ++ ["gamedata"; "scripts"]) &&
                (0 <? length (glob_here fs (item ++ ["gamedata"; "scripts"]) ".script"))%nat)
             (sorted items))).
Proof.
  intros Hit. unfold get_mods. rewrite Hit. cbn [bind]. f_equal.
  generalize (sorted items). intros l.
  enough (Hgen : forall acc,
    fold_left
      (fun (mods : list (Path * nat)) (item : Path) =>
         if is_dir fs item then
           if path_exists fs (item ++ ["gamedata"; "scripts"]) then
             if (0 <? length (glob_here fs (item ++ ["gamedata"; "scripts"]) ".script"))%nat
             then mods ++ [(item, length (glob_here fs (item ++ ["gamedata"; "scripts"]) ".script"))]
             else mods
           else mods
         else mods) l acc
    = acc ++ map (fun item =>
                    (item, length (glob_here fs (item ++ ["gamedata"; "scripts"]) ".script")))
                 (List.filter
                    (fun item =>
                       is_dir fs item && path_exists fs (item ++ ["gamedata"; "scripts"]) &&
                       (0 <? length (glob_here fs (item ++ ["gamedata"; "scripts"]) ".script"))%nat)
                    l)) by apply (Hgen []).
  induction l as [| item l IH]; intros acc; simpl.
  - now rewrite app_nil_r.
  - rewrite IH.
    destruct (is_dir fs item); simpl; [| reflexivity].
    destruct (path_exists fs (item ++ _)); simpl; [| reflexivity].
    destruct (0 <? _)%nat; simpl; [| reflexivity].
    now rewrite <- app_assoc.
Qed.

Lemma glob_here_exists (fs : node) (dir : Path) (suffix : string) :
  glob_here fs dir suffix <> [] -> path_exists fs dir = true.
Proof.
  unfold glob_here, path_exists. destruct (resolve fs dir); [reflexivity | congruence].
Qed.

Lemma NoDup_filter_list {A} (f : A -> bool) (l : list A) :
  List.NoDup l -> List.NoDup (List.filter f l).
Proof.
  induction 1 as [| x l Hx Hnd IH]; simpl; [constructor |].
  destruct (f x); [| exact IH]. constructor; [| exact IH].
  intros Hin. apply Hx. now apply filter_In in Hin.
Qed.

(** X12. Whenever [get_mods] returns, it holds one pair for every listed
    directory with at least one entry named [*.script] directly in its
    [gamedata/scripts], and no other pair; the number in the pair is the
    number of these entries.  The pairs are sorted by path, and no
    directory comes twice when the tree lists every name once. *)
Theorem get_mods_finds (fs : node) (mods_path : Path) (items : list Path)
    (mods : list (Path * nat)) :
  iterdir fs mods_path = Ok items ->
  get_mods fs mods_path = Ok mods ->
  (forall item n,
     In (item, n) mods <->
     In item items /\ is_dir fs item = true /\
     n = length (glob_here fs (item ++ ["gamedata"; "scripts"]) ".script") /\
     0 < n) /\
  StronglySorted path_le (map fst mods) /\
  (wf fs -> List.NoDup (map fst mods)).
Proof.
  intros Hit Hget. rewrite (get_mods_eq _ _ _ Hit) in Hget. injection Hget as <-.
  split; [| split].
  - intros item n. rewrite in_map_iff. split.
    + intros (item' & [= <- <-] & Hin). apply filter_In in Hin as [Hin Hkeep].
      apply andb_true_iff in Hkeep as [Hkeep Hn].
      apply andb_true_iff in Hkeep as [Hdir _].
      apply Nat.ltb_lt in Hn.
      split; [| auto]. eapply Permutation_in; [symmetry; apply sorted_perm | exact Hin].
    + intros (Hin & Hdir & -> & Hn). exists item. split; [reflexivity |].
      apply filter_In. split.
      * eapply Permutation_in; [apply sorted_perm | exact Hin].
      * assert (Hex : path_exists fs (item ++ ["gamedata"; "scripts"]) = true).
        { apply (glob_here_exists _ _ ".script"). intros E. rewrite E in Hn.
          simpl in Hn. lia. }
        rewrite Hdir, Hex. now apply Nat.ltb_lt.
  - rewrite map_map. simpl. rewrite map_id.
    apply StronglySorted_filter_le, sorted_sorted.
  - intros Hwf. rewrite map_map. simpl. rewrite map_id.
    apply NoDup_filter_list.
    eapply Permutation_NoDup; [apply sorted_perm |].
    apply (iterdir_NoDup _ _ _ Hwf Hit).
Qed.

Lemma get_mods_finds_witness :
  iterdir five_mods ["mods"]
    = Ok [["mods"; "mod0"]; ["mods"; "mod1"]; ["mods"; "mod2"]; ["mods"; "mod3"];
          ["mods"; "mod4"]] /\
  exists mods,
    get_mods five_mods ["mods"] = Ok mods /\
    (forall item n,
       In (item, n) mods <->
       In item [["mods"; "mod0"]; ["mods"; "mod1"]; ["mods"; "mod2"]; ["mods"; "mod3"];
                ["mods"; "mod4"]] /\
       is_dir five_mods item = true /\
       n = length (glob_here five_mods (item ++ ["gamedata"; "scripts"]) ".script") /\
       0 < n) /\
    StronglySorted path_le (map fst mods) /\
    (wf five_mods -> List.NoDup (map fst mods)).
Proof.
  split; [reflexivity |].
  assert (H : exists mods, get_mods five_mods ["mods"] = Ok mods)
    by (eexists; reflexivity).
  destruct H as (mods & H). exists mods. split; [exact H |].
  exact (get_mods_finds five_mods ["mods"] _ mods eq_refl H).
Defined.

(** X13. What the splitter counts, the extractor exports: every entry
    named [*.script] directly in the scripts folder of a mod [get_mods]
    returns is a script [find_script_files] returns, under that mod's
    name. *)
Theorem get_mods_scripts_extracted (fs : node) (mods_path : Path)
    (mods : list (Path * nat)) (item : Path) (n : nat) (src : Path) :
  get_mods fs mods_path = Ok mods ->
  In (item, n) mods ->
  In src (glob_here fs (item ++ ["gamedata"; "scripts"]) ".script") ->
  exists scripts rel,
    find_script_files fs mods_path = Ok scripts /\
    In (name item, src, rel) scripts /\ src = mods_path ++ rel.
Proof.
  intros Hget Hin Hsrc.
  destruct (iterdir fs mods_path) as [items |] eqn:Hit;
    [| unfold get_mods in Hget; rewrite Hit in Hget; discriminate].
  rewrite (get_mods_eq _ _ _ Hit) in Hget. injection Hget as <-.
  apply in_map_iff in Hin as (item' & [= <- <-] & Hin).
  apply filter_In in Hin as [Hin Hkeep].
  apply andb_true_iff in Hkeep as [Hkeep _].
  apply andb_true_iff in Hkeep as [Hdir _].
  apply (Permutation_in _ (Permutation_sym (sorted_perm items))) in Hin.
  destruct (iterdir_In _ _ _ _ Hit Hin) as [c ->].
  apply glob_here_rec in Hsrc. pose proof Hsrc as Hsrc'.
  apply glob_rec_below in Hsrc' as (r & _ & Esrc & _).
  eexists _, (drop (length mods_path) src).
  split; [apply (find_script_files_flat _ _ _ Hit) |].
  split.
  - apply in_flat_map. exists (mods_path ++ [c]). split; [exact Hin |].
    rewrite Hdir. apply in_map_iff. exists src. split; [reflexivity | exact Hsrc].
  - rewrite Esrc, <- !app_assoc. now rewrite drop_app_length.
Qed.

Lemma get_mods_scripts_extracted_witness :
  let item := ["mods"; "mod4"] in
  let src := ["mods"; "mod4"; "gamedata"; "scripts"; "a.script"] in
  (exists mods, get_mods five_mods ["mods"] = Ok mods /\ In (item, 1) mods) /\
  In src (glob_here five_mods (item ++ ["gamedata"; "scripts"]) ".script") /\
  exists scripts rel,
    find_script_files five_mods ["mods"] = Ok scripts /\
    In (name item, src, rel) scripts /\ src = ["mods"] ++ rel.
Proof.
  intros item src.
  assert (Hget : exists mods, get_mods five_mods ["mods"] = Ok mods /\ In (item, 1) mods).
  { eexists. split; [reflexivity |]. do 4 right. now left. }
  assert (Hsrc : In src (glob_here five_mods (item ++ ["gamedata"; "scripts"]) ".script"))
    by now left.
  split; [exact Hget |]. split; [exact Hsrc |].
  destruct Hget as (mods & Hget & Hin).
  exact (get_mods_scripts_extracted five_mods ["mods"] mods item 1 src Hget Hin Hsrc).
Defined.

(** X14. What the splitter takes for a mod, discovery registers: for a
    mods path not named [gamedata], the name of every directory [get_mods]
    returns is a key of the result of [discover_mods], unless it is one of
    the names discovery passes over. *)
Theorem get_mods_discovered (fs : node) (mods_path : Path)
    (mods : list (Path * nat)) (found : gmap string (list Path))
    (item : Path) (n : nat) :
  name mods_path <> "gamedata" ->
  get_mods fs mods_path = Ok mods ->
  Discovery.discover_mods fs mods_path = Ok found ->
  In (item, n) mods ->
  skipped (name item) = false ->
  is_Some (found !! name item).
Proof.
  intros Hname Hget Hdisc Hin Hskip.
  destruct (iterdir fs mods_path) as [items |] eqn:Hit;
    [| unfold get_mods in Hget; rewrite Hit in Hget; discriminate].
  rewrite (get_mods_eq _ _ _ Hit) in Hget. injection Hget as <-.
  apply in_map_iff in Hin as (item' & [= -> <-] & Hin).
  apply filter_In in Hin as [Hin Hkeep].
  apply andb_true_iff in Hkeep as [Hkeep Hn].
  apply andb_true_iff in Hkeep as [Hdir Hex].
  apply (Permutation_in _ (Permutation_sym (sorted_perm items))) in Hin.
  apply Nat.ltb_lt in Hn.
  destruct (discover_mods_registers fs mods_path found Hname Hdisc) as [Hcomplete _].
  apply (Hcomplete _ (Discovery.find_scripts fs (item ++ ["gamedata"; "scripts"]))).
  exists (item ++ ["gamedata"; "scripts"]). split; [| split; [exact Hex | split]].
  - apply check_child; [now exists items | now split].
  - reflexivity.
  - destruct (glob_here fs (item ++ ["gamedata"; "scripts"]) ".script") as [| src l] eqn:E;
      [simpl in Hn; lia |].
    assert (Hsrc : In src (glob_here fs (item ++ ["gamedata"; "scripts"]) ".script"))
      by (rewrite E; now left).
    apply glob_here_rec, in_glob_rec in Hsrc as (nd & rel & Hres & Hv & Hp & Hend).
    intros Hnil.
    assert (Hs : In src (Discovery.find_scripts fs (item ++ ["gamedata"; "scripts"]))).
    { apply in_find_scripts. exists nd, rel. repeat split; try assumption. now right. }
    now rewrite Hnil in Hs.
Qed.

Lemma get_mods_discovered_witness :
  let item := ["mods"; "mod4"] in
  name ["mods"] <> "gamedata" /\
  (exists mods, get_mods five_mods ["mods"] = Ok mods /\ In (item, 1) mods) /\
  exists found,
    Discovery.discover_mods five_mods ["mods"] = Ok found /\
    skipped (name item) = false /\
    is_Some (found !! name item).
Proof.
  intros item.
  assert (Hname : name ["mods"] <> "gamedata") by discriminate.
  assert (Hget : exists mods, get_mods five_mods ["mods"] = Ok mods /\ In (item, 1) mods).
  { eexists. split; [reflexivity |]. do 4 right. now left. }
  assert (Hdisc : exists found, Discovery.discover_mods five_mods ["mods"] = Ok found).
  { eexists. vm_compute. reflexivity. }
  split; [exact Hname |]. split; [exact Hget |].
  destruct Hget as (mods & Hget & Hin). destruct Hdisc as (found & Hdisc).
  exists found. split; [exact Hdisc |]. split; [reflexivity |].
  exact (get_mods_discovered five_mods ["mods"] mods found item 1
           Hname Hget Hdisc Hin eq_refl).
Defined.

(** ** More on the splitter *)

Lemma write_file_again (p : Path) : forall (fs fs1 : node) (d d' : string),
  write_file fs p d = Ok fs1 -> exists fs2, write_file fs1 p d' = Ok fs2.
Proof.
  induction p as [| c p IH]; intros fs fs1 d d' Hw.
  - simpl in Hw. destruct fs; [| discriminate]. injection Hw as <-. simpl. eauto.
  - simpl in Hw. destruct fs as [r0 d0 | l es]; [discriminate |].
    destruct (entry_lookup c es) as [ch |] eqn:El.
    + destruct (write_file ch p d) as [ch' |] eqn:Ech; [| discriminate].
      injection Hw as <-. simpl. rewrite (entry_lookup_update_eq _ _ _ _ El).
      destruct (IH _ _ _ d' Ech) as [ch2 ->]. simpl. eauto.
    + destruct p; [| discriminate]. injection Hw as <-. simpl.
      rewrite (entry_lookup_app_new _ _ _ El). simpl. eauto.
Qed.

Lemma zf_write_member (fs1 : node) (mod_path file : Path)
    (members members' : list (string * string)) :
  zf_write fs1 file (name mod_path ++ "/gamedata/scripts/" ++ name file)%string members
    = (Ok tt, members') ->
  members' = members ++ [member fs1 mod_path file].
Proof.
  unfold zf_write, member.
  destruct (resolve fs1 file) as [[[] d | l es] |]; intros [= <-]; reflexivity.
Qed.

Lemma zf_loop_member (fs1 : node) (mod_path : Path) (files : list Path) :
  forall (members members' : list (string * string)),
  io_for files
    (fun file =>
       zf_write fs1 file (name mod_path ++ "/gamedata/scripts/" ++ name file)%string)
    members = (Ok tt, members') ->
  members' = members ++ map (member fs1 mod_path) files.
Proof.
  induction files as [| file files IH]; intros members members' H.
  - injection H as <-. now rewrite app_nil_r.
  - apply io_for_cons_Ok in H as (m1 & H1 & H2).
    apply zf_write_member in H1 as ->. apply IH in H2 as ->.
    now rewrite <- app_assoc.
Qed.

Lemma zip_mods_member (fs1 : node) (chunk : list (Path * nat)) :
  forall (members members' : list (string * string)),
  zip_mods fs1 chunk members = (Ok tt, members') ->
  members' = members ++ members_of fs1 chunk.
Proof.
  unfold zip_mods.
  induction chunk as [| [mod_path cnt] chunk IH]; intros members members' H.
  - injection H as <-. now rewrite app_nil_r.
  - apply io_for_cons_Ok in H as (m1 & H1 & H2).
    apply IH in H2 as ->. unfold io_bind in H1.
    destruct (io_for (glob_here fs1 (mod_path ++ ["gamedata"; "scripts"]) ".script") _ members)
      as [[[] | e] m0] eqn:E0; [| discriminate].
    apply zf_loop_member in E0 as ->. apply zf_loop_member in H1 as ->.
    unfold members_of, packed. simpl. now rewrite map_app, <- !app_assoc.
Qed.

Section SplitterEdges.

Variable zip_encode : list (string * string) -> string.

(** X15. A chunk size of zero stops the splitter at the division: the
    mods are found and counted, then [ZeroDivisionError] is raised; nothing
    is written and the exit status is 1. *)
Theorem main_chunk_size_zero (a : args) (answer : option string) (cwd : Path)
    (w : world) (p : Path) (mods : list (Path * nat)) :
  given_path a answer = Some p ->
  path_exists (fs w) p = true ->
  get_mods (fs w) p = Ok mods ->
  mods <> [] ->
  arg_list a = false ->
  arg_chunks a = 0%Z ->
  main zip_encode a answer cwd w =
    (Raise ZeroDivisionError,
     mk_world (fs w) (stdout w ++ prompted a ++ found_lines p mods)) /\
  exit_code (fst (main zip_encode a answer cwd w)) = 1%Z.
Proof.
  intros Hp Hex Hget Hne Hlist Hc.
  rewrite (main_found zip_encode a answer cwd w p mods Hp Hex Hget).
  destruct mods as [| m mods]; [congruence |]. cbn [truthy negb]. rewrite Hlist.
  unfold split_mods. rewrite Hc. split; reflexivity.
Qed.

(** X16. A negative chunk size gives a chunk count that is not positive,
    so the loop over the chunks has no turn: the output directory is made,
    no archive is written, every regular file is as before, and [main]
    returns, reporting the count it computed. *)
Theorem main_chunk_size_negative (a : args) (answer : option string) (cwd : Path)
    (w : world) (p : Path) (mods : list (Path * nat)) (fs1 : node) :
  given_path a answer = Some p ->
  path_exists (fs w) p = true ->
  get_mods (fs w) p = Ok mods ->
  mods <> [] ->
  arg_list a = false ->
  (arg_chunks a < 0)%Z ->
  mkdir_parents (fs w) (output_dir a cwd) = Ok fs1 ->
  let k := ceil_div (Z.of_nat (length mods)) (arg_chunks a) in
  (k <= 0)%Z /\
  main zip_encode a answer cwd w =
    (Ok tt,
     mk_world fs1 (stdout w ++ prompted a ++ found_lines p mods ++
                   [splitting_line k (arg_chunks a); done_line k (output_dir a cwd)])) /\
  (forall q r x, resolve fs1 q = Some (File r x) <-> resolve (fs w) q = Some (File r x)).
Proof.
  intros Hp Hex Hget Hne Hlist Hc Hmk k.
  assert (Hk : (k <= 0)%Z).
  { unfold k, ceil_div.
    assert (0 <= - Z.of_nat (length mods) / arg_chunks a)%Z; [| lia].
    rewrite <- (Z.opp_involutive (arg_chunks a)), Z.div_opp_opp by lia.
    apply Z.div_pos; lia. }
  split; [exact Hk |]. split; [| intros q r x; apply (mkdir_parents_frame _ _ _ _ _ _ Hmk)].
  rewrite (main_found zip_encode a answer cwd w p mods Hp Hex Hget).
  destruct (truthy mods) eqn:Et; [| apply truthy_nonempty in Hne; congruence].
  cbn [negb]. rewrite Hlist.
  unfold split_mods. fold (output_dir a cwd).
  destruct (Z.eqb_spec (arg_chunks a) 0) as [? | _]; [lia |].
  unfold io_bind at 1. unfold io_ret at 1. fold k.
  unfold io_bind at 1. unfold print at 1, print_end at 1.
  unfold io_bind at 1. unfold update_fs at 1. cbn [fs stdout]. rewrite Hmk.
  replace (Z.to_nat k) with 0 by lia. cbn [seq io_for].
  unfold io_bind, io_ret, print, print_end. cbn [fs stdout].
  unfold splitting_line, done_line. now rewrite <- !app_assoc.
Qed.

(** X17. Once the archive could be opened, [create_chunk_zip] closes it on
    every way out of the [with] block: the file holds the members written
    until then, also when a member could not be added and the exception
    passes on.  No other regular file changes, and nothing is printed. *)
Theorem create_chunk_zip_closes (chunk : list (Path * nat)) (num : nat) (out : Path)
    (w : world) (fs1 : node) :
  write_file (fs w) (out ++ [chunk_name num]) (zip_encode []) = Ok fs1 ->
  exists fs2,
    create_chunk_zip zip_encode chunk num out w =
      (match fst (zip_mods fs1 chunk []) with
       | Ok _ => Ok (out ++ [chunk_name num])
       | Raise e => Raise e
       end,
       mk_world fs2 (stdout w)) /\
    resolve fs2 (out ++ [chunk_name num])
      = Some (File true (zip_encode (snd (zip_mods fs1 chunk [])))) /\
    (forall q r x, q <> out ++ [chunk_name num] ->
       (resolve fs2 q = Some (File r x) <-> resolve (fs w) q = Some (File r x))).
Proof.
  intros E1.
  destruct (write_file_again _ _ _ _ (zip_encode (snd (zip_mods fs1 chunk []))) E1)
    as [fs2 E2].
  exists fs2. unfold create_chunk_zip, io_bind, update_fs. fold (chunk_name num).
  rewrite E1. cbn [fs stdout].
  destruct (zip_mods fs1 chunk []) as [r members]. cbn [fst snd] in *. rewrite E2.
  split; [reflexivity |]. split; [eapply write_file_result, E2 |].
  intros q r0 x Hq.
  rewrite (write_file_frame _ _ _ _ _ r0 x E2 Hq).
  apply (write_file_frame _ _ _ _ _ r0 x E1 Hq).
Qed.

(** X18. The members of an archive that was written are determined by the
    tree: for each mod of the chunk in order, its entries named [*.script]
    and then those named [*.bak], each under
    [<mod name>/gamedata/scripts/<entry name>] with the contents of the
    file.  Entries with other names, [*.lua] among them, are not packed. *)
Theorem create_chunk_zip_members (chunk : list (Path * nat)) (num : nat) (out : Path)
    (w w' : world) (zp : Path) :
  create_chunk_zip zip_encode chunk num out w = (Ok zp, w') ->
  exists fs1,
    write_file (fs w) zp (zip_encode []) = Ok fs1 /\
    resolve (fs w') zp = Some (File true (zip_encode (members_of fs1 chunk))).
Proof.
  unfold create_chunk_zip, io_bind, update_fs. fold (chunk_name num).
  destruct (write_file (fs w) (out ++ [chunk_name num]) (zip_encode [])) as [fs1 |] eqn:E1;
    [| discriminate].
  cbn [fs stdout].
  destruct (zip_mods fs1 chunk []) as [r members] eqn:Ez.
  destruct (write_file fs1 (out ++ [chunk_name num]) (zip_encode members)) as [fs2 |] eqn:E2;
    [| discriminate].
  destruct r as [[] | e]; [| discriminate]. intros [= <- <-]. cbn [fs].
  exists fs1. split; [exact E1 |].
  apply zip_mods_member in Ez as ->. eapply write_file_result, E2.
Qed.

End SplitterEdges.

Lemma main_chunk_size_zero_witness :
  let a := split_args 0 false in
  let w := mk_world five_mods [] in
  exists mods,
    get_mods five_mods ["mods"] = Ok mods /\ mods <> [] /\
    main listing_encode a None [] w =
      (Raise ZeroDivisionError,
       mk_world five_mods ([] ++ prompted a ++ found_lines ["mods"] mods)) /\
    exit_code (fst (main listing_encode a None [] w)) = 1%Z.
Proof.
  intros a w.
  assert (Hget : exists mods, get_mods five_mods ["mods"] = Ok mods /\ mods <> [])
    by (eexists; split; [reflexivity | discriminate]).
  destruct Hget as (mods & Hget & Hne). exists mods.
  split; [exact Hget |]. split; [exact Hne |].
  exact (main_chunk_size_zero listing_encode a None [] w ["mods"] mods
           eq_refl eq_refl Hget Hne eq_refl eq_refl).
Defined.

Lemma main_chunk_size_negative_witness :
  let a := split_args (-2) false in
  let w := mk_world five_mods [] in
  exists mods fs1,
    get_mods five_mods ["mods"] = Ok mods /\ length mods = 5 /\
    mkdir_parents five_mods ["out"] = Ok fs1 /\
    let k := ceil_div (Z.of_nat (length mods)) (-2) in
    (k <= 0)%Z /\
    main listing_encode a None [] w =
      (Ok tt,
       mk_world fs1 ([] ++ prompted a ++ found_lines ["mods"] mods ++
                     [splitting_line k (-2); done_line k ["out"]])) /\
    (forall q r x, resolve fs1 q = Some (File r x) <-> resolve five_mods q = Some (File r x)).
Proof.
  intros a w.
  assert (Hget : exists mods, get_mods five_mods ["mods"] = Ok mods /\ length mods = 5)
    by (eexists; split; reflexivity).
  assert (Hmk : exists fs1, mkdir_parents five_mods ["out"] = Ok fs1)
    by (eexists; reflexivity).
  destruct Hget as (mods & Hget & Hlen). destruct Hmk as (fs1 & Hmk).
  exists mods, fs1. split; [exact Hget |]. split; [exact Hlen |]. split; [exact Hmk |].
  assert (Hne : mods <> []) by (intros ->; discriminate Hlen).
  assert (Hc : (arg_chunks a < 0)%Z) by reflexivity.
  exact (main_chunk_size_negative listing_encode a None [] w ["mods"] mods fs1
           eq_refl eq_refl Hget Hne eq_refl Hc Hmk).
Defined.

Lemma create_chunk_zip_closes_witness :
  let w := mk_world unreadable_mods [] in
  let chunk := [(["mods"; "mod0"], 1); (["mods"; "mod1"], 2)] in
  exists fs1 fs2,
    write_file unreadable_mods ([] ++ [chunk_name 1]) (listing_encode []) = Ok fs1 /\
    fst (zip_mods fs1 chunk []) = Raise PermissionError /\
    snd (zip_mods fs1 chunk [])
      = [("mod0/gamedata/scripts/s.script", "x"); ("mod1/gamedata/scripts/a.script", "aa")] /\
    create_chunk_zip listing_encode chunk 1 [] w =
      (match fst (zip_mods fs1 chunk []) with
       | Ok _ => Ok ([] ++ [chunk_name 1])
       | Raise e => Raise e
       end,
       mk_world fs2 (stdout w)) /\
    resolve fs2 ([] ++ [chunk_name 1])
      = Some (File true (listing_encode (snd (zip_mods fs1 chunk [])))) /\
    (forall q r x, q <> [] ++ [chunk_name 1] ->
       (resolve fs2 q = Some (File r x) <-> resolve unreadable_mods q = Some (File r x))).
Proof.
  intros w chunk.
  assert (H1 : exists fs1,
            write_file unreadable_mods ([] ++ [chunk_name 1]) (listing_encode []) = Ok fs1)
    by (eexists; reflexivity).
  destruct H1 as (fs1 & H1).
  destruct (create_chunk_zip_closes listing_encode chunk 1 [] w fs1 H1) as (fs2 & H2).
  exists fs1, fs2. split; [exact H1 |].
  injection H1 as <-. split; [reflexivity |]. split; [reflexivity |]. exact H2.
Defined.

Lemma create_chunk_zip_members_witness :
  let w := mk_world five_mods [] in
  let chunk := [(["mods"; "mod4"], 1)] in
  exists w' fs1,
    create_chunk_zip listing_encode chunk 1 [] w = (Ok [chunk_name 1], w') /\
    write_file five_mods [chunk_name 1] (listing_encode []) = Ok fs1 /\
    members_of fs1 chunk
      = [("mod4/gamedata/scripts/a.script", "aa"); ("mod4/gamedata/scripts/a.bak", "old")] /\
    resolve (fs w') [chunk_name 1]
      = Some (File true (listing_encode (members_of fs1 chunk))).
Proof.
  intros w chunk.
  assert (H : exists w', create_chunk_zip listing_encode chunk 1 [] w = (Ok [chunk_name 1], w'))
    by (eexists; reflexivity).
  destruct H as (w' & H).
  destruct (create_chunk_zip_members listing_encode chunk 1 [] w w' [chunk_name 1] H)
    as (fs1 & H1 & H2).
  exists w', fs1. split; [exact H |]. split; [exact H1 |]. split; [| exact H2].
  injection H1 as <-. reflexivity.
Defined.

Lemma write_file_parent (p : Path) (c : string) : forall (fs fs' : node) (d : string),
  write_file fs (p ++ [c]) d = Ok fs' -> is_dir fs p = true.
Proof.
  induction p as [| c0 p IH]; intros fs fs' d Hw.
  - simpl in Hw. destruct fs; [discriminate | reflexivity].
  - simpl in Hw. destruct fs as [r0 d0 | l es]; [discriminate |].
    unfold is_dir. simpl.
    destruct (entry_lookup c0 es) as [ch |].
    + destruct (write_file ch (p ++ [c]) d) as [ch' |] eqn:Ech; [| discriminate].
      apply IH in Ech. exact Ech.
    + destruct p; discriminate.
Qed.

Section SplitterErrors.

Variable zip_encode : list (string * string) -> string.

(** X19. A mods path that exists but cannot be listed, a regular file or
    a directory without read permission, ends the splitter with the
    exception of the listing: nothing is written and the exit status
    is 1. *)
Theorem main_path_not_listable (a : args) (answer : option string) (cwd : Path)
    (w : world) (p : Path) (e : exn) :
  given_path a answer = Some p ->
  path_exists (fs w) p = true ->
  iterdir (fs w) p = Raise e ->
  exists w',
    main zip_encode a answer cwd w = (Raise e, w') /\
    fs w' = fs w /\
    exit_code (fst (main zip_encode a answer cwd w)) = 1%Z.
Proof.
  intros Hp Hex Hit.
  assert (Hget : get_mods (fs w) p = Raise e)
    by (unfold get_mods; now rewrite Hit).
  destruct (main_unlisted zip_encode a answer cwd w p e Hp Hex Hget) as (w' & Hrun & Hfs).
  exists w'. rewrite Hrun. split; [reflexivity |]. split; [exact Hfs |].
  unfold iterdir in Hit.
  destruct (resolve (fs w) p) as [[? ? | [] ?] |]; try discriminate Hit;
    injection Hit as <-; reflexivity.
Qed.

(** X20. [create_chunk_zip] does not make the output directory: where it
    is missing, or is not a directory, opening the archive fails with an
    [OSError] and the file system is left as it was. *)
Theorem create_chunk_zip_needs_directory (chunk : list (Path * nat)) (num : nat)
    (out : Path) (w : world) :
  is_dir (fs w) out = false ->
  exists e,
    create_chunk_zip zip_encode chunk num out w = (Raise e, w) /\
    is_OSError e = true.
Proof.
  intros Hdir. unfold create_chunk_zip, io_bind, update_fs.
  destruct (write_file (fs w) (out ++ [("mods_chunk_" ++ pad2 num ++ ".zip")%string])
              (zip_encode [])) as [fs1 | e] eqn:E1.
  - apply write_file_parent in E1. congruence.
  - exists e. split; [reflexivity |]. eapply write_file_OSError, E1.
Qed.

End SplitterErrors.

Lemma main_path_not_listable_witness :
  let a := mk_args (Some "m/readme.txt") 50 None false in
  let w := mk_world lua_only_root [] in
  given_path a None = Some ["m"; "readme.txt"] /\
  path_exists lua_only_root ["m"; "readme.txt"] = true /\
  iterdir lua_only_root ["m"; "readme.txt"] = Raise NotADirectoryError /\
  exists w',
    main listing_encode a None [] w = (Raise NotADirectoryError, w') /\
    fs w' = fs w /\
    exit_code (fst (main listing_encode a None [] w)) = 1%Z.
Proof.
  intros a w. split; [reflexivity |]. split; [reflexivity |]. split; [reflexivity |].
  exact (main_path_not_listable listing_encode a None [] w ["m"; "readme.txt"]
           NotADirectoryError eq_refl eq_refl eq_refl).
Defined.

Lemma create_chunk_zip_needs_directory_witness :
  let w := mk_world five_mods [] in
  is_dir five_mods ["out"] = false /\
  exists e,
    create_chunk_zip listing_encode [(["mods"; "mod0"], 1)] 1 ["out"] w = (Raise e, w) /\
    is_OSError e = true.
Proof.
  intros w. split; [reflexivity |].
  exact (create_chunk_zip_needs_directory listing_encode [(["mods"; "mod0"], 1)] 1
           ["out"] w eq_refl).
Defined.

(** ** [format_size] *)

(** X21. A size below 1024 is shown in bytes, as the number itself with
    one decimal zero. *)
Theorem format_size_bytes (size_bytes : N) :
  (size_bytes < 1024)%N ->
  format_size size_bytes = (pretty size_bytes ++ ".0 B")%string.
Proof.
  intros Hb. unfold format_size. cbn [format_size_loop].
  destruct (N.ltb_spec size_bytes (1024 * 1)) as [_ | ?]; [| lia].
  unfold fmt_1f. rewrite N.div_1_r, N.mod_1_r.
  change (1 <? 2 * 0)%N with false. change (2 * 0 =? 1)%N with false. cbn [orb andb].
  replace (size_bytes * 10 / 10)%N with size_bytes
    by (symmetry; apply N.div_mul; lia).
  replace ((size_bytes * 10) mod 10)%N with 0%N
    by (symmetry; apply N.Div0.mod_mul).
  now rewrite <- string_app_assoc.
Qed.

Lemma format_size_bytes_witness :
  (512 < 1024)%N /\ format_size 512 = "512.0 B".
Proof.
  split; [reflexivity |]. apply (format_size_bytes 512). reflexivity.
Defined.

(** X22. The unit is chosen before the number is rounded: from 1023.95
    KiB up to, but not including, 1 MiB the text is [1024.0 KB]. *)
Theorem format_size_rounds_up (size_bytes : N) :
  (1048525 <= size_bytes < 1048576)%N ->
  format_size size_bytes = "1024.0 KB".
Proof.
  intros Hb. unfold format_size. cbn [format_size_loop].
  destruct (N.ltb_spec size_bytes (1024 * 1)) as [? | _]; [lia |].
  destruct (N.ltb_spec size_bytes (1024 * (1024 * 1))) as [_ | ?]; [| lia].
  unfold fmt_1f. change (1024 * 1)%N with 1024%N.
  assert (Hq : (size_bytes * 10 / 1024 = 10239)%N).
  { symmetry. apply (N.div_unique _ _ _ (size_bytes * 10 - 10484736)); lia. }
  assert (Hr : ((size_bytes * 10) mod 1024 = size_bytes * 10 - 10484736)%N).
  { rewrite N.Div0.mod_eq, Hq. lia. }
  rewrite Hq, Hr.
  destruct (N.ltb_spec 1024 (2 * (size_bytes * 10 - 10484736))) as [_ | ?]; [| lia].
  reflexivity.
Qed.

Lemma format_size_rounds_up_witness :
  (1048525 <= 1048575 < 1048576)%N /\ format_size 1048575 = "1024.0 KB".
Proof.
  split; [split; [discriminate | reflexivity] |].
  apply (format_size_rounds_up 1048575). split; [discriminate | reflexivity].
Defined.

(** * The copy loop and the chunks, in full *)

(** ** C7: failures of single copies *)

(** One turn of the copy loop never raises: it ends as [copy_outcome] says,
    with the failure recorded or the script counted. *)
Lemma copy_one_outcome (output_path : Path) (verbose : bool)
    (script : string * Path * Path) (st : stats) (fs : node) :
  exists st',
    copy_one output_path verbose script (st, fs)
      = (Ok tt, (st', snd (copy_outcome output_path script fs))) /\
    match fst (copy_outcome output_path script fs) with
    | Some e =>
        st' = mk_stats (mods st) (files st) (total_size st)
                       (errors st ++ [(snd script, e)])
    | None => errors st' = errors st /\ files st' = files st + 1
    end.
Proof.
  destruct script as [[mod_name src_path] rel_path].
  unfold copy_one, copy_outcome, try_except, io_bind, on_fs, on_stats, read_fs.
  destruct (mkdir_parents fs (parent (output_path ++ rel_path))) as [fs1 |] eqn:Em.
  2:{ rewrite (OSError_Exception _ (mkdir_parents_OSError _ _ _ Em)).
      eexists. split; reflexivity. }
  destruct (copy2 fs1 src_path (output_path ++ rel_path)) as [fs2 |] eqn:Ec.
  2:{ rewrite (OSError_Exception _ (copy2_OSError _ _ _ _ Ec)).
      eexists. split; reflexivity. }
  apply copy2_Ok in Ec as (data & target & Hsrc & _ & Hne & Hw).
  assert (Hsrc2 : resolve fs2 src_path = Some (File true data))
    by (apply (write_file_frame _ _ _ _ _ _ _ Hw Hne); exact Hsrc).
  unfold st_size. rewrite Hsrc2. cbn [bind fst snd].
  eexists. split; [reflexivity |]. split; reflexivity.
Qed.

(** The copy loop is [copy_failures]: every script gets its turn, in the
    tree the turns before it left, and the failures are appended to
    [errors] in that order. *)
Lemma copy_loop_records (output_path : Path) (verbose : bool)
    (scripts : list (string * Path * Path)) : forall (st : stats) (fs : node),
  exists st',
    io_for scripts (copy_one output_path verbose) (st, fs)
      = (Ok tt, (st', snd (copy_failures output_path scripts fs))) /\
    errors st' = errors st ++ fst (copy_failures output_path scripts fs) /\
    files st' + length (fst (copy_failures output_path scripts fs))
      = files st + length scripts.
Proof.
  induction scripts as [| script scripts IH]; intros st fs.
  - exists st. cbn [copy_failures fst snd length]. rewrite app_nil_r.
    split; [reflexivity |]. split; [reflexivity | lia].
  - destruct (copy_one_outcome output_path verbose script st fs) as (st1 & Hone & Hst1).
    destruct (IH st1 (snd (copy_outcome output_path script fs)))
      as (st' & Hrest & Herr & Hfiles).
    exists st'. cbn [copy_failures].
    destruct (copy_outcome output_path script fs) as [failure fs1] eqn:Eout.
    cbn [fst snd] in *.
    destruct (copy_failures output_path scripts fs1) as [failures fs'] eqn:Efail.
    cbn [fst snd] in *. split.
    { cbn [io_for]. unfold io_bind at 1. rewrite Hone. exact Hrest. }
    destruct failure as [e |].
    + subst st1. cbn [errors files] in *. rewrite Herr, <- app_assoc.
      split; [reflexivity |]. cbn [length]. lia.
    + destruct Hst1 as [He Hf]. rewrite Herr, He. split; [reflexivity |].
      cbn [length]. lia.
Qed.

Lemma copy_outcome_frame (output_path : Path) (script : string * Path * Path)
    (fs : node) (q : Path) (r : bool) (x : string) :
  ~ output_path `prefix_of` q ->
  (resolve (snd (copy_outcome output_path script fs)) q = Some (File r x)
   <-> resolve fs q = Some (File r x)).
Proof.
  destruct script as [[m src] rel]. intros Hq. unfold copy_outcome.
  destruct (mkdir_parents fs (parent (output_path ++ rel))) as [fs1 |] eqn:Em;
    [| reflexivity].
  rewrite <- (mkdir_parents_frame _ _ _ q r x Em).
  destruct (copy2 fs1 src (output_path ++ rel)) as [fs2 |] eqn:Ec; [| reflexivity].
  apply copy2_Ok in Ec as (data & target & _ & [k Hpre] & _ & Hw). cbn [snd].
  apply (write_file_frame _ _ _ _ _ _ _ Hw).
  intros ->. apply Hq. exists (rel ++ k). now rewrite app_assoc.
Qed.

(** A script outside the output directory that is no readable regular file
    when the loop starts fails in its turn. *)
Lemma copy_failures_unreadable (output_path : Path) (fs0 : node)
    (scripts : list (string * Path * Path)) : forall (fs : node),
  (forall q r x, ~ output_path `prefix_of` q ->
     (resolve fs q = Some (File r x) <-> resolve fs0 q = Some (File r x))) ->
  forall m src rel, In (m, src, rel) scripts ->
    ~ output_path `prefix_of` src ->
    (forall data, resolve fs0 src <> Some (File true data)) ->
    In rel (map fst (fst (copy_failures output_path scripts fs))).
Proof.
  induction scripts as [| script scripts IH]; intros fs HJ m src rel Hin Hout Hbad;
    [destruct Hin |].
  cbn [copy_failures].
  destruct (copy_outcome output_path script fs) as [failure fs1] eqn:Eout.
  assert (HJ1 : forall q r x, ~ output_path `prefix_of` q ->
            (resolve fs1 q = Some (File r x) <-> resolve fs0 q = Some (File r x))).
  { intros q r x Hq. rewrite <- (HJ q r x Hq).
    pose proof (copy_outcome_frame output_path script fs q r x Hq) as H.
    now rewrite Eout in H. }
  specialize (IH fs1 HJ1).
  destruct (copy_failures output_path scripts fs1) as [failures fs'] eqn:Efail.
  cbn [fst] in *.
  destruct Hin as [-> | Hin].
  - unfold copy_outcome in Eout.
    destruct (mkdir_parents fs (parent (output_path ++ rel))) as [fsA |] eqn:Em.
    + destruct (copy2 fsA src (output_path ++ rel)) as [fs2 |] eqn:Ec.
      * exfalso. apply copy2_Ok in Ec as (data & target & Hsrc & _).
        apply (mkdir_parents_frame _ _ _ _ _ _ Em) in Hsrc.
        apply (HJ _ _ _ Hout) in Hsrc. exact (Hbad data Hsrc).
      * injection Eout as <- <-. now left.
    + injection Eout as <- <-. now left.
  - assert (Hrest : In rel (map fst failures)) by (eapply IH; eassumption).
    destruct failure; [now right | exact Hrest].
Qed.

(** C7 (as amended).  When the scripts are found and the output directory
    can be made, [extract_scripts] returns its statistics whatever happens
    to the single copies.  Every script gets its turn, in the order found
    and in the tree the turns before it left; a copy that fails is captured,
    with the script's relative path and the exception, into [errors], and
    the loop goes on with the next script: [errors] lists exactly the
    failed copies, in order, and [files] counts the others.  In particular
    a script outside the output directory that is no readable regular file
    is found in [errors].  When no error was recorded, [files] is the
    number of scripts found; and when, moreover, no script lies under the
    output directory, [total_size] is the sum of the sizes the scripts had
    when they were found. *)
Theorem extract_scripts_accounts (fs fs1 : node) (mods_path output_path : Path)
    (verbose : bool) (scripts : list (string * Path * Path)) :
  find_script_files fs mods_path = Ok scripts ->
  mkdir_parents fs output_path = Ok fs1 ->
  exists st fs',
    extract_scripts mods_path output_path verbose fs = (Ok st, fs') /\
    errors st = fst (copy_failures output_path scripts fs1) /\
    files st + length (errors st) = length scripts /\
    (forall m src rel, In (m, src, rel) scripts ->
       ~ output_path `prefix_of` src ->
       (forall data, resolve fs src <> Some (File true data)) ->
       In rel (map fst (errors st))) /\
    incl (map fst (errors st)) (map snd scripts) /\
    (errors st = [] ->
     files st = length scripts /\
     (Forall (fun s => ~ output_path `prefix_of` snd (fst s)) scripts ->
      total_size st = list_sum (map (size_found fs) scripts))).
Proof.
  intros Hfind Hmk. unfold extract_scripts. rewrite Hfind.
  destruct scripts as [| s scripts]; simpl negb; cbv iota.
  { exists (mk_stats ∅ 0 0 []), fs. cbn [errors files copy_failures fst length map].
    repeat split; auto; try apply incl_refl; try (intros m src rel []). }
  rewrite Hmk.
  assert (HJ : forall q r x, ~ output_path `prefix_of` q ->
            (resolve fs1 q = Some (File r x) <-> resolve fs q = Some (File r x))).
  { intros q r x _. apply (mkdir_parents_frame _ _ _ _ _ _ Hmk). }
  destruct (copy_loop_records output_path verbose (s :: scripts) (mk_stats ∅ 0 0 []) fs1)
    as (st & Hrun & Herr & Hfiles).
  destruct (copy_loop_spec output_path verbose fs (s :: scripts) (mk_stats ∅ 0 0 []) fs1)
    as (st2 & fs2 & Hrun2 & _ & _ & Hincl & Hsize).
  { intros q r x Hq. apply HJ, Hq. }
  rewrite Hrun in Hrun2. injection Hrun2 as <- <-.
  rewrite Hrun. exists st, (snd (copy_failures output_path (s :: scripts) fs1)).
  cbn [errors files total_size app] in Herr, Hfiles, Hincl, Hsize.
  split; [reflexivity |]. split; [exact Herr |].
  split; [rewrite Herr; cbn [length] in *; lia |].
  split.
  { intros m src rel Hin Hout Hbad. rewrite Herr.
    eapply (copy_failures_unreadable output_path fs); eassumption. }
  split; [exact Hincl |].
  intros Hnone. rewrite Hnone in *. cbn [length] in *.
  split; [rewrite <- Herr in Hfiles; cbn [length] in Hfiles; lia |].
  intros Hall. now apply Hsize.
Qed.

Lemma extract_scripts_accounts_witness :
  let rel_a := ["A"; "gamedata"; "scripts"; "a.script"] in
  let rel_b := ["A"; "gamedata"; "scripts"; "b.script"] in
  let scripts := [("A", ["m"] ++ rel_a, rel_a); ("A", ["m"] ++ rel_b, rel_b)] in
  find_script_files partly_unreadable_root ["m"] = Ok scripts /\
  exists fs1 st fs',
    mkdir_parents partly_unreadable_root ["out"] = Ok fs1 /\
    extract_scripts ["m"] ["out"] false partly_unreadable_root = (Ok st, fs') /\
    errors st = [(rel_a, PermissionError)] /\
    files st = 1 /\
    resolve fs' (["out"] ++ rel_b) = Some (File true "ok") /\
    errors st = fst (copy_failures ["out"] scripts fs1) /\
    files st + length (errors st) = length scripts /\
    (forall m src rel, In (m, src, rel) scripts ->
       ~ ["out"] `prefix_of` src ->
       (forall data, resolve partly_unreadable_root src <> Some (File true data)) ->
       In rel (map fst (errors st))) /\
    incl (map fst (errors st)) (map snd scripts) /\
    (errors st = [] ->
     files st = length scripts /\
     (Forall (fun s => ~ ["out"] `prefix_of` snd (fst s)) scripts ->
      total_size st = list_sum (map (size_found partly_unreadable_root) scripts))).
Proof.
  intros rel_a rel_b scripts.
  assert (Hfind : find_script_files partly_unreadable_root ["m"] = Ok scripts)
    by reflexivity.
  assert (Hmk : exists fs1, mkdir_parents partly_unreadable_root ["out"] = Ok fs1)
    by (eexists; reflexivity).
  destruct Hmk as (fs1 & Hmk).
  destruct (extract_scripts_accounts partly_unreadable_root fs1 ["m"] ["out"] false
              scripts Hfind Hmk) as (st & fs' & Hrun & Hrest).
  split; [exact Hfind |]. exists fs1, st, fs'.
  split; [exact Hmk |]. split; [exact Hrun |].
  assert (Hval : errors st = [(rel_a, PermissionError)] /\ files st = 1 /\
                 resolve fs' (["out"] ++ rel_b) = Some (File true "ok")).
  { assert (Hst : fst (extract_scripts ["m"] ["out"] false partly_unreadable_root)
                  = Ok st) by now rewrite Hrun.
    assert (Hfs : snd (extract_scripts ["m"] ["out"] false partly_unreadable_root)
                  = fs') by now rewrite Hrun.
    injection Hst as <-. rewrite <- Hfs. repeat split. }
  destruct Hval as (H1 & H2 & H3).
  split; [exact H1 |]. split; [exact H2 |]. split; [exact H3 |]. exact Hrest.
Defined.

(** ** C8: the chunks *)

(** A write leaves every subtree alone that the written path does not lie
    in. *)
Lemma write_file_subtree (p : Path) : forall (fs fs' : node) (data : string) (d : Path),
  write_file fs p data = Ok fs' -> ~ d `prefix_of` p ->
  resolve fs' d = resolve fs d.
Proof.
  induction p as [| c p IH]; intros fs fs' data d Hw Hd.
  - destruct d as [| c0 d]; [exfalso; apply Hd; reflexivity |].
    simpl in Hw. destruct fs; [| discriminate]. now injection Hw as <-.
  - destruct d as [| c0 d]; [exfalso; apply Hd, prefix_nil |].
    simpl in Hw. destruct fs as [r0 d0 | l es]; [discriminate |].
    destruct (entry_lookup c es) as [ch |] eqn:El.
    + destruct (write_file ch p data) as [ch' |] eqn:Ech; [| discriminate].
      injection Hw as <-. simpl.
      destruct (String.eqb_spec c0 c) as [-> | Hne].
      * rewrite (entry_lookup_update_eq _ _ _ _ El), El.
        apply (IH _ _ _ _ Ech). intros Hpre. apply Hd. now apply prefix_cons.
      * now rewrite entry_lookup_update_ne.
    + destruct p; [| discriminate]. injection Hw as <-. simpl.
      destruct (String.eqb_spec c0 c) as [-> | Hne].
      * rewrite (entry_lookup_app_new _ _ _ El), El.
        destruct d; [exfalso; apply Hd; reflexivity | reflexivity].
      * now rewrite entry_lookup_app_ne.
Qed.

Lemma mkdir_parents_subtree (p : Path) : forall (fs fs' : node) (d : Path),
  mkdir_parents fs p = Ok fs' -> ~ d `prefix_of` p ->
  resolve fs' d = resolve fs d.
Proof.
  induction p as [| c p IH]; intros fs fs' d Hm Hd.
  - simpl in Hm. destruct fs; [discriminate |]. now injection Hm as <-.
  - destruct d as [| c0 d]; [exfalso; apply Hd, prefix_nil |].
    simpl in Hm. destruct fs as [r0 d0 | l es]; [discriminate |].
    destruct (entry_lookup c es) as [ch |] eqn:El.
    + destruct (mkdir_parents ch p) as [ch' |] eqn:Ech; [| discriminate].
      injection Hm as <-. simpl.
      destruct (String.eqb_spec c0 c) as [-> | Hne].
      * rewrite (entry_lookup_update_eq _ _ _ _ El), El.
        apply (IH _ _ _ Ech). intros Hpre. apply Hd. now apply prefix_cons.
      * now rewrite entry_lookup_update_ne.
    + destruct (mkdir_parents (Dir true []) p) as [ch' |] eqn:Ech; [| discriminate].
      injection Hm as <-. simpl.
      destruct (String.eqb_spec c0 c) as [-> | Hne].
      * rewrite (entry_lookup_app_new _ _ _ El), El.
        rewrite (IH _ _ d Ech) by (intros Hpre; apply Hd; now apply prefix_cons).
        destruct d; [exfalso; apply Hd, prefix_cons, prefix_nil | reflexivity].
      * now rewrite entry_lookup_app_ne.
Qed.

(** The members of an archive depend on the scripts folders of its mods
    only. *)
Lemma members_of_same (fs fs' : node) (chunk : list (Path * nat)) :
  (forall m, In m chunk ->
     resolve fs' (fst m ++ ["gamedata"; "scripts"])
     = resolve fs (fst m ++ ["gamedata"; "scripts"])) ->
  members_of fs' chunk = members_of fs chunk.
Proof.
  intros Hsame. unfold members_of.
  induction chunk as [| m chunk IH]; [reflexivity |]. cbn [flat_map].
  rewrite IH by (intros m' Hm'; apply Hsame; now right). f_equal.
  specialize (Hsame m (or_introl eq_refl)).
  assert (Hpacked : packed fs' (fst m) = packed fs (fst m)).
  { unfold packed, glob_here. now rewrite Hsame. }
  rewrite Hpacked. apply map_ext_in. intros file Hfile.
  assert (Hf : exists c, file = (fst m ++ ["gamedata"; "scripts"]) ++ [c]).
  { unfold packed, glob_here in Hfile.
    destruct (resolve fs (fst m ++ ["gamedata"; "scripts"])) as [n |];
      [| destruct Hfile].
    apply in_app_iff in Hfile as [H | H];
      apply in_matching in H as (c & ch & _ & _ & ->); now exists c. }
  destruct Hf as [c ->]. unfold member.
  rewrite (resolve_app (fst m ++ ["gamedata"; "scripts"]) fs').
  rewrite (resolve_app (fst m ++ ["gamedata"; "scripts"]) fs).
  now rewrite Hsame.
Qed.

Lemma chunk_name_scripts (mod_path out : Path) (num : nat) :
  ~ (mod_path ++ ["gamedata"; "scripts"]) `prefix_of` out ->
  ~ (mod_path ++ ["gamedata"; "scripts"]) `prefix_of` out ++ [chunk_name num].
Proof.
  intros Hout [k Hk]. destruct (exists_last (l := k)) as (k' & c & ->).
  - intros ->. rewrite app_nil_r in Hk.
    change (mod_path ++ ["gamedata"; "scripts"])
      with (mod_path ++ ["gamedata"] ++ ["scripts"]) in Hk.
    rewrite !app_assoc in Hk. apply app_inj_tail in Hk as [_ Hk]. discriminate Hk.
  - rewrite app_assoc in Hk. apply app_inj_tail in Hk as [Hk _].
    apply Hout. now exists k'.
Qed.

(** The digits of [pad2]: two of them below 100, the first a zero below
    ten. *)
Lemma pad2_two_digits (n : nat) : n < 100 -> pad2 n = two_digits n.
Proof.
  intros Hn. do 100 (destruct n as [| n]; [reflexivity |]). lia.
Qed.

Lemma pad2_pretty (n : nat) : 10 <= n -> pad2 n = pretty n.
Proof.
  intros Hn. unfold pad2. destruct (Nat.ltb_spec n 10); [lia | reflexivity].
Qed.

Section Chunked.

Variable zip_encode : list (string * string) -> string.

(** A chunk archive that was written, by the tree it was written in. *)
Lemma create_chunk_zip_exact (chunk : list (Path * nat)) (num : nat) (out : Path)
    (w w' : world) (zp : Path) :
  create_chunk_zip zip_encode chunk num out w = (Ok zp, w') ->
  zp = out ++ [chunk_name num] /\
  (forall d, ~ d `prefix_of` zp -> resolve (fs w') d = resolve (fs w) d) /\
  ((forall m, In m chunk -> ~ (fst m ++ ["gamedata"; "scripts"]) `prefix_of` zp) ->
   resolve (fs w') zp = Some (File true (zip_encode (members_of (fs w) chunk)))).
Proof.
  unfold create_chunk_zip, io_bind, update_fs. fold (chunk_name num).
  destruct (write_file (fs w) (out ++ [chunk_name num]) (zip_encode [])) as [fs1 |] eqn:E1;
    [| discriminate].
  cbn [fs stdout].
  destruct (zip_mods fs1 chunk []) as [r members] eqn:Ez.
  destruct (write_file fs1 (out ++ [chunk_name num]) (zip_encode members)) as [fs2 |] eqn:E2;
    [| discriminate].
  destruct r as [[] | e]; [| discriminate]. intros [= <- <-]. cbn [fs].
  split; [reflexivity |]. split.
  - intros d Hd. rewrite (write_file_subtree _ _ _ _ _ E2 Hd).
    apply (write_file_subtree _ _ _ _ _ E1 Hd).
  - intros Hout. apply zip_mods_member in Ez as ->. cbn [app] in E2.
    rewrite <- (members_of_same (fs w) fs1).
    + eapply write_file_result, E2.
    + intros m Hm. apply (write_file_subtree _ _ _ _ _ E1), Hout, Hm.
Qed.

Lemma write_chunk_exact (mods : list (Path * nat)) (c k : Z) (out : Path) (i : nat)
    (w w' : world) :
  write_chunk zip_encode mods c k out i w = (Ok tt, w') ->
  (forall d, ~ d `prefix_of` out ++ [chunk_name (i + 1)] ->
     resolve (fs w') d = resolve (fs w) d) /\
  ((forall m, In m (chunk_of mods c i) ->
      ~ (fst m ++ ["gamedata"; "scripts"]) `prefix_of` out ++ [chunk_name (i + 1)]) ->
   resolve (fs w') (out ++ [chunk_name (i + 1)])
     = Some (File true (zip_encode (members_of (fs w) (chunk_of mods c i))))).
Proof.
  unfold write_chunk. fold (chunk_of mods c i).
  unfold io_bind at 1. unfold print_end at 1.
  unfold io_bind at 1.
  destruct (create_chunk_zip zip_encode (chunk_of mods c i) (i + 1) out _)
    as [[zp | e] w1] eqn:Ezip; [| discriminate].
  apply create_chunk_zip_exact in Ezip as (-> & Hsub & Harch).
  cbn [fs stdout] in Hsub, Harch.
  unfold io_bind, query_fs, print, print_end.
  destruct (st_size (fs w1) (out ++ [chunk_name (i + 1)])); [| discriminate].
  intros [= <-]. cbn [fs]. split; assumption.
Qed.

Lemma chunk_loop_exact (mods : list (Path * nat)) (c k : Z) (out : Path) :
  forall (l : list nat) (w w' : world),
  List.NoDup l ->
  (forall m, In m mods -> ~ (fst m ++ ["gamedata"; "scripts"]) `prefix_of` out) ->
  io_for l (write_chunk zip_encode mods c k out) w = (Ok tt, w') ->
  (forall m, In m mods ->
     resolve (fs w') (fst m ++ ["gamedata"; "scripts"])
     = resolve (fs w) (fst m ++ ["gamedata"; "scripts"])) /\
  (forall i, In i l ->
     resolve (fs w') (out ++ [chunk_name (i + 1)])
       = Some (File true (zip_encode (members_of (fs w) (chunk_of mods c i))))).
Proof.
  induction l as [| i l IH]; intros w w' Hnd Hout; simpl.
  - unfold io_ret. intros [= <-]. split; [reflexivity | intros i []].
  - apply List.NoDup_cons_iff in Hnd as [Hi Hnd]. unfold io_bind at 1.
    destruct (write_chunk zip_encode mods c k out i w) as [[[] | e] w1] eqn:E1;
      [| discriminate].
    intros Hloop.
    pose proof (write_chunk_Ok zip_encode _ _ _ _ _ _ _ E1) as (_ & Hframe1 & _).
    pose proof (chunk_loop_Ok zip_encode _ _ _ _ _ _ _ Hnd Hloop) as [_ Hframe].
    apply write_chunk_exact in E1 as [Hsub1 Harch1].
    destruct (IH w1 w' Hnd Hout Hloop) as [Hsame Harch].
    assert (Hsame1 : forall m, In m mods ->
              resolve (fs w1) (fst m ++ ["gamedata"; "scripts"])
              = resolve (fs w) (fst m ++ ["gamedata"; "scripts"])).
    { intros m Hm. apply Hsub1, chunk_name_scripts, Hout, Hm. }
    split.
    + intros m Hm. rewrite (Hsame m Hm). now apply Hsame1.
    + intros j [<- | Hj].
      * apply Hframe.
        -- intros j Hj Heq. apply app_inv_head in Heq.
           apply (f_equal (fun names => List.hd "" names)) in Heq. cbn [List.hd] in Heq.
           apply chunk_name_inj in Heq. assert (i = j) by lia. congruence.
        -- apply Harch1. intros m Hm.
           apply chunk_name_scripts, Hout. eapply chunk_of_incl, Hm.
      * rewrite (Harch j Hj). do 3 f_equal. apply members_of_same.
        intros m Hm. apply Hsame1. eapply chunk_of_incl, Hm.
Qed.

Lemma split_mods_exact (a : args) (cwd : Path) (mods : list (Path * nat)) (w w' : world) :
  (0 < arg_chunks a)%Z ->
  (forall m, In m mods ->
     ~ (fst m ++ ["gamedata"; "scripts"]) `prefix_of` output_dir a cwd) ->
  split_mods zip_encode a cwd mods w = (Ok tt, w') ->
  let k := Z.to_nat (ceil_div (Z.of_nat (length mods)) (arg_chunks a)) in
  forall i, i < k ->
    resolve (fs w') (output_dir a cwd ++ [chunk_name (i + 1)])
      = Some (File true
                (zip_encode (members_of (fs w) (chunk_of mods (arg_chunks a) i)))).
Proof.
  intros Hc Hout. unfold split_mods. fold (output_dir a cwd).
  destruct (Z.eqb_spec (arg_chunks a) 0) as [? | _]; [lia |].
  unfold io_bind at 1. unfold io_ret at 1.
  unfold io_bind at 1. unfold print at 1, print_end at 1.
  unfold io_bind at 1. unfold update_fs at 1. cbn [fs stdout].
  destruct (mkdir_parents (fs w) (output_dir a cwd)) as [fs1 |] eqn:Em; [| discriminate].
  unfold io_bind at 1.
  destruct (io_for _ _ _) as [[[] | e] w2] eqn:Eloop; [| discriminate].
  unfold print, print_end. intros [= <-]. cbv zeta. cbn [fs].
  apply chunk_loop_exact in Eloop as [_ Harch]; [| apply seq_NoDup | exact Hout].
  cbn [fs] in Harch. intros i Hi. rewrite Harch by (apply in_seq; lia).
  do 3 f_equal. apply members_of_same. intros m Hm.
  apply (mkdir_parents_subtree _ _ _ _ Em), Hout. eapply chunk_of_incl, Hm.
Qed.

(** C8. For a chunk size [c] from 1 to below 2^53 and fewer than 2^53
    mods, where the quotient the code takes in floating point has the exact
    ceiling: when the splitter finds the mods [mods] (in the sorted order of
    their paths) and runs to its end, then with [n] the number of mods and
    [k] the number of turns of its loop: [k] is the ceiling of [n / c]; the
    chunks of the turns are the mods in order, [c] at a time, the last one
    holding the remainder; turn [i] leaves the archive
    [mods_chunk_<NN>.zip], [NN] being [i + 1] in decimal, on two digits with
    a leading zero below ten; its members belong to the mods of chunk [i],
    mod by mod, each mod with a member at least; and when the output
    directory does not lie in the scripts folder of a mod, the members are
    exactly the [*.script] and [*.bak] entries of these mods as the splitter
    found them, under [<mod name>/gamedata/scripts/<entry name>]; archives
    of different turns have different names; and no other file is
    written. *)
Theorem main_writes_chunks (a : args) (answer : option string) (cwd : Path)
    (w w' : world) (p : Path) (mods : list (Path * nat)) :
  arg_list a = false ->
  given_path a answer = Some p ->
  path_exists (fs w) p = true ->
  get_mods (fs w) p = Ok mods ->
  (0 < arg_chunks a < 2 ^ 53)%Z ->
  (Z.of_nat (length mods) < 2 ^ 53)%Z ->
  main zip_encode a answer cwd w = (Ok tt, w') ->
  let c := arg_chunks a in
  let n := Z.of_nat (length mods) in
  let k := Z.to_nat (ceil_div n c) in
  let out := output_dir a cwd in
  StronglySorted path_le (map fst mods) /\
  ((Z.of_nat k - 1) * c < n <= Z.of_nat k * c)%Z /\
  concat (map (chunk_of mods c) (seq 0 k)) = mods /\
  (forall i, i < k ->
     Z.of_nat (length (chunk_of mods c i)) = Z.min c (n - Z.of_nat i * c)) /\
  (forall i, i < k -> exists groups,
     holds_mods (chunk_of mods c i) groups /\
     resolve (fs w') (out ++ [("mods_chunk_" ++ pad2 (i + 1) ++ ".zip")%string])
       = Some (File true (zip_encode (concat groups)))) /\
  ((forall m, In m mods -> ~ (fst m ++ ["gamedata"; "scripts"]) `prefix_of` out) ->
   forall i, i < k ->
     resolve (fs w') (out ++ [("mods_chunk_" ++ pad2 (i + 1) ++ ".zip")%string])
       = Some (File true (zip_encode (members_of (fs w) (chunk_of mods c i))))) /\
  (forall i, i < 100 -> pad2 i = two_digits i) /\
  (forall i, 10 <= i -> pad2 i = pretty i) /\
  (forall i j, pad2 i = pad2 j -> i = j) /\
  (forall q r x,
     (forall i, i < k ->
        q <> out ++ [("mods_chunk_" ++ pad2 (i + 1) ++ ".zip")%string]) ->
     (resolve (fs w') q = Some (File r x) <-> resolve (fs w) q = Some (File r x))).
Proof.
  intros Hl Hg Hex Hmods [Hc Hc53] Hn53 Hmain c n k out.
  rewrite (main_found zip_encode a answer cwd w p mods Hg Hex Hmods) in Hmain.
  destruct (truthy mods); cbn [negb] in Hmain; [| discriminate].
  rewrite Hl in Hmain.
  pose proof (fun Hout => split_mods_exact a cwd mods _ w' Hc Hout Hmain) as Hexact.
  apply split_mods_Ok in Hmain as Hparts; [| exact Hc].
  destruct Hparts as [Harch Hframe]. cbn [fs] in Hframe.
  split; [eapply get_mods_sorted, Hmods |].
  split; [now apply chunk_count_bounds |].
  split; [now apply chunks_concat |].
  split; [intros i Hi; now apply chunk_of_length |].
  split; [| split; [| split; [exact pad2_two_digits |
                       split; [exact pad2_pretty |
                       split; [exact pad2_inj | exact Hframe]]]]].
  - intros i Hi. destruct (Harch i Hi) as (fs1 & members & Hkeep & Hzip & Hres).
    destruct (archive_holds_mods (fs w) fs1 (chunk_of mods c i) members)
      as (groups & -> & Hgroups); try assumption.
    + pose proof (get_mods_scripts _ _ _ Hmods) as Hall.
      rewrite List.Forall_forall in *. intros m Hm. apply Hall.
      eapply chunk_of_incl, Hm.
    + now exists groups.
  - intros Hout i Hi. cbn [fs] in Hexact. now apply (Hexact Hout i).
Qed.

End Chunked.

Lemma main_writes_chunks_witness :
  let a := split_args 2 false in
  let w := mk_world five_mods [] in
  exists mods w',
    get_mods five_mods ["mods"] = Ok mods /\
    length mods = 5 /\
    main listing_encode a None [] w = (Ok tt, w') /\
    (forall m, In m mods -> ~ (fst m ++ ["gamedata"; "scripts"]) `prefix_of` ["out"]) /\
    members_of five_mods (chunk_of mods 2 2)
      = [("mod4/gamedata/scripts/a.script", "aa"); ("mod4/gamedata/scripts/a.bak", "old")] /\
    StronglySorted path_le (map fst mods) /\
    ((3 - 1) * 2 < 5 <= 3 * 2)%Z /\
    concat (map (chunk_of mods 2) (seq 0 3)) = mods /\
    (forall i, i < 3 ->
       Z.of_nat (length (chunk_of mods 2 i)) = Z.min 2 (5 - Z.of_nat i * 2)) /\
    (forall i, i < 3 -> exists groups,
       holds_mods (chunk_of mods 2 i) groups /\
       resolve (fs w') (["out"] ++ [("mods_chunk_" ++ pad2 (i + 1) ++ ".zip")%string])
         = Some (File true (listing_encode (concat groups)))) /\
    ((forall m, In m mods -> ~ (fst m ++ ["gamedata"; "scripts"]) `prefix_of` ["out"]) ->
     forall i, i < 3 ->
       resolve (fs w') (["out"] ++ [("mods_chunk_" ++ pad2 (i + 1) ++ ".zip")%string])
         = Some (File true (listing_encode (members_of five_mods (chunk_of mods 2 i))))) /\
    (forall i, i < 100 -> pad2 i = two_digits i) /\
    (forall i, 10 <= i -> pad2 i = pretty i) /\
    (forall i j, pad2 i = pad2 j -> i = j) /\
    (forall q r x,
       (forall i, i < 3 ->
          q <> ["out"] ++ [("mods_chunk_" ++ pad2 (i + 1) ++ ".zip")%string]) ->
       (resolve (fs w') q = Some (File r x) <-> resolve five_mods q = Some (File r x))).
Proof.
  intros a w.
  destruct (get_mods five_mods ["mods"]) as [mods |] eqn:Hmods; [| discriminate].
  destruct (main listing_encode a None [] w) as [r w'] eqn:Hmain.
  assert (Hlen : length mods = 5) by (injection Hmods as <-; reflexivity).
  assert (Hr : r = Ok tt).
  { apply (f_equal fst) in Hmain. cbn [fst] in Hmain. rewrite <- Hmain.
    vm_compute. reflexivity. }
  subst r. exists mods, w'.
  split; [reflexivity |]. split; [exact Hlen |]. split; [reflexivity |].
  split.
  { injection Hmods as <-.
    intros m [<- | [<- | [<- | [<- | [<- | []]]]]] [k Hk]; discriminate Hk. }
  split; [injection Hmods as <-; reflexivity |].
  assert (Hc : (0 < arg_chunks a < 2 ^ 53)%Z) by (split; reflexivity).
  assert (Hn : (Z.of_nat (length mods) < 2 ^ 53)%Z) by (rewrite Hlen; reflexivity).
  pose proof (main_writes_chunks listing_encode a None [] w w' ["mods"] mods
                eq_refl eq_refl eq_refl Hmods Hc Hn Hmain) as H.
  cbv zeta in H. rewrite Hlen in H. exact H.
Defined.
